(** * mmap-tools: the topic tree, the markup codec, the outline codec and the
    archive adapter, embedded from the Python sources

    - [models.py]   : [Task], [Topic] (objects on a heap, with parent
                      back-references), [remove], [move_to];
    - [reader.py]   : [_parse_topic], [_parse_task], [_parse_date], [read];
    - [writer.py]   : [_build_topic_elem], [_build_task_elem],
                      [_update_existing], [_create_new], [write];
    - [markdown.py] : [to_markdown], [_topic_to_md], [from_markdown],
                      [_parse_md_item].

    Python values are modelled as follows.  A [str] is the list of its code
    points.  An [int] is a [Z].  A call that can raise returns a [result].
    Objects that are mutated through several references (the [Topic] nodes
    of [models.py] and of [from_markdown]) live in a heap addressed by
    references; trees that are only built and read ([reader.py],
    [writer.py], [to_markdown]) are values. *)

From Stdlib Require Import ZArith NArith List String Ascii Lia Bool.
From stdpp Require Import base option list gmap.

Set Default Proof Using "Type".
Set Warnings "-register-all,-clear-no-such-hyp".

(** ** Python built-ins used by the sources *)

Module Py.

(** A Python [str]: the sequence of its Unicode code points. *)
Abbreviation str := (list N).

(** An ASCII literal of the source as a [str]. *)
Fixpoint u (s : string) : str :=
  match s with
  | EmptyString => []
  | String a s' => N_of_ascii a :: u s'
  end.

(** Exceptions that the modelled code can raise. *)
Inductive exn :=
  | ValueError
  | OverflowError
  | KeyError
  | FileNotFoundError
  | BadZipFile
  | SameFileError
  | ParseError
  | RecursionError.

Inductive result (A : Type) :=
  | Ok (a : A)
  | Raise (e : exn).
Arguments Ok {A} a.
Arguments Raise {A} e.

#[global] Instance result_bind : MBind result := λ A B k m,
  match m with
  | Ok a => k a
  | Raise e => Raise e
  end.

#[global] Instance result_ret : MRet result := λ A a, Ok a.

#[global] Instance result_fmap : FMap result := λ A B f m,
  match m with
  | Ok a => Ok (f a)
  | Raise e => Raise e
  end.

Definition raises {A} (m : result A) : Prop := exists e, m = Raise e.

(** [try: m  except ValueError: h] *)
Definition except_ValueError {A} (m : result A) (h : result A) : result A :=
  match m with
  | Raise ValueError => h
  | _ => m
  end.

(** *** Character classes

    [str.isspace], which is also what [str.strip] removes and what [\s]
    matches in a [str] pattern. *)
Definition isspace (c : N) : bool :=
  ((9 <=? c) && (c <=? 13) || (28 <=? c) && (c <=? 32)
   || (c =? 133) || (c =? 160) || (c =? 5760)
   || (8192 <=? c) && (c <=? 8202)
   || (c =? 8232) || (c =? 8233) || (c =? 8239) || (c =? 8287)
   || (c =? 12288))%N.

(** The C macro [Py_ISSPACE], which the numeric parsers strip. *)
Definition Py_ISSPACE (c : N) : bool :=
  ((9 <=? c) && (c <=? 13) || (c =? 32))%N.

(** The code points of the digit zero of every decimal digit run of the
    Unicode database of the interpreter (category Nd, Unicode 14.0); the
    nine code points after each are the digits one to nine. *)
Definition decimal_zeros : list N :=
  [48; 1632; 1776; 1984; 2406; 2534; 2662; 2790; 2918; 3046; 3174; 3302;
   3430; 3558; 3664; 3792; 3872; 4160; 4240; 6112; 6160; 6470; 6608; 6784;
   6800; 6992; 7088; 7232; 7248; 42528; 43216; 43264; 43472; 43504; 43600;
   44016; 65296; 66720; 68912; 69734; 69872; 69942; 70096; 70384; 70736;
   70864; 71248; 71360; 71472; 71904; 72016; 72784; 73040; 73120; 92768;
   92864; 93008; 120782; 120792; 120802; 120812; 120822; 123200; 123632;
   125264; 130032]%N.

(** The value of a decimal digit: what [\d] matches in a [str] pattern and
    what [int] and [float] convert. *)
Definition decimal_value (c : N) : option N :=
  match List.find (fun z => (z <=? c) && (c <? z + 10))%N decimal_zeros with
  | Some z => Some (c - z)%N
  | None => None
  end.

Definition isdecimal (c : N) : bool :=
  match decimal_value c with Some _ => true | None => false end.

Definition is_ascii_digit (c : N) : bool := ((48 <=? c) && (c <=? 57))%N.

(** *** str methods *)

Fixpoint dropwhile (f : N -> bool) (s : str) : str :=
  match s with
  | [] => []
  | c :: s' => if f c then dropwhile f s' else s
  end.

Fixpoint takewhile (f : N -> bool) (s : str) : str :=
  match s with
  | [] => []
  | c :: s' => if f c then c :: takewhile f s' else []
  end.

Definition lstrip_with (f : N -> bool) (s : str) : str := dropwhile f s.
Definition rstrip_with (f : N -> bool) (s : str) : str :=
  rev (dropwhile f (rev s)).
Definition strip_with (f : N -> bool) (s : str) : str :=
  rstrip_with f (lstrip_with f s).

(** [s.lstrip()], [s.strip()] *)
Definition lstrip : str -> str := lstrip_with isspace.
Definition strip : str -> str := strip_with isspace.

(** [s.startswith(p)] *)
Fixpoint startswith (s p : str) : bool :=
  match p, s with
  | [], _ => true
  | c :: p', d :: s' => (c =? d)%N && startswith s' p'
  | _ :: _, [] => false
  end.

(** [s.split("\n")] *)
Fixpoint split_lines (s : str) : list str :=
  match s with
  | [] => [[]]
  | c :: s' =>
      if (c =? 10)%N then [] :: split_lines s'
      else match split_lines s' with
           | l :: ls => (c :: l) :: ls
           | [] => [[c]]
           end
  end.

(** [sep.join(parts)] *)
Fixpoint join (sep : str) (parts : list str) : str :=
  match parts with
  | [] => []
  | [p] => p
  | p :: ps => p ++ sep ++ join sep ps
  end.

(** [c in s] for a one code point string [c] *)
Definition contains (c : N) (s : str) : bool := existsb (N.eqb c) s.

(** [s.replace(c, "")] for a one code point string [c] *)
Definition replace_empty (c : N) (s : str) : str :=
  List.filter (fun d => negb (d =? c)%N) s.

(** *** int

    The decimal digits of a natural number. *)
Fixpoint dec_digits (fuel : nat) (n : N) : str :=
  match fuel with
  | O => []
  | S f =>
      if (n <? 10)%N then [48 + n]%N
      else dec_digits f (n / 10)%N ++ [48 + n mod 10]%N
  end.

Definition str_of_N (n : N) : str := dec_digits (S (N.to_nat (N.log2 n))) n.

(** [sys.int_info.default_max_str_digits] *)
Definition int_max_str_digits : nat := 4300.

(** [str(n)] for an [int]: conversions of more than
    [int_max_str_digits] digits raise [ValueError]. *)
Definition str_of_int (z : Z) : result str :=
  let ds := str_of_N (Z.abs_N z) in
  if (int_max_str_digits <? length ds)%nat then Raise ValueError
  else Ok (if (z <? 0)%Z then 45%N :: ds else ds).

(** The value of a run of ASCII digits. *)
Definition digits_value (ds : str) : Z :=
  fold_left (fun acc c => 10 * acc + (Z.of_N c - 48))%Z ds 0%Z.

(** The interpreter maps a [str] to ASCII before it parses a number:
    Unicode spaces become a space, decimal digits their ASCII digit, any
    other non ASCII code point a question mark. *)
Definition to_ascii_char (c : N) : N :=
  if (c <? 128)%N then c
  else if isspace c then 32%N
  else match decimal_value c with
       | Some d => (48 + d)%N
       | None => 63%N
       end.

(** Underscores of a numeric literal: each one is between two digits.  The
    result is the literal without them, or [None] for a misplaced one. *)
Fixpoint strip_underscores (prev : N) (s : str) : option str :=
  match s with
  | [] => if (prev =? 95)%N then None else Some []
  | c :: s' =>
      if (c =? 95)%N then
        if is_ascii_digit prev then strip_underscores c s' else None
      else if (prev =? 95)%N && negb (is_ascii_digit c) then None
      else cons c <$> strip_underscores c s'
  end.

Definition split_sign (s : str) : bool * str :=
  match s with
  | 45%N :: r => (true, r)
  | 43%N :: r => (false, r)
  | _ => (false, s)
  end.

(** [int(s)] for a [str] (base ten). *)
Definition int_of_str (s : str) : result Z :=
  let a := strip_with Py_ISSPACE (map to_ascii_char s) in
  let '(neg, body) := split_sign a in
  match strip_underscores 0%N body with
  | Some (d :: ds) =>
      if forallb is_ascii_digit (d :: ds) then
        if (int_max_str_digits <? length (d :: ds))%nat then Raise ValueError
        else Ok (if neg then - digits_value (d :: ds) else digits_value (d :: ds))%Z
      else Raise ValueError
  | _ => Raise ValueError
  end.

(** *** float

    A [float] is an IEEE binary64 value: [Finite neg m e] is
    [(-1)^neg * m * 2^e]. *)
Inductive pyfloat :=
  | Finite (neg : bool) (m : Z) (e : Z)
  | Inf (neg : bool)
  | NaN.

(** [n / d] rounded to the nearest integer, ties to even
    ([0 <= n], [0 < d]). *)
Definition round_half_even (n d : Z) : Z :=
  let q := (n / d)%Z in
  let r := (n mod d)%Z in
  if (2 * r <? d)%Z then q
  else if (d <? 2 * r)%Z then (q + 1)%Z
  else if Z.even q then q else (q + 1)%Z.

(** The binary64 nearest to [n / d] ([0 < n], [0 < d]): 53 bits of
    precision, least exponent [-1074], overflow to infinity. *)
Definition binary64_of_ratio (neg : bool) (n d : Z) : pyfloat :=
  let e0 := (Z.log2 n - Z.log2 d)%Z in
  let e :=
    if (if (0 <=? e0)%Z then (d * 2 ^ e0 <=? n)%Z else (d <=? n * 2 ^ (- e0))%Z)
    then e0 else (e0 - 1)%Z in
  let s := Z.max (e - 52) (-1074) in
  let q :=
    if (0 <=? s)%Z then round_half_even n (d * 2 ^ s)
    else round_half_even (n * 2 ^ (- s)) d in
  if (1024 <=? Z.log2 q + s)%Z then Inf neg else Finite neg q s.

(** The decimal literal [digits * 10^exp10]. *)
Definition float_of_decimal (neg : bool) (digits : Z) (exp10 : Z) : pyfloat :=
  if (digits =? 0)%Z then Finite neg 0 0
  else if (0 <=? exp10)%Z then binary64_of_ratio neg (digits * 10 ^ exp10) 1
  else binary64_of_ratio neg digits (10 ^ (- exp10)).

Definition lower_ascii (c : N) : N :=
  if ((65 <=? c) && (c <=? 90))%N then (c + 32)%N else c.

(** The exponent part of a literal: [e], an optional sign and digits, up to
    the end of the literal. *)
Definition parse_exponent (s : str) : option Z :=
  match s with
  | [] => Some 0%Z
  | c :: r =>
      if (lower_ascii c =? 101)%N then
        let '(neg, ds) := split_sign r in
        match ds with
        | [] => None
        | _ => if forallb is_ascii_digit ds
               then Some (if neg then - digits_value ds else digits_value ds)%Z
               else None
        end
      else None
  end.

(** An ASCII float literal without its sign: [inf], [infinity], [nan] in any
    case, or digits with an optional point and an optional exponent. *)
Definition parse_float_body (neg : bool) (s : str) : option pyfloat :=
  let l := map lower_ascii s in
  if decide (l = u "inf") then Some (Inf neg)
  else if decide (l = u "infinity") then Some (Inf neg)
  else if decide (l = u "nan") then Some NaN
  else
    let ip := takewhile is_ascii_digit s in
    let r1 := dropwhile is_ascii_digit s in
    let '(fp, r2) :=
      match r1 with
      | 46%N :: r => (takewhile is_ascii_digit r, dropwhile is_ascii_digit r)
      | _ => ([], r1)
      end in
    match ip ++ fp with
    | [] => None
    | ds =>
        match parse_exponent r2 with
        | Some x =>
            Some (float_of_decimal neg (digits_value ds)
                                   (x - Z.of_nat (length fp)))
        | None => None
        end
    end.

(** [float(s)] for a [str]. *)
Definition float_of_str (s : str) : result pyfloat :=
  let a := strip_with Py_ISSPACE (map to_ascii_char s) in
  match strip_underscores 0%N a with
  | Some b =>
      let '(neg, body) := split_sign b in
      match parse_float_body neg body with
      | Some f => Ok f
      | None => Raise ValueError
      end
  | None => Raise ValueError
  end.

(** [int(x)] for a [float]: truncation towards zero; an infinity raises
    [OverflowError], a NaN [ValueError]. *)
Definition int_of_float (x : pyfloat) : result Z :=
  match x with
  | Finite neg m e =>
      let a := if (0 <=? e)%Z then (m * 2 ^ e)%Z else (m / 2 ^ (- e))%Z in
      Ok (if neg then - a else a)%Z
  | Inf _ => Raise OverflowError
  | NaN => Raise ValueError
  end.

(** A naive [datetime.datetime] (the sources never build an aware one). *)
Record datetime := mk_datetime {
  year : Z; month : Z; day : Z;
  hour : Z; minute : Z; second : Z; microsecond : Z
}.

(** *** datetime *)

Definition is_leap (y : Z) : bool :=
  ((y mod 4 =? 0) && (negb (y mod 100 =? 0) || (y mod 400 =? 0)))%Z.

Definition days_in_month (y m : Z) : Z :=
  if (m =? 2)%Z then (if is_leap y then 29 else 28)%Z
  else if ((m =? 4) || (m =? 6) || (m =? 9) || (m =? 11))%Z then 30%Z
  else 31%Z.

(** The invariant of every [datetime] object. *)
Definition valid_datetime (d : datetime) : bool :=
  ((1 <=? year d) && (year d <=? 9999)
   && (1 <=? month d) && (month d <=? 12)
   && (1 <=? day d) && (day d <=? days_in_month (year d) (month d))
   && (0 <=? hour d) && (hour d <=? 23)
   && (0 <=? minute d) && (minute d <=? 59)
   && (0 <=? second d) && (second d <=? 59)
   && (0 <=? microsecond d) && (microsecond d <=? 999999))%Z.

(** The directives of the format strings of the sources. *)
Inductive directive := dY | dm | dd | dH | dM | dS | dlit (c : N).

(** ["%Y-%m-%dT%H:%M:%S"], ["%Y-%m-%d"], ["%m/%d/%Y"], ["%Y-%m-%d %H:%M"] *)
Definition fmt_iso_datetime : list directive :=
  [dY; dlit 45; dm; dlit 45; dd; dlit 84; dH; dlit 58; dM; dlit 58; dS].
Definition fmt_iso_date : list directive := [dY; dlit 45; dm; dlit 45; dd].
Definition fmt_us_date : list directive := [dm; dlit 47; dd; dlit 47; dY].

Definition pad2 (v : Z) : str :=
  [48 + Z.to_N (v / 10); 48 + Z.to_N (v mod 10)]%N.

(** [strftime]: [%Y] is printed by the C library, which does not pad a year
    below 1000; the other fields have two digits. *)
Definition strftime_directive (d : directive) (t : datetime) : str :=
  match d with
  | dY => str_of_N (Z.to_N (year t))
  | dm => pad2 (month t)
  | dd => pad2 (day t)
  | dH => pad2 (hour t)
  | dM => pad2 (minute t)
  | dS => pad2 (second t)
  | dlit c => [c]
  end.

Definition strftime (t : datetime) (fmt : list directive) : str :=
  flat_map (fun d => strftime_directive d t) fmt.

(** [strptime] turns the format into a regular expression, one group per
    directive, matched at the start of the string by backtracking, ignoring
    case.  A matcher lists the ways to match a prefix, in the order in
    which the alternatives of the group are tried. *)
Definition digit_in (lo hi : N) (c : N) : option Z :=
  if ((48 + lo <=? c) && (c <=? 48 + hi))%N then Some (Z.of_N (c - 48))
  else None.

Definition any_digit (c : N) : option Z := Z.of_N <$> decimal_value c.

Definition two (p1 p2 : N -> option Z) (s : str) : list (Z * str) :=
  match s with
  | c1 :: c2 :: r =>
      match p1 c1, p2 c2 with
      | Some a, Some b => [((10 * a + b)%Z, r)]
      | _, _ => []
      end
  | _ => []
  end.

Definition one (p : N -> option Z) (s : str) : list (Z * str) :=
  match s with
  | c :: r => match p c with Some a => [(a, r)] | None => [] end
  | [] => []
  end.

Definition directive_matches (d : directive) (s : str) : list (Z * str) :=
  match d with
  | dY => (* \d\d\d\d *)
      match s with
      | c1 :: c2 :: c3 :: c4 :: r =>
          match any_digit c1, any_digit c2, any_digit c3, any_digit c4 with
          | Some a, Some b, Some c, Some e =>
              [((1000 * a + 100 * b + 10 * c + e)%Z, r)]
          | _, _, _, _ => []
          end
      | _ => []
      end
  | dm => (* 1[0-2]|0[1-9]|[1-9] *)
      two (digit_in 1 1) (digit_in 0 2) s
      ++ two (digit_in 0 0) (digit_in 1 9) s
      ++ one (digit_in 1 9) s
  | dd => (* 3[0-1]|[1-2]\d|0[1-9]|[1-9]| [1-9] *)
      two (digit_in 3 3) (digit_in 0 1) s
      ++ two (digit_in 1 2) any_digit s
      ++ two (digit_in 0 0) (digit_in 1 9) s
      ++ one (digit_in 1 9) s
      ++ match s with 32%N :: r => one (digit_in 1 9) r | _ => [] end
  | dH => (* 2[0-3]|[0-1]\d|\d *)
      two (digit_in 2 2) (digit_in 0 3) s
      ++ two (digit_in 0 1) any_digit s
      ++ one any_digit s
  | dM => (* [0-5]\d|\d *)
      two (digit_in 0 5) any_digit s ++ one any_digit s
  | dS => (* 6[0-1]|[0-5]\d|\d *)
      two (digit_in 6 6) (digit_in 0 1) s
      ++ two (digit_in 0 5) any_digit s
      ++ one any_digit s
  | dlit c =>
      match s with
      | c' :: r => if (lower_ascii c' =? lower_ascii c)%N then [(0%Z, r)] else []
      | [] => []
      end
  end.

Definition set_field (d : directive) (v : Z) (t : datetime) : datetime :=
  match d with
  | dY => mk_datetime v (month t) (day t) (hour t) (minute t) (second t) 0
  | dm => mk_datetime (year t) v (day t) (hour t) (minute t) (second t) 0
  | dd => mk_datetime (year t) (month t) v (hour t) (minute t) (second t) 0
  | dH => mk_datetime (year t) (month t) (day t) v (minute t) (second t) 0
  | dM => mk_datetime (year t) (month t) (day t) (hour t) v (second t) 0
  | dS => mk_datetime (year t) (month t) (day t) (hour t) (minute t) v 0
  | dlit _ => t
  end.

Fixpoint format_matches (fmt : list directive) (s : str) (t : datetime)
  : list (datetime * str) :=
  match fmt with
  | [] => [(t, s)]
  | d :: fmt' =>
      flat_map (fun '(v, r) => format_matches fmt' r (set_field d v t))
               (directive_matches d s)
  end.

(** [datetime.strptime(s, fmt)]: the first match must cover the whole
    string and the fields must make a date. *)
Definition strptime (s : str) (fmt : list directive) : result datetime :=
  match format_matches fmt s (mk_datetime 1900 1 1 0 0 0 0) with
  | (t, []) :: _ => if valid_datetime t then Ok t else Raise ValueError
  | _ => Raise ValueError
  end.

End Py.
Import Py.

(** ** models.py *)

(** [class TaskPriority(Enum)], with its string values. *)
Inductive TaskPriority := NONE | HIGH | MEDIUM | LOW.

Definition TaskPriority_value (p : TaskPriority) : str :=
  match p with
  | NONE => u ""
  | HIGH => u "1"
  | MEDIUM => u "2"
  | LOW => u "3"
  end.

Inductive TaskStatus := NOT_STARTED | IN_PROGRESS | COMPLETE.

Record IconMarker := mk_IconMarker {
  icon_type : str;
  icon_signature : str
}.

Record Task := mk_Task {
  percentage : Z;
  priority : TaskPriority;
  due_date : option datetime;
  start_date : option datetime
}.

(** [Task()] *)
Definition Task_default : Task := mk_Task 0 NONE None None.

(** [Task.status] *)
Definition status (t : Task) : TaskStatus :=
  if (percentage t >=? 100)%Z then COMPLETE
  else if (percentage t >? 0)%Z then IN_PROGRESS
  else NOT_STARTED.

Record Hyperlink := mk_Hyperlink {
  url : str;
  hl_text : str
}.

Record Note := mk_Note {
  plain_text : str;
  html : str
}.

(** *** Topic objects

    A [Topic] object as the interpreter holds it: [children] is a list of
    references, [parent] an optional reference.  [ref] is the identity of
    an object ([is] is equality of references); the heap is the sequence of
    all objects allocated so far, a new object taking the next index. *)

Abbreviation ref := nat.

Record TopicObj := mk_TopicObj {
  o_oid : str;
  o_text : str;
  o_children : list ref;
  o_parent : option ref;
  o_task : option Task;
  o_icons : list IconMarker;
  o_hyperlinks : list Hyperlink;
  o_note : option Note;
  o_style_xml : option str;
  o_raw_attribs : gmap str str
}.

Abbreviation heap := (list TopicObj).

Definition set_children (cs : list ref) (o : TopicObj) : TopicObj :=
  mk_TopicObj (o_oid o) (o_text o) cs (o_parent o) (o_task o) (o_icons o)
              (o_hyperlinks o) (o_note o) (o_style_xml o) (o_raw_attribs o).

Definition set_parent (p : option ref) (o : TopicObj) : TopicObj :=
  mk_TopicObj (o_oid o) (o_text o) (o_children o) p (o_task o) (o_icons o)
              (o_hyperlinks o) (o_note o) (o_style_xml o) (o_raw_attribs o).

(** [Topic()]: every field at its dataclass default. *)
Definition Topic_default : TopicObj :=
  mk_TopicObj [] [] [] None None [] [] None None ∅.

(** Allocation of a new object. *)
Definition alloc (o : TopicObj) (h : heap) : ref * heap :=
  (length h, h ++ [o]).

(** [Topic.remove]:
<<
    if self.parent is not None:
        self.parent.children = [c for c in self.parent.children if c is not self]
        self.parent = None
>>
    A reference that is not in the heap cannot occur in the interpreter; the
    model leaves the heap as it is there. *)
Definition remove (self : ref) (h : heap) : heap :=
  match h !! self with
  | Some o =>
      match o_parent o with
      | Some p =>
          let h1 :=
            alter (fun po =>
                     set_children
                       (List.filter (fun c => negb (Nat.eqb c self))
                                    (o_children po)) po) p h in
          alter (set_parent None) self h1
      | None => h
      end
  | None => h
  end.

(** [Topic.move_to]:
<<
    self.remove()
    self.parent = new_parent
    new_parent.children.append(self)
>>
    No statement of the method raises. *)
Definition move_to (self new_parent : ref) (h : heap) : result heap :=
  let h1 := remove self h in
  let h2 := alter (set_parent (Some new_parent)) self h1 in
  let h3 := alter (fun o => set_children (o_children o ++ [self]) o)
                  new_parent h2 in
  Ok h3.

(** [y] is reached from [x] by following [n] parent links. *)
Inductive parent_chain (h : heap) : nat -> ref -> ref -> Prop :=
  | chain_here x : parent_chain h 0 x x
  | chain_up n x o p y :
      h !! x = Some o -> o_parent o = Some p ->
      parent_chain h n p y -> parent_chain h (S n) x y.

(** [d] is [x] or a descendant of [x]. *)
Definition descendant_or_self (h : heap) (x d : ref) : Prop :=
  exists n, parent_chain h n d x.

(** [x] is its own proper ancestor: the parent links form a cycle. *)
Definition on_parent_cycle (h : heap) (x : ref) : Prop :=
  exists n, parent_chain h (S n) x x.

(** The fields of a topic object other than the two tree links. *)
Definition payload (o : TopicObj) :=
  (o_oid o, o_text o, o_task o, o_icons o, o_hyperlinks o, o_note o,
   o_style_xml o, o_raw_attribs o).

(** *** Topic trees

    A [Topic] with its subtree, as [reader.py] builds it and [writer.py] and
    [to_markdown] read it: the children are the subtrees themselves, and the
    parent back-reference of a node is the node that holds it. *)
Inductive Topic := mk_Topic {
  oid : str;
  text : str;
  children : list Topic;
  task : option Task;
  icons : list IconMarker;
  hyperlinks : list Hyperlink;
  note : option Note;
  _style_xml : option str;
  _raw_attribs : gmap str str
}.

Record MindMap := mk_MindMap {
  root : Topic;
  title : str;
  created : option datetime;
  modified : option datetime;
  _source_path : str;
  _xml_header : str;
  _xml_namespace : str
}.

(** ** xml.etree.ElementTree

    An [Element]: tag, attribute dictionary, text and child elements. *)
Inductive Element := mk_Element {
  tag : str;
  attrib : gmap str str;
  etext : option str;
  echildren : list Element
}.

(** [elem.get(key, "")] *)
Definition get (elem : Element) (key : string) : str :=
  default [] (attrib elem !! u key).

(** [elem.find(tag)]: the first child with this tag. *)
Definition find (elem : Element) (t : str) : option Element :=
  List.find (fun c => bool_decide (tag c = t)) (echildren elem).

(** [elem.find(".//" + tag)]: the first descendant with this tag, in
    document order. *)
Fixpoint find_descendant (elem : Element) (t : str) : option Element :=
  (fix go (cs : list Element) : option Element :=
     match cs with
     | [] => None
     | c :: cs' =>
         if bool_decide (tag c = t) then Some c
         else match find_descendant c t with
              | Some r => Some r
              | None => go cs'
              end
     end) (echildren elem).

(** The element with [f] applied, in place, to the descendant that
    [find_descendant] returns. *)
Fixpoint update_descendant (f : Element -> Element) (elem : Element) (t : str)
  : Element :=
  mk_Element (tag elem) (attrib elem) (etext elem)
    ((fix go (cs : list Element) : list Element :=
        match cs with
        | [] => []
        | c :: cs' =>
            if bool_decide (tag c = t) then f c :: cs'
            else match find_descendant c t with
                 | Some _ => update_descendant f c t :: cs'
                 | None => c :: go cs'
                 end
        end) (echildren elem)).

(** What the sources need from outside the repository: the XML parser and
    serializer, the generator of identifiers ([uuid4 k] is
    [str(uuid.uuid4()).upper()] at the [k]-th call), [Path.with_suffix]
    and the clock. *)
Abbreviation bytes := (list N).

Record Env := mk_Env {
  fromstring : bytes -> result Element;
  tostring_unicode : Element -> str;
  tostring_document : Element -> bytes;
  uuid4 : nat -> str;
  with_suffix : str -> string -> str;
  now : datetime
}.

(** ** reader.py *)

Definition NS : str :=
  u "http://schemas.mindjet.com/MindManager/Application/2003".
Definition _NS : str := u "{" ++ NS ++ u "}".

(** [f"{_NS}name"] *)
Definition qn (name : string) : str := _NS ++ u name.

(** [_parse_date] *)
Definition _parse_date (date_str : str) : option datetime :=
  match strptime date_str fmt_iso_datetime with
  | Ok t => Some t
  | Raise _ =>
      match strptime date_str fmt_iso_date with
      | Ok t => Some t
      | Raise _ =>
          match strptime date_str fmt_us_date with
          | Ok t => Some t
          | Raise _ => None
          end
      end
  end.

(** [TaskPriority(pri)] *)
Definition TaskPriority_of (pri : str) : result TaskPriority :=
  if decide (pri = u "") then Ok NONE
  else if decide (pri = u "1") then Ok HIGH
  else if decide (pri = u "2") then Ok MEDIUM
  else if decide (pri = u "3") then Ok LOW
  else Raise ValueError.

(** [_parse_task] *)
Definition _parse_task (elem : Element) : result Task :=
  let pct := get elem "TaskPercentage" in
  percentage ←
    match pct with
    | [] => Ok 0%Z
    | _ => except_ValueError (float_of_str pct ≫= int_of_float) (Ok 0%Z)
    end;
  let pri := get elem "TaskPriority" in
  priority ← except_ValueError (TaskPriority_of pri) (Ok NONE);
  let due := get elem "TaskDueDate" in
  let due_date := match due with [] => None | _ => _parse_date due end in
  let start := get elem "TaskStartDate" in
  let start_date := match start with [] => None | _ => _parse_date start end in
  Ok (mk_Task percentage priority due_date start_date).

Definition parse_icon (icon_elem : Element) : IconMarker :=
  mk_IconMarker (get icon_elem "IconType") (get icon_elem "IconSignature").

Definition parse_hyperlink (hl_elem : Element) : Hyperlink :=
  mk_Hyperlink (get hl_elem "Url") (get hl_elem "Text").

Definition children_tagged (name : string) (elem : Element) : list Element :=
  List.filter (fun c => bool_decide (tag c = qn name)) (echildren elem).

(** [_parse_topic].  The statements are taken in the order of the source, so
    that an error of the task is raised before the children are parsed.  The
    limit of the interpreter on nested calls is left out here;
    [_parse_topic_limited] has it. *)
Fixpoint _parse_topic (E : Env) (elem : Element) : result Topic :=
  let oid := get elem "OId" in
  let _raw_attribs := attrib elem in
  let text :=
    match find elem (qn "Text") with
    | Some text_elem => get text_elem "PlainText"
    | None => []
    end in
  task ←
    match find elem (qn "Task") with
    | Some task_elem => Some <$> _parse_task task_elem
    | None => Ok None
    end;
  let icons :=
    match find elem (qn "IconMarkers") with
    | Some icons_elem => parse_icon <$> children_tagged "IconMarker" icons_elem
    | None => []
    end in
  let hyperlinks1 :=
    match find elem (qn "Hyperlink") with
    | Some hyperlinks_elem => [parse_hyperlink hyperlinks_elem]
    | None => []
    end in
  let hyperlinks2 :=
    match find elem (qn "HyperlinkGroup") with
    | Some hl_group => parse_hyperlink <$> children_tagged "Hyperlink" hl_group
    | None => []
    end in
  let note :=
    match find elem (qn "NotesGroup") with
    | Some notes_group =>
        match find notes_group (qn "Notes") with
        | Some notes_elem =>
            let plain := get notes_elem "PlainText" in
            let html_content :=
              match find notes_elem (qn "Html") with
              | Some html_elem => default [] (etext html_elem)
              | None => []
              end in
            Some (mk_Note plain html_content)
        | None => None
        end
    | None => None
    end in
  let _style_xml :=
    match find elem (qn "SubTopicShape") with
    | Some style_elem => Some (tostring_unicode E style_elem)
    | None => None
    end in
  children ←
    (fix subtopics (cs : list Element) : result (list Topic) :=
       match cs with
       | [] => Ok []
       | c :: cs' =>
           if bool_decide (tag c = qn "SubTopics") then
             (fix each (gs : list Element) : result (list Topic) :=
                match gs with
                | [] => Ok []
                | child_elem :: gs' =>
                    if bool_decide (tag child_elem = qn "Topic") then
                      child ← _parse_topic E child_elem;
                      rest ← each gs';
                      Ok (child :: rest)
                    else each gs'
                end) (echildren c)
           else subtopics cs'
       end) (echildren elem);
  Ok (mk_Topic oid text children task icons (hyperlinks1 ++ hyperlinks2)
               note _style_xml _raw_attribs).

(** The two loops over the children of [_parse_topic], by name. *)
Definition parse_each (E : Env) : list Element -> result (list Topic) :=
  fix each (gs : list Element) : result (list Topic) :=
    match gs with
    | [] => Ok []
    | child_elem :: gs' =>
        if bool_decide (tag child_elem = qn "Topic") then
          child ← _parse_topic E child_elem;
          rest ← each gs';
          Ok (child :: rest)
        else each gs'
    end.

Definition parse_subtopics (E : Env) : list Element -> result (list Topic) :=
  fix subtopics (cs : list Element) : result (list Topic) :=
    match cs with
    | [] => Ok []
    | c :: cs' =>
        if bool_decide (tag c = qn "SubTopics") then parse_each E (echildren c)
        else subtopics cs'
    end.

Definition parse_text (elem : Element) : str :=
  match find elem (qn "Text") with
  | Some text_elem => get text_elem "PlainText"
  | None => []
  end.

Definition parse_task_of (elem : Element) : result (option Task) :=
  match find elem (qn "Task") with
  | Some task_elem => Some <$> _parse_task task_elem
  | None => Ok None
  end.

Definition parse_icons (elem : Element) : list IconMarker :=
  match find elem (qn "IconMarkers") with
  | Some icons_elem => parse_icon <$> children_tagged "IconMarker" icons_elem
  | None => []
  end.

Definition parse_hyperlinks (elem : Element) : list Hyperlink :=
  match find elem (qn "Hyperlink") with
  | Some hyperlinks_elem => [parse_hyperlink hyperlinks_elem]
  | None => []
  end
  ++ match find elem (qn "HyperlinkGroup") with
     | Some hl_group => parse_hyperlink <$> children_tagged "Hyperlink" hl_group
     | None => []
     end.

Definition parse_note (elem : Element) : option Note :=
  match find elem (qn "NotesGroup") with
  | Some notes_group =>
      match find notes_group (qn "Notes") with
      | Some notes_elem =>
          Some (mk_Note (get notes_elem "PlainText")
                  match find notes_elem (qn "Html") with
                  | Some html_elem => default [] (etext html_elem)
                  | None => []
                  end)
      | None => None
      end
  | None => None
  end.

Definition parse_style (E : Env) (elem : Element) : option str :=
  match find elem (qn "SubTopicShape") with
  | Some style_elem => Some (tostring_unicode E style_elem)
  | None => None
  end.

(** ** The archive

    A file is a ZIP archive, seen as its sequence of named entries, or it is
    not one.  The file system maps paths to files. *)
Inductive file :=
  | Zip (entries : list (str * bytes))
  | NotZip (content : bytes).

Abbreviation filesystem := (gmap str file).

(** [zf.namelist()] *)
Definition namelist (entries : list (str * bytes)) : list str := entries.*1.

(** [zf.read(name)]: the entry of this name that was added last. *)
Definition zf_read (entries : list (str * bytes)) (name : str) : result bytes :=
  match last (List.filter (fun e => bool_decide (e.1 = name)) entries) with
  | Some e => Ok e.2
  | None => Raise KeyError
  end.

(** [zipfile.ZipFile(path, "r")] *)
Definition ZipFile_open (fs : filesystem) (path : str)
  : result (list (str * bytes)) :=
  match fs !! path with
  | None => Raise FileNotFoundError
  | Some (NotZip _) => Raise BadZipFile
  | Some (Zip entries) => Ok entries
  end.

Definition Document_xml : str := u "Document.xml".

(** [MindMap()] but for its root. *)
Definition MindMap_of (root : Topic) (source_path : str) : MindMap :=
  mk_MindMap root (text root) None None source_path [] NS.

(** [read] *)
Definition read (E : Env) (fs : filesystem) (path : str) : result MindMap :=
  match fs !! path with
  | None => Raise FileNotFoundError
  | Some _ =>
      zf ← ZipFile_open fs path;
      if bool_decide (Document_xml ∈ namelist zf) then
        xml_bytes ← zf_read zf Document_xml;
        root_elem ← fromstring E xml_bytes;
        match find_descendant root_elem (qn "OneTopic") with
        | None => Raise ValueError
        | Some one_topic =>
            match find one_topic (qn "Topic") with
            | None => Raise ValueError
            | Some topic_elem =>
                root ← _parse_topic E topic_elem;
                Ok (MindMap_of root path)
            end
        end
      else Raise ValueError
  end.

(** ** writer.py *)

Definition elem (name : string) (attrs : gmap str str) (cs : list Element)
  : Element :=
  mk_Element (qn name) attrs None cs.

(** An attribute that is set only when its value is not empty. *)
Definition attr_if_nonempty (key : string) (v : str) : gmap str str :=
  match v with
  | [] => ∅
  | _ => {[ u key := v ]}
  end.

Definition attr_if_date (key : string) (d : option datetime) : gmap str str :=
  match d with
  | Some t => {[ u key := strftime t fmt_iso_datetime ]}
  | None => ∅
  end.

(** [_build_task_elem]: the [Task] element that is appended to the topic
    element. *)
Definition _build_task_elem (task : Task) : result Element :=
  pct ←
    (if (percentage task >? 0)%Z then
       s ← str_of_int (percentage task);
       Ok ({[ u "TaskPercentage" := s ]} : gmap str str)
     else Ok ∅);
  let pri : gmap str str :=
    match priority task with
    | NONE => ∅
    | p => {[ u "TaskPriority" := TaskPriority_value p ]}
    end in
  Ok (elem "Task"
        (attr_if_date "TaskStartDate" (start_date task)
           ∪ (attr_if_date "TaskDueDate" (due_date task) ∪ (pri ∪ pct)))
        []).

Definition build_icon (icon : IconMarker) : Element :=
  elem "IconMarker"
    (attr_if_nonempty "IconSignature" (icon_signature icon)
       ∪ attr_if_nonempty "IconType" (icon_type icon)) [].

Definition build_hyperlink (hl : Hyperlink) : Element :=
  elem "Hyperlink"
    (attr_if_nonempty "Text" (hl_text hl) ∪ {[ u "Url" := url hl ]}) [].

Definition build_notes (n : Note) : Element :=
  elem "NotesGroup" ∅
    [elem "Notes" {[ u "PlainText" := plain_text n ]}
       match html n with
       | [] => []
       | h => [mk_Element (qn "Html") ∅ (Some h) []]
       end].

(** [_build_topic_elem].  The second component counts the identifiers drawn
    from [uuid4] so far. *)
Fixpoint _build_topic_elem (E : Env) (topic : Topic) (k : nat)
  : result (Element * nat) :=
  let '(oid, k) :=
    match oid topic with
    | [] => (uuid4 E k, S k)
    | o => (o, k)
    end in
  let attrs : gmap str str :=
    filter (fun kv => kv.1 ≠ u "OId") (_raw_attribs topic)
      ∪ {[ u "OId" := oid ]} in
  let text_elem :=
    match text topic with
    | [] => []
    | t => [elem "Text" {[ u "PlainText" := t ]} []]
    end in
  task_elem ←
    match task topic with
    | Some t => e ← _build_task_elem t; Ok [e]
    | None => Ok []
    end;
  let icons_elem :=
    match icons topic with
    | [] => []
    | ics => [elem "IconMarkers" ∅ (build_icon <$> ics)]
    end in
  let hl_elem :=
    match hyperlinks topic with
    | [] => []
    | [hl] => [build_hyperlink hl]
    | hls => [elem "HyperlinkGroup" ∅ (build_hyperlink <$> hls)]
    end in
  let notes_group :=
    match note topic with
    | Some n => [build_notes n]
    | None => []
    end in
  '(child_elems, k) ←
    (fix each (cs : list Topic) (k : nat) : result (list Element * nat) :=
       match cs with
       | [] => Ok ([], k)
       | child :: cs' =>
           '(child_elem, k) ← _build_topic_elem E child k;
           '(rest, k) ← each cs' k;
           Ok (child_elem :: rest, k)
       end) (children topic) k;
  let subtopics_elem :=
    match children topic with
    | [] => []
    | _ => [elem "SubTopics" ∅ child_elems]
    end in
  Ok (elem "Topic" attrs
        (text_elem ++ task_elem ++ icons_elem ++ hl_elem ++ notes_group
           ++ subtopics_elem), k).

(** A [dict] with its insertion order: [d[key] = value]. *)
Fixpoint dict_set {V} (key : str) (value : V) (d : list (str * V))
  : list (str * V) :=
  match d with
  | [] => [(key, value)]
  | (k, v) :: d' =>
      if bool_decide (k = key) then (k, value) :: d'
      else (k, v) :: dict_set key value d'
  end.

(** [d[key]] *)
Fixpoint dict_get {V} (d : list (str * V)) (key : str) : result V :=
  match d with
  | [] => Raise KeyError
  | (k, v) :: d' => if bool_decide (k = key) then Ok v else dict_get d' key
  end.

(** [one_topic.remove(old_topic)] for the first child with this tag. *)
Fixpoint remove_first (t : str) (cs : list Element) : list Element :=
  match cs with
  | [] => []
  | c :: cs' => if bool_decide (tag c = t) then cs' else c :: remove_first t cs'
  end.

(** [shutil.copy2(src, dst)] *)
Definition copy2 (src dst : str) (fs : filesystem) : result filesystem :=
  match fs !! src with
  | Some f => if decide (src = dst) then Raise SameFileError
              else Ok (<[dst := f]> fs)
  | None => Raise FileNotFoundError
  end.

(** [_update_existing] *)
Definition _update_existing (E : Env) (mindmap : MindMap) (source dest : str)
    (backup : bool) (k : nat) (fs : filesystem) : result filesystem :=
  fs ← (if backup && bool_decide (is_Some (fs !! dest)) then
          copy2 dest (with_suffix E dest ".mmap.bak") fs
        else Ok fs);
  zf ← ZipFile_open fs source;
  original_files ←
    foldl (fun acc name =>
             d ← acc; data ← zf_read zf name; Ok (dict_set name data d))
          (Ok []) (namelist zf);
  doc_xml ← dict_get original_files Document_xml;
  root_elem ← fromstring E doc_xml;
  match find_descendant root_elem (qn "OneTopic") with
  | None => Raise ValueError
  | Some _ =>
      '(new_topic_elem, _) ← _build_topic_elem E (root mindmap) k;
      let rebuild (one_topic : Element) : Element :=
        mk_Element (tag one_topic) (attrib one_topic) (etext one_topic)
          (remove_first (qn "Topic") (echildren one_topic)
             ++ [new_topic_elem]) in
      let root_elem := update_descendant rebuild root_elem (qn "OneTopic") in
      let updated_xml := tostring_document E root_elem in
      let original_files := dict_set Document_xml updated_xml original_files in
      Ok (<[dest := Zip original_files]> fs)
  end.

(** [_create_new] *)
Definition _create_new (E : Env) (mindmap : MindMap) (path : str) (k : nat)
    (fs : filesystem) : result filesystem :=
  '(topic_elem, _) ← _build_topic_elem E (root mindmap) k;
  let root_elem := elem "Map" ∅ [elem "OneTopic" ∅ [topic_elem]] in
  let xml_str := tostring_document E root_elem in
  Ok (<[path := Zip [(Document_xml, xml_str)]]> fs).

(** [write] *)
Definition write (E : Env) (mindmap : MindMap) (path : str) (backup : bool)
    (k : nat) (fs : filesystem) : result filesystem :=
  match _source_path mindmap with
  | [] => _create_new E mindmap path k fs
  | source =>
      if bool_decide (is_Some (fs !! source))
      then _update_existing E mindmap source path backup k fs
      else _create_new E mindmap path k fs
  end.

(** ** markdown.py *)

(** The glyphs of the outline: ⏫ 🔼 🔽 📅 🔗. *)
Definition glyph_high : N := 9195.
Definition glyph_medium : N := 128316.
Definition glyph_low : N := 128317.
Definition glyph_due : N := 128197.
Definition glyph_link : N := 128279.

(** [Topic.count]: the number of topics that [walk] yields. *)
Fixpoint count (t : Topic) : nat :=
  S (list_sum (List.map count (children t))).










(** *** The three patterns of [_parse_md_item]

    A matcher gives, for a match at the start of the string, the group of
    the pattern and the length of the match.  In each pattern the greedy
    repetition is followed by a character outside its class, so that a
    shorter repetition never matches. *)

(** [📅\s*(\d{4}-\d{2}-\d{2})] *)
Definition match_due (s : str) : option (str * nat) :=
  match s with
  | c :: r =>
      if (c =? glyph_due)%N then
        let sp := takewhile isspace r in
        match dropwhile isspace r with
        | y1 :: y2 :: y3 :: y4 :: h1 :: m1 :: m2 :: h2 :: d1 :: d2 :: _ =>
            if isdecimal y1 && isdecimal y2 && isdecimal y3 && isdecimal y4
               && (h1 =? 45)%N && isdecimal m1 && isdecimal m2
               && (h2 =? 45)%N && isdecimal d1 && isdecimal d2
            then Some ([y1; y2; y3; y4; h1; m1; m2; h2; d1; d2],
                       (1 + length sp + 10)%nat)
            else None
        | _ => None
        end
      else None
  | [] => None
  end.

(** [\((\d+)%\)] *)
Definition match_pct (s : str) : option (str * nat) :=
  match s with
  | 40%N :: r =>
      match takewhile isdecimal r, dropwhile isdecimal r with
      | d :: ds, 37%N :: 41%N :: _ => Some (d :: ds, (1 + length (d :: ds) + 2)%nat)
      | _, _ => None
      end
  | _ => None
  end.

Definition not_rparen (c : N) : bool := negb (c =? 41)%N.

(** [\[🔗\]\(([^)]+)\)] *)
Definition match_link (s : str) : option (str * nat) :=
  match s with
  | 91%N :: c :: 93%N :: 40%N :: r =>
      if (c =? glyph_link)%N then
        match takewhile not_rparen r, dropwhile not_rparen r with
        | g :: gs, 41%N :: _ => Some (g :: gs, (4 + length (g :: gs) + 1)%nat)
        | _, _ => None
        end
      else None
  | _ => None
  end.

(** [re.search]: the leftmost match, as the text before it, the group and
    the text after it. *)
Fixpoint search (m : str -> option (str * nat)) (s : str)
  : option (str * str * str) :=
  match m s with
  | Some (g, n) => Some ([], g, drop n s)
  | None =>
      match s with
      | [] => None
      | c :: r =>
          match search m r with
          | Some (pre, g, post) => Some (c :: pre, g, post)
          | None => None
          end
      end
  end.

(** [finditer] and [sub("", text)] of a pattern in one scan from the left:
    the groups of the successive matches, and the text without the matches.
    [skip] counts the characters of the current match still to pass. *)
Fixpoint scan (m : str -> option (str * nat)) (s : str) (skip : nat)
  : list str * str :=
  match s with
  | [] => ([], [])
  | c :: r =>
      match skip with
      | S k => scan m r k
      | O =>
          match m s with
          | Some (g, n) => let '(gs, t) := scan m r (n - 1) in (g :: gs, t)
          | None => let '(gs, t) := scan m r 0 in (gs, c :: t)
          end
      end
  end.

Definition set_priority (p : TaskPriority) (t : Task) : Task :=
  mk_Task (percentage t) p (due_date t) (start_date t).
Definition set_due_date (d : option datetime) (t : Task) : Task :=
  mk_Task (percentage t) (priority t) d (start_date t).
Definition set_percentage (p : Z) (t : Task) : Task :=
  mk_Task p (priority t) (due_date t) (start_date t).

(** The three steps of the task metadata, in the order of the source. *)
Definition md_priority (task : Task) (text : str) : Task * str :=
  if contains glyph_high text then
    (set_priority HIGH task, strip (replace_empty glyph_high text))
  else if contains glyph_medium text then
    (set_priority MEDIUM task, strip (replace_empty glyph_medium text))
  else if contains glyph_low text then
    (set_priority LOW task, strip (replace_empty glyph_low text))
  else (task, text).

Definition md_due (task : Task) (text : str) : Task * str :=
  match search match_due text with
  | Some (pre, g, post) =>
      (match strptime g fmt_iso_date with
       | Ok d => set_due_date (Some d) task
       | Raise _ => task
       end,
       strip pre ++ strip post)
  | None => (task, text)
  end.

Definition md_percentage (task : Task) (text : str) : result (Task * str) :=
  match search match_pct text with
  | Some (pre, g, post) =>
      if (percentage task <? 100)%Z then
        p ← int_of_str g;
        Ok (set_percentage p task, strip pre ++ strip post)
      else Ok (task, text)
  | None => Ok (task, text)
  end.

(** [_parse_md_item]: the fields of the [Topic] that it creates. *)
Definition _parse_md_item (text : str) : result TopicObj :=
  let '(task, text) :=
    if startswith text (u "[x] ") then
      (Some (mk_Task 100 NONE None None), drop 4 text)
    else if startswith text (u "[ ] ") then (Some Task_default, drop 4 text)
    else (None, text) in
  '(task, text) ←
    match task with
    | Some task =>
        let '(task, text) := md_priority task text in
        let '(task, text) := md_due task text in
        '(task, text) ← md_percentage task text;
        Ok (Some task, text)
    | None => Ok (None, text)
    end;
  let '(urls, rest) := scan match_link text 0 in
  let text := strip rest in
  Ok (mk_TopicObj [] (strip text) [] None task []
        (List.map (fun url => mk_Hyperlink url []) urls) None None ∅).

(** The [MindMap] object of [from_markdown]: its root is a reference. *)
Record MindMapRef := mk_MindMapRef {
  r_root : ref;
  r_title : str;
  r_created : option datetime;
  r_modified : option datetime;
  r_source_path : str;
  r_xml_header : str;
  r_xml_namespace : str
}.

Definition set_text (t : str) (o : TopicObj) : TopicObj :=
  mk_TopicObj (o_oid o) t (o_children o) (o_parent o) (o_task o) (o_icons o)
              (o_hyperlinks o) (o_note o) (o_style_xml o) (o_raw_attribs o).

(** [parent.children.append(child)] *)
Definition append_child (parent child : ref) (h : heap) : heap :=
  alter (fun o => set_children (o_children o ++ [child]) o) parent h.

(** The frontmatter: a first line [---] and the lines up to and including
    the next [---]. *)
Definition is_dashes (line : str) : bool := bool_decide (strip line = u "---").

Fixpoint drop_until_dashes (lines : list str) : list str :=
  match lines with
  | [] => []
  | l :: ls => if is_dashes l then ls else drop_until_dashes ls
  end.

Definition skip_frontmatter (lines : list str) : list str :=
  match lines with
  | l :: ls => if is_dashes l then drop_until_dashes ls else lines
  | [] => []
  end.

Definition is_h1 (line : str) : bool :=
  startswith (strip line) (u "# ") && negb (startswith (strip line) (u "## ")).

(** The first top-level heading: its text and the lines after it. *)
Fixpoint find_h1 (lines : list str) : option str * list str :=
  match lines with
  | [] => (None, [])
  | l :: ls =>
      if is_h1 l then (Some (strip (drop 2 (strip l))), ls) else find_h1 ls
  end.

(** The state of the second loop of [from_markdown]: the heap,
    [current_branch] and [list_stack], the last element of the Python list
    first. *)
Record md_state := mk_md_state {
  st_heap : heap;
  st_branch : option ref;
  st_stack : list (nat * ref)
}.

Definition md_step (root : ref) (st : md_state) (line : str)
  : result md_state :=
  let stripped := strip line in
  if startswith stripped (u "## ") then
    let '(current_branch, h) :=
      alloc (set_parent (Some root)
               (set_text (strip (drop 3 stripped)) Topic_default))
            (st_heap st) in
    Ok (mk_md_state (append_child root current_branch h)
                    (Some current_branch) [])
  else if startswith stripped (u "- ") then
    match st_branch st with
    | None => Ok st
    | Some current_branch =>
        let indent := (length line - length (lstrip line))%nat in
        let indent_level := (indent / 2)%nat in
        topic ← _parse_md_item (drop 2 stripped);
        let list_stack :=
          (fix pop (stack : list (nat * ref)) : list (nat * ref) :=
             match stack with
             | (lv, t) :: stack' =>
                 if (indent_level <=? lv)%nat then pop stack' else stack
             | [] => []
             end) (st_stack st) in
        let parent :=
          match list_stack with
          | (_, p) :: _ => p
          | [] => current_branch
          end in
        let '(r, h) := alloc (set_parent (Some parent) topic) (st_heap st) in
        Ok (mk_md_state (append_child parent r h) (Some current_branch)
                        ((indent_level, r) :: list_stack))
    end
  else Ok st.

Fixpoint md_loop (root : ref) (lines : list str) (st : md_state)
  : result md_state :=
  match lines with
  | [] => Ok st
  | line :: ls => st' ← md_step root st line; md_loop root ls st'
  end.

(** [from_markdown]: the heap of the topics created and the map. *)
Definition from_markdown (text : str) : result (heap * MindMapRef) :=
  let lines := split_lines text in
  let '(root, h) := alloc Topic_default [] in
  let lines := skip_frontmatter lines in
  let '(root_text, lines) := find_h1 lines in
  let h :=
    match root_text with
    | Some t => alter (set_text t) root h
    | None => h
    end in
  st ← md_loop root lines (mk_md_state h None []);
  let title := default [] (o_text <$> st_heap st !! root) in
  Ok (st_heap st, mk_MindMapRef root title None None [] [] NS).

(** The tree that the heap holds below a reference, to a given depth. *)
Fixpoint reify (fuel : nat) (h : heap) (r : ref) : option Topic :=
  match fuel with
  | O => None
  | S fuel' =>
      o ← h !! r;
      cs ← mapM (reify fuel' h) (o_children o);
      Some (mk_Topic (o_oid o) (o_text o) cs (o_task o) (o_icons o)
                     (o_hyperlinks o) (o_note o) (o_style_xml o)
                     (o_raw_attribs o))
  end.


(** *** Reading the outline decoder *)

(** A second-level heading line. *)
Definition is_h2 (line : str) : bool := startswith (strip line) (u "## ").

(** The priority glyph that [_parse_md_item] acts on: the first present in
    the order high, medium, low. *)
Definition selected_priority (x : str) : option (TaskPriority * N) :=
  if contains glyph_high x then Some (HIGH, glyph_high)
  else if contains glyph_medium x then Some (MEDIUM, glyph_medium)
  else if contains glyph_low x then Some (LOW, glyph_low)
  else None.

(** The leftmost match of a pattern in [s]: [pre] is the text before it,
    where no match starts, [g] its group and [post] the text after it. *)
Definition first_match (m : str -> option (str * nat)) (s pre g post : str)
  : Prop :=
  exists n,
    pre = take (length pre) s /\
    m (drop (length pre) s) = Some (g, n) /\
    post = drop n (drop (length pre) s) /\
    forall i, (i < length pre)%nat -> m (drop i s) = None.

(** The pattern matches nowhere in [s]. *)
Definition no_match (m : str -> option (str * nat)) (s : str) : Prop :=
  forall i, (i <= length s)%nat -> m (drop i s) = None.

(** The text of a checkbox item after the priority step. *)
Definition without_selected_priority (x : str) : str :=
  match selected_priority x with
  | Some (_, g) => strip (replace_empty g x)
  | None => x
  end.

(** ** What a round trip through the markup keeps

    A date without its microseconds: the writer formats dates to the
    second. *)
Definition trunc_us (t : datetime) : datetime :=
  mk_datetime (year t) (month t) (day t) (hour t) (minute t) (second t) 0.

Definition task_decoded (t : Task) : Task :=
  mk_Task (percentage t) (priority t)
          (trunc_us <$> due_date t) (trunc_us <$> start_date t).

Definition date_ok (d : option datetime) : bool :=
  match d with
  | Some t => valid_datetime t && (1000 <=? year t)%Z
  | None => true
  end.

(** A task whose percentage is exactly a binary64 and whose dates have a
    year of four digits. *)
Definition task_ok (t : Task) : bool :=
  (0 <=? percentage t)%Z && (percentage t <? 2 ^ 53)%Z
  && date_ok (due_date t) && date_ok (start_date t).

Fixpoint topic_ok (t : Topic) : bool :=
  match task t with Some tk => task_ok tk | None => true end
  && forallb topic_ok (children t).

(** [t'] is [t] read back: the same text, task (to the second), icons,
    hyperlinks and note, the stored identifier when there is one, the bag
    with the identifier entered under [OId], and children that are the
    children of [t] read back, one for one and in order. *)
Inductive preserved : Topic -> Topic -> Prop :=
  | preserved_topic t t' :
      text t' = text t ->
      task t' = task_decoded <$> task t ->
      icons t' = icons t ->
      hyperlinks t' = hyperlinks t ->
      note t' = note t ->
      (oid t <> [] -> oid t' = oid t) ->
      _raw_attribs t' = <[ u "OId" := oid t' ]> (_raw_attribs t) ->
      Forall2 preserved (children t) (children t') ->
      preserved t t'.

(** The loop over the children of [_build_topic_elem], by name. *)
Definition build_each (E : Env)
  : list Topic -> nat -> result (list Element * nat) :=
  fix each (cs : list Topic) (k : nat) : result (list Element * nat) :=
    match cs with
    | [] => Ok ([], k)
    | child :: cs' =>
        '(child_elem, k) ← _build_topic_elem E child k;
        '(rest, k) ← each cs' k;
        Ok (child_elem :: rest, k)
    end.

Definition build_oid (E : Env) (topic : Topic) (k : nat) : str * nat :=
  match oid topic with
  | [] => (uuid4 E k, S k)
  | o => (o, k)
  end.

Definition build_attrs (topic : Topic) (o : str) : gmap str str :=
  filter (fun kv => kv.1 ≠ u "OId") (_raw_attribs topic) ∪ {[ u "OId" := o ]}.

Definition build_text (topic : Topic) : list Element :=
  match text topic with
  | [] => []
  | t => [elem "Text" {[ u "PlainText" := t ]} []]
  end.

Definition build_icons (topic : Topic) : list Element :=
  match icons topic with
  | [] => []
  | ics => [elem "IconMarkers" ∅ (build_icon <$> ics)]
  end.

Definition build_hyperlinks (topic : Topic) : list Element :=
  match hyperlinks topic with
  | [] => []
  | [hl] => [build_hyperlink hl]
  | hls => [elem "HyperlinkGroup" ∅ (build_hyperlink <$> hls)]
  end.

Definition build_notes_group (topic : Topic) : list Element :=
  match note topic with
  | Some n => [build_notes n]
  | None => []
  end.

Definition build_subtopics (topic : Topic) (child_elems : list Element)
  : list Element :=
  match children topic with
  | [] => []
  | _ => [elem "SubTopics" ∅ child_elems]
  end.

(** [c] has the tag [tg] of the namespace. *)
Definition is_tag (tg : string) (c : Element) : bool :=
  bool_decide (tag c = qn tg).

(** Encoding [t] succeeds, whatever the number of identifiers drawn before,
    and the element decodes to [t] read back. *)
Definition roundtrips (E : Env) (t : Topic) : Prop :=
  forall k, exists e k' t',
    _build_topic_elem E t k = Ok (e, k') /\ tag e = qn "Topic" /\
    _parse_topic E e = Ok t' /\ preserved t t'.

(** ** What a round trip through the outline keeps *)

(** A string that [strip] leaves as it is and that is not empty. *)
Definition solid (s : str) : bool :=
  match s, rev s with
  | c :: _, d :: _ => negb (isspace c) && negb (isspace d)
  | _, _ => false
  end.





(** The midnight of a date: what [%Y-%m-%d] keeps of it. *)
Definition midnight (d : datetime) : datetime :=
  mk_datetime (year d) (month d) (day d) 0 0 0 0.














(** [list_stack] after the items of a level at least [level] are popped. *)
Definition pop (level : nat) : list (nat * ref) -> list (nat * ref) :=
  fix pop (stack : list (nat * ref)) : list (nat * ref) :=
    match stack with
    | (lv, t) :: stack' => if (level <=? lv)%nat then pop stack' else stack
    | [] => []
    end.










(** ** The width of a date format *)

(** The least number of characters that a directive, and a format,
    consume. *)
Definition directive_width (d : directive) : nat :=
  match d with dY => 4 | _ => 1 end.

Definition format_width (fmt : list directive) : nat :=
  list_sum (List.map directive_width fmt).

(** ** Traversals of models.py

    [Topic.walk]: the topics that the generator yields, in order. *)
Fixpoint walk (t : Topic) : list Topic := t :: flat_map walk (children t).

(** [Topic.find] and [Topic.find_all].  [lower] is [str.lower]. *)
Section text_search.
Variable lower : str -> str.

Definition text_matches (text_ : str) (t : Topic) : bool :=
  bool_decide (lower (text t) = lower text_).

Fixpoint Topic_find (text_ : str) (t : Topic) : option Topic :=
  if text_matches text_ t then Some t
  else
    (fix each (cs : list Topic) : option Topic :=
       match cs with
       | [] => None
       | child :: cs' =>
           match Topic_find text_ child with
           | Some result => Some result
           | None => each cs'
           end
       end) (children t).

Fixpoint Topic_find_all (text_ : str) (t : Topic) : list Topic :=
  (if text_matches text_ t then [t] else [])
  ++ flat_map (Topic_find_all text_) (children t).

End text_search.

Definition TaskStatus_eqb (a b : TaskStatus) : bool :=
  match a, b with
  | NOT_STARTED, NOT_STARTED | IN_PROGRESS, IN_PROGRESS
  | COMPLETE, COMPLETE => true
  | _, _ => false
  end.

(** [MindMap.tasks] *)
Definition MindMap_tasks (status_ : option TaskStatus) (m : MindMap)
  : list Topic :=
  List.filter
    (fun topic =>
       match task topic with
       | Some tk =>
           match status_ with
           | None => true
           | Some s => TaskStatus_eqb (status tk) s
           end
       | None => false
       end)
    (walk (root m)).

(** ** The loops over the parent links

    [depth] and [path] follow the parent links in a [while] loop that ends
    at a topic without parent.  The loops are run with a bound on the number
    of iterations; [OutOfFuel] says that the loop is still running when the
    bound is reached.  [NoObject] is a reference outside the heap, which the
    interpreter never holds. *)
Inductive outcome (A : Type) : Type :=
  | Returned (a : A)
  | OutOfFuel
  | NoObject.
Arguments Returned {A} a.
Arguments OutOfFuel {A}.
Arguments NoObject {A}.

(** The loop of [Topic.depth]:
<<
    while node is not None:
        d += 1
        node = node.parent
    return d
>> *)
Fixpoint depth_loop (fuel : nat) (h : heap) (node : option ref) (d : nat)
  : outcome nat :=
  match node with
  | None => Returned d
  | Some r =>
      match fuel with
      | O => OutOfFuel
      | S fuel' =>
          match h !! r with
          | Some o => depth_loop fuel' h (o_parent o) (S d)
          | None => NoObject
          end
      end
  end.

(** [Topic.depth] *)
Definition depth (fuel : nat) (h : heap) (self : ref) : outcome nat :=
  match h !! self with
  | Some o => depth_loop fuel h (o_parent o) 0
  | None => NoObject
  end.

(** The loop of [Topic.path]:
<<
    while node is not None:
        parts.append(node.text)
        node = node.parent
>> *)
Fixpoint path_loop (fuel : nat) (h : heap) (node : option ref)
  (parts : list str) : outcome (list str) :=
  match node with
  | None => Returned parts
  | Some r =>
      match fuel with
      | O => OutOfFuel
      | S fuel' =>
          match h !! r with
          | Some o => path_loop fuel' h (o_parent o) (parts ++ [o_text o])
          | None => NoObject
          end
      end
  end.

(** [Topic.path] *)
Definition path (fuel : nat) (h : heap) (self : ref) : outcome (list str) :=
  match path_loop fuel h (Some self) [] with
  | Returned parts => Returned (rev parts)
  | OutOfFuel => OutOfFuel
  | NoObject => NoObject
  end.

(** [Topic.add_child]:
<<
    child = Topic(text=text, parent=self, **kwargs)
    self.children.append(child)
    return child
>>
    [kwargs] holds the fields that the keywords give, the others at their
    defaults. *)
Definition add_child (self : ref) (text : str) (kwargs : TopicObj) (h : heap)
  : ref * heap :=
  let '(child, h1) := alloc (set_parent (Some self) (set_text text kwargs)) h in
  (child, append_child self child h1).

(** Two heaps with the same parent links and texts. *)
Definition same_links (h h' : heap) : Prop :=
  forall r o, h !! r = Some o ->
    exists o', h' !! r = Some o' /\ o_parent o' = o_parent o /\
               o_text o' = o_text o.


(** The child list of [OneTopic] after [_update_existing] has removed the
    old topic and appended the new one. *)
Definition rebuild_one_topic (new_topic_elem one_topic : Element) : Element :=
  mk_Element (tag one_topic) (attrib one_topic) (etext one_topic)
    (remove_first (qn "Topic") (echildren one_topic) ++ [new_topic_elem]).

(** The loops of [find_descendant] and [update_descendant], by name. *)
Definition find_in_children (t : str) : list Element -> option Element :=
  fix go (cs : list Element) : option Element :=
    match cs with
    | [] => None
    | c :: cs' =>
        if bool_decide (tag c = t) then Some c
        else match find_descendant c t with
             | Some r => Some r
             | None => go cs'
             end
    end.

Definition update_in_children (f : Element -> Element) (t : str)
  : list Element -> list Element :=
  fix go (cs : list Element) : list Element :=
    match cs with
    | [] => []
    | c :: cs' =>
        if bool_decide (tag c = t) then f c :: cs'
        else match find_descendant c t with
             | Some _ => update_descendant f c t :: cs'
             | None => c :: go cs'
             end
    end.

(** No element of the tree has a [TaskPercentage] that [float] reads as an
    infinity. *)
Definition finite_percentage (e : Element) : bool :=
  match float_of_str (get e "TaskPercentage") with
  | Ok (Inf _) => false
  | _ => true
  end.

Fixpoint finite_percentages (e : Element) : bool :=
  finite_percentage e && forallb finite_percentages (echildren e).

(** A computation that returns when [ok] holds and raises nothing but
    [OverflowError]. *)
Definition returns_or_overflows {A} (ok : bool) (r : result A) : Prop :=
  (ok = true -> exists a, r = Ok a) /\
  (forall x, r = Raise x -> x = OverflowError).

(** [_parse_topic] in an interpreter that allows [frames] more nested calls
    of it, each with room for the calls it makes to the library: a call
    beyond them raises [RecursionError], which nothing catches.
    [_parse_topic] calls itself once for each nested [Topic] element. *)
Fixpoint _parse_topic_limited (E : Env) (frames : nat) (elem : Element)
  {struct elem} : result Topic :=
  match frames with
  | O => Raise RecursionError
  | S frames' =>
      task ← parse_task_of elem;
      children ←
        (fix subtopics (cs : list Element) : result (list Topic) :=
           match cs with
           | [] => Ok []
           | c :: cs' =>
               if bool_decide (tag c = qn "SubTopics") then
                 (fix each (gs : list Element) : result (list Topic) :=
                    match gs with
                    | [] => Ok []
                    | child_elem :: gs' =>
                        if bool_decide (tag child_elem = qn "Topic") then
                          child ← _parse_topic_limited E frames' child_elem;
                          rest ← each gs';
                          Ok (child :: rest)
                        else each gs'
                    end) (echildren c)
               else subtopics cs'
           end) (echildren elem);
      Ok (mk_Topic (get elem "OId") (parse_text elem) children task
            (parse_icons elem) (parse_hyperlinks elem) (parse_note elem)
            (parse_style E elem) (attrib elem))
  end.

(** Its two loops over the children, by name. *)
Definition parse_each_limited (E : Env) (frames : nat)
  : list Element -> result (list Topic) :=
  fix each (gs : list Element) : result (list Topic) :=
    match gs with
    | [] => Ok []
    | child_elem :: gs' =>
        if bool_decide (tag child_elem = qn "Topic") then
          child ← _parse_topic_limited E frames child_elem;
          rest ← each gs';
          Ok (child :: rest)
        else each gs'
    end.

Definition parse_subtopics_limited (E : Env) (frames : nat)
  : list Element -> result (list Topic) :=
  fix subtopics (cs : list Element) : result (list Topic) :=
    match cs with
    | [] => Ok []
    | c :: cs' =>
        if bool_decide (tag c = qn "SubTopics")
        then parse_each_limited E frames (echildren c)
        else subtopics cs'
    end.

(** The number of levels of an element tree. *)
Fixpoint height (e : Element) : nat :=
  S (list_max (List.map height (echildren e))).

(** An outcome that raises nothing but the two errors. *)
Definition overflow_or_recursion {A} (r : result A) : Prop :=
  forall x, r = Raise x -> x = OverflowError \/ x = RecursionError.

(** A topic without stored identifier. *)
Definition without_oid (t : Topic) : bool := bool_decide (oid t = []).

(** ** Fixtures of the examples

    An environment: the parser knows one document, the serializers return
    fixed texts, the identifiers are numbered. *)
Definition example_document (topic : list Element) : Element :=
  elem "Map" ∅ [elem "OneTopic" ∅ topic; elem "Relationships" ∅ []].

(** [PurePosixPath.with_suffix] for a path whose last component is not
    empty: the part of the name from its last dot on is replaced, unless
    that dot is the first or the last character of the name. *)
Fixpoint name_with_suffix (first : bool) (name : str) (suffix : str) : str :=
  match name with
  | [] => suffix
  | c :: r =>
      if (c =? 46)%N && negb first && negb (contains 46 r)
         && negb (bool_decide (r = [])) then suffix
      else c :: name_with_suffix false r suffix
  end.

Fixpoint posix_with_suffix (path : str) (suffix : str) : str :=
  match path with
  | [] => suffix
  | c :: r =>
      if contains 47 path then c :: posix_with_suffix r suffix
      else name_with_suffix true path suffix
  end.

Definition example_Env : Env :=
  mk_Env
    (fun b => if decide (b = u "<Map/>")
              then Ok (example_document [elem "Topic" {[ u "OId" := u "A1" ]} []])
              else Raise ParseError)
    (fun _ => u "<SubTopicShape/>")
    (fun _ => u "<Map>...</Map>")
    (fun k => u "UUID-" ++ str_of_N (N.of_nat k))
    (fun path suffix => posix_with_suffix path (u suffix))
    (mk_datetime 2026 1 2 3 4 5 0).

(** A backup [a.mmap.bak] that holds a preview beside the document, and the
    file [a.mmap] it was made from, which holds the document only. *)
Definition fs_backup : filesystem :=
  {[ u "a.mmap.bak" := Zip [(Document_xml, u "<Map/>");
                            (u "Preview.png", [137; 80; 78; 71]%N)];
     u "a.mmap" := Zip [(Document_xml, u "<Map/>")] ]}.

(** The dictionary [original_files] of [_update_existing]. *)
Definition read_all (zf : list (str * bytes)) (names : list str)
    (acc : result (list (str * bytes))) : result (list (str * bytes)) :=
  foldl (fun acc name =>
           d ← acc; data ← zf_read zf name; Ok (dict_set name data d))
        acc names.

(** The map of the round trip test, with a due date, a note, an icon and
    two links. *)
Definition leaf (name : string) (tk : option Task) : Topic :=
  mk_Topic [] (u name) [] tk [] [] None None ∅.

Definition example_map : Topic :=
  mk_Topic (u "R0") (u "Test Roundtrip")
    [ mk_Topic [] (u "Task Item")
        [leaf "Nested" None]
        (Some (mk_Task 50 HIGH (Some (mk_datetime 2024 2 29 23 59 58 250000))
                       None))
        [mk_IconMarker (u "urn:mindjet:Flag") []]
        [mk_Hyperlink (u "https://a.example/") (u "A");
         mk_Hyperlink (u "https://b.example/") []]
        (Some (mk_Note (u "remember") []))
        None
        {[ u "Dirty" := u "0" ]};
      leaf "Plain Item" None ]
    None [] [] None None ∅.

Definition topic_odd_task : Topic :=
  leaf "T"
    (Some (mk_Task (-5) NONE (Some (mk_datetime 2024 1 5 10 30 0 500000)) None)).

Definition topic_with_bag : Topic :=
  mk_Topic (u "A1") (u "T") [] None [] [] None (Some (u "<SubTopicShape/>"))
           {[ u "Dirty" := u "0" ]}.


(** Outlines of the examples. *)
Definition nl : str := [10%N].

Definition outline_early_items : str :=
  u "# R" ++ nl ++ u "- a" ++ nl ++ u "  - [ ] b" ++ nl ++ u "## B" ++ nl
    ++ u "- c".

Definition outline_without_early_items : str :=
  u "# R" ++ nl ++ u "## B" ++ nl ++ u "- c".

(** [- [ ] x (11...1%)] with 4301 digits. *)
Definition outline_long_percentage : str :=
  u "# R" ++ nl ++ u "## B" ++ nl ++ u "- [ ] x (" ++ replicate 4301 49%N
    ++ u "%)".

(** [a (50%) ⏫ 🔼] after a checked box. *)
Definition item_two_priorities : str :=
  u "a (50%) " ++ [glyph_high; 32%N; glyph_medium].

(** The map that [from_markdown] returns when it creates no topic and finds
    no text for the root. *)
Definition empty_outline : heap * MindMapRef :=
  ([Topic_default], mk_MindMapRef 0%nat [] None None [] [] NS).

(** A document with a second-level heading and an item but no top-level
    heading, and one whose frontmatter is not closed. *)
Definition outline_without_h1 : str := u "## B" ++ nl ++ u "- c".

Definition outline_unclosed_frontmatter : str :=
  u "---" ++ nl ++ u "title: x" ++ nl ++ u "# R" ++ nl ++ u "## B" ++ nl
    ++ u "- c".

(** The example of the tests: root [0] with children [1] and [3], and [2]
    the child of [1]. *)
Definition topic_named (name : string) (cs : list ref) (par : option ref)
  : TopicObj :=
  mk_TopicObj [] (u name) cs par None [] [] None None ∅.

Definition heap_RABC : heap :=
  [ topic_named "Root" [1; 3] None;
    topic_named "A" [2] (Some 0);
    topic_named "C" [] (Some 1);
    topic_named "B" [] (Some 0) ].

(** The parent links of the example after [A] is moved below [C]. *)
Definition heap_cycle : heap :=
  [ topic_named "Root" [3] None;
    topic_named "A" [2] (Some 2);
    topic_named "C" [1] (Some 1);
    topic_named "B" [] (Some 0) ].

(** The element written for the example map, and environments whose parser
    knows, beside the document of [example_Env], one document for the text
    that the serializer returns. *)
Definition example_map_elem : Element :=
  match _build_topic_elem example_Env example_map 0 with
  | Ok (e, _) => e
  | Raise _ => elem "Topic" ∅ []
  end.

Definition Env_reading (doc : Element) : Env :=
  mk_Env
    (fun b => if decide (b = u "<Map>...</Map>") then Ok doc
              else fromstring example_Env b)
    (tostring_unicode example_Env)
    (tostring_document example_Env)
    (uuid4 example_Env)
    (with_suffix example_Env)
    (now example_Env).

Definition updated_Env : Env :=
  Env_reading (example_document [example_map_elem]).

(** A topic element whose second subtopic has a task with an infinite
    percentage. *)
Definition elem_inf_task : Element :=
  elem "Topic" {[ u "OId" := u "A1" ]}
    [elem "SubTopics" ∅
       [elem "Topic" ∅ [];
        elem "Topic" ∅ [elem "Task" {[ u "TaskPercentage" := u "-Infinity" ]} []]]].

(** * Properties *)

(** ** Python built-ins *)

Section builtins.
Implicit Types (s : str) (c : N) (n : N).

Lemma digits_value_snoc s c :
  digits_value (s ++ [c]) = (10 * digits_value s + (Z.of_N c - 48))%Z.
Proof. unfold digits_value. by rewrite fold_left_app. Qed.

Lemma is_ascii_digit_spec c :
  is_ascii_digit c = true <-> (48 <= c <= 57)%N.
Proof. unfold is_ascii_digit. rewrite andb_true_iff, !N.leb_le. tauto. Qed.

Lemma dec_digits_spec fuel n :
  (n < 10 ^ N.of_nat fuel)%N -> (0 < fuel)%nat ->
  digits_value (dec_digits fuel n) = Z.of_N n /\
  forallb is_ascii_digit (dec_digits fuel n) = true /\
  (0 < length (dec_digits fuel n) <= fuel)%nat.
Proof.
  revert n. induction fuel as [|fuel IH]; intros n Hn Hf; [lia|].
  simpl. destruct (N.ltb_spec n 10) as [Hlt|Hge].
  - simpl. split_and!; [unfold digits_value; simpl; lia | | lia | lia].
    rewrite andb_true_r. apply is_ascii_digit_spec. lia.
  - assert (0 < fuel)%nat as Hf'.
    { destruct fuel; [|lia]. simpl in Hn. lia. }
    destruct (IH (n / 10)%N) as (Hv & Hd & Hl); [|done|].
    { apply N.Div0.div_lt_upper_bound.
      replace (N.of_nat (S fuel)) with (N.succ (N.of_nat fuel)) in Hn by lia.
      rewrite N.pow_succ_r' in Hn. lia. }
    rewrite digits_value_snoc, forallb_app, length_app, Hv, Hd. simpl.
    pose proof (N.mod_lt n 10 ltac:(lia)).
    split_and!. all: try lia.
    + pose proof (N.div_mod n 10 ltac:(lia)) as Hdm. clear -Hdm H.
      generalize dependent (n / 10)%N. generalize dependent (n mod 10)%N. intros. lia.
    + rewrite andb_true_r. apply is_ascii_digit_spec. clear -H.
      generalize dependent (n mod 10)%N. intros; lia.
Qed.

Lemma str_of_N_fuel n : (n < 10 ^ N.of_nat (S (N.to_nat (N.log2 n))))%N.
Proof.
  destruct (N.eq_dec n 0%N) as [->|Hn]; [simpl; lia|].
  pose proof (N.log2_spec n ltac:(lia)) as [_ Hlt].
  eapply N.lt_le_trans; [exact Hlt|].
  replace (N.of_nat (S (N.to_nat (N.log2 n)))) with (N.succ (N.log2 n)) by lia.
  apply N.pow_le_mono_l. lia.
Qed.

Lemma str_of_N_spec n :
  digits_value (str_of_N n) = Z.of_N n /\
  forallb is_ascii_digit (str_of_N n) = true /\
  (0 < length (str_of_N n) <= S (N.to_nat (N.log2 n)))%nat.
Proof.
  destruct (dec_digits_spec _ n (str_of_N_fuel n) ltac:(lia)) as (? & ? & ?).
  unfold str_of_N. split_and!; [done | done | lia | lia].
Qed.

Lemma map_to_ascii_digits s :
  forallb is_ascii_digit s = true -> map to_ascii_char s = s.
Proof.
  induction s as [|c s IH]; simpl; [done|].
  rewrite andb_true_iff, is_ascii_digit_spec. intros [Hc Hs].
  rewrite IH by done. unfold to_ascii_char.
  destruct (N.ltb_spec c 128); [done | lia].
Qed.

Lemma map_lower_ascii_digits s :
  forallb is_ascii_digit s = true -> map lower_ascii s = s.
Proof.
  induction s as [|c s IH]; simpl; [done|].
  rewrite andb_true_iff, is_ascii_digit_spec. intros [Hc Hs].
  rewrite IH by done. unfold lower_ascii.
  destruct (N.leb_spec 65 c); [lia | done].
Qed.

Lemma dropwhile_id (f : N -> bool) s :
  match s with [] => True | c :: _ => f c = false end -> dropwhile f s = s.
Proof. destruct s as [|c s]; simpl; [done|]. by intros ->. Qed.

Lemma strip_with_id (f : N -> bool) s :
  Forall (fun c => f c = false) s -> strip_with f s = s.
Proof.
  intros H. unfold strip_with, lstrip_with, rstrip_with.
  rewrite (dropwhile_id f s) by (destruct H; done).
  rewrite dropwhile_id, rev_involutive; [done|].
  apply Forall_rev in H. by destruct H.
Qed.

Lemma digit_not_Py_ISSPACE s :
  forallb is_ascii_digit s = true -> Forall (fun c => Py_ISSPACE c = false) s.
Proof.
  rewrite forallb_forall, Forall_forall. intros H c Hc.
  apply list_elem_of_In, H, is_ascii_digit_spec in Hc. unfold Py_ISSPACE.
  destruct (N.leb_spec 9 c), (N.leb_spec c 13), (N.eqb_spec c 32);
    simpl; try done; lia.
Qed.

Lemma strip_underscores_digits prev s :
  forallb is_ascii_digit s = true -> (s = [] -> prev <> 95%N) ->
  strip_underscores prev s = Some s.
Proof.
  revert prev. induction s as [|c s IH]; simpl; intros prev Hs Hp.
  - destruct (N.eqb_spec prev 95); [by destruct Hp | done].
  - apply andb_true_iff in Hs as [Hc Hs]. rewrite Hc. simpl.
    rewrite andb_false_r.
    pose proof (proj1 (is_ascii_digit_spec c) Hc).
    destruct (N.eqb_spec c 95); [lia|].
    rewrite IH; [done | done | done].
Qed.

Lemma takewhile_all (f : N -> bool) s :
  forallb f s = true -> takewhile f s = s /\ dropwhile f s = [].
Proof.
  induction s as [|c s IH]; simpl; [done|].
  intros [-> Hs]%andb_true_iff. destruct (IH Hs) as [-> ->]. done.
Qed.

Lemma round_half_even_1 (z : Z) : round_half_even z 1 = z.
Proof.
  unfold round_half_even. rewrite Z.div_1_r, Z.mod_1_r. reflexivity.
Qed.

(** A positive integer below [2^53] is a binary64: converting it to
    [float] and back to [int] gives it back. *)
Lemma binary64_exact (p : Z) :
  (0 < p < 2 ^ 53)%Z ->
  int_of_float (binary64_of_ratio false (p * 10 ^ 0) 1) = Ok p.
Proof.
  intros Hp. unfold binary64_of_ratio.
  replace (p * 10 ^ 0)%Z with p by (simpl; lia).
  change (Z.log2 1) with 0%Z. rewrite Z.sub_0_r.
  pose proof (Z.log2_nonneg p) as He0.
  pose proof (Z.log2_spec p ltac:(lia)) as [Hlo Hhi].
  assert (Z.log2 p < 53)%Z as He53 by (apply Z.log2_lt_pow2; lia).
  rewrite (proj2 (Z.leb_le 0 (Z.log2 p))) by lia.
  rewrite (proj2 (Z.leb_le (1 * 2 ^ Z.log2 p) p)) by lia.
  rewrite Z.max_l by lia.
  destruct (Z.leb_spec 0 (Z.log2 p - 52)) as [Hs|Hs].
  - assert (Z.log2 p = 52)%Z as He by lia. rewrite He. simpl (52 - 52)%Z.
    change (1 * 2 ^ 0)%Z with 1%Z. rewrite round_half_even_1, He.
    simpl. f_equal. lia.
  - rewrite round_half_even_1.
    replace (- (Z.log2 p - 52))%Z with (52 - Z.log2 p)%Z by lia.
    rewrite Z.log2_mul_pow2 by lia.
    rewrite (proj2 (Z.leb_gt _ _)) by lia.
    simpl. rewrite (proj2 (Z.leb_gt 0 (Z.log2 p - 52))) by lia.
    replace (- (Z.log2 p - 52))%Z with (52 - Z.log2 p)%Z by lia.
    f_equal. apply Z.div_mul.
    apply Z.pow_nonzero; lia.
Qed.

Lemma digits_head_not_sign s :
  forallb is_ascii_digit s = true -> split_sign s = (false, s).
Proof.
  destruct s as [|c s]; simpl; [done|].
  intros [Hc%is_ascii_digit_spec _]%andb_true_iff.
  destruct c as [|c]; [lia|].
  do 7 (destruct c as [c|c|]; try lia; try done).
Qed.

Lemma parse_float_body_digits s :
  forallb is_ascii_digit s = true -> s <> [] ->
  parse_float_body false s =
    Some (float_of_decimal false (digits_value s) 0).
Proof.
  intros Hs Hne. unfold parse_float_body.
  rewrite (map_lower_ascii_digits s Hs).
  destruct s as [|c s]; [done|].
  pose proof Hs as [Hc%is_ascii_digit_spec _]%andb_true_iff.
  rewrite !decide_False by (intros [= -> _]; lia).
  destruct (takewhile_all is_ascii_digit (c :: s) Hs) as [-> ->].
  rewrite app_nil_r. simpl. reflexivity.
Qed.

(** [int(float(str(p)))] is [p] for an integer [0 < p < 2^53]: the
    percentage attribute that the writer emits is read back exactly. *)
Lemma percentage_roundtrip (p : Z) :
  (0 < p < 2 ^ 53)%Z ->
  exists s, str_of_int p = Ok s /\ s <> [] /\
            float_of_str s ≫= int_of_float = Ok p.
Proof.
  intros Hp. unfold str_of_int.
  destruct (str_of_N_spec (Z.abs_N p)) as (Hv & Hd & Hl).
  assert (N.log2 (Z.abs_N p) < 53)%N as Hlog.
  { apply N.log2_lt_pow2; [lia|].
    change (2 ^ 53)%N with (Z.to_N (2 ^ 53)). lia. }
  rewrite (proj2 (Nat.ltb_ge _ _)) by (unfold int_max_str_digits; lia).
  rewrite (proj2 (Z.ltb_ge p 0)) by lia.
  set (s := str_of_N (Z.abs_N p)) in *.
  exists s. split; [done|]. split; [by destruct s; [simpl in Hl; lia|]|].
  unfold float_of_str.
  rewrite (map_to_ascii_digits s Hd).
  rewrite (strip_with_id _ s (digit_not_Py_ISSPACE s Hd)).
  rewrite (strip_underscores_digits 0 s Hd) by done.
  rewrite (digits_head_not_sign s Hd).
  rewrite parse_float_body_digits; [|done|by destruct s; [simpl in Hl; lia|]].
  simpl. rewrite Hv. replace (Z.of_N (Z.abs_N p)) with p by lia.
  unfold float_of_decimal. rewrite (proj2 (Z.eqb_neq p 0)) by lia.
  simpl (0 <=? 0)%Z. cbv iota. apply binary64_exact, Hp.
Qed.

(** *** Dates *)

Lemma any_digit_ascii (d : Z) :
  (0 <= d <= 9)%Z -> any_digit (48 + Z.to_N d) = Some d.
Proof.
  intros Hd. unfold any_digit, decimal_value, decimal_zeros.
  cbn [List.find].
  assert ((48 <=? 48 + Z.to_N d)%N && (48 + Z.to_N d <? 48 + 10)%N = true)
    as ->.
  { apply andb_true_iff. rewrite N.leb_le, N.ltb_lt. lia. }
  simpl. f_equal. lia.
Qed.

Lemma digit_in_ascii lo hi (d : Z) :
  (0 <= d <= 9)%Z ->
  digit_in lo hi (48 + Z.to_N d) =
    if ((Z.of_N lo <=? d) && (d <=? Z.of_N hi))%Z then Some d else None.
Proof.
  intros Hd. unfold digit_in.
  destruct (Z.leb_spec (Z.of_N lo) d), (Z.leb_spec d (Z.of_N hi)); simpl.
  - rewrite (proj2 (N.leb_le _ _)), (proj2 (N.leb_le _ _)) by lia.
    simpl. f_equal. lia.
  - rewrite (proj2 (N.leb_le (48 + lo) _)) by lia.
    rewrite (proj2 (N.leb_gt _ _)) by lia. done.
  - rewrite (proj2 (N.leb_gt _ _)) by lia. done.
  - rewrite (proj2 (N.leb_gt _ _)) by lia. done.
Qed.

Lemma pad2_digits (v : Z) :
  (0 <= v <= 99)%Z ->
  exists a b, (0 <= a <= 9 /\ 0 <= b <= 9 /\ v = 10 * a + b)%Z /\
              pad2 v = [48 + Z.to_N a; 48 + Z.to_N b]%N.
Proof.
  intros Hv. exists (v / 10)%Z, (v mod 10)%Z. split; [|done].
  pose proof (Z.div_mod v 10 ltac:(lia)).
  pose proof (Z.mod_pos_bound v 10 ltac:(lia)).
  assert (0 <= v / 10 <= 9)%Z; [|lia].
  split; [apply Z.div_pos; lia|].
  apply Z.lt_succ_r, Z.div_lt_upper_bound; lia.
Qed.

(** The first way to match the two digits of a field of [strftime] is the
    value of the field. *)
Lemma directive_matches_pad2 (d : directive) (v : Z) (r : str) :
  match d with
  | dm => (1 <= v <= 12)%Z
  | dd => (1 <= v <= 31)%Z
  | dH => (0 <= v <= 23)%Z
  | dM | dS => (0 <= v <= 59)%Z
  | _ => False
  end ->
  exists tl, directive_matches d (pad2 v ++ r) = (v, r) :: tl.
Proof.
  intros Hv.
  destruct (pad2_digits v) as (a & b & (Ha & Hb & ->) & ->);
    [destruct d; lia|].
  assert (a = 0 \/ a = 1 \/ a = 2 \/ a = 3 \/ a = 4 \/ a = 5 \/ 6 <= a)%Z
    as Hcase by lia.
  destruct d; try done; cbn [directive_matches app two one];
    rewrite ?any_digit_ascii, ?digit_in_ascii by lia;
    destruct Hcase as [->|[->|[->|[->|[->|[->|?]]]]]]; try lia;
    cbn [Z.of_N Z.leb Z.compare Pos.compare Pos.compare_cont andb];
    repeat match goal with
           | |- context [(?x <=? ?y)%Z] =>
               first [ rewrite (proj2 (Z.leb_le x y)) by lia
                     | rewrite (proj2 (Z.leb_gt x y)) by lia ]
           end;
    cbn [andb app]; eauto.
Qed.

Lemma year_digits (y : Z) :
  (1000 <= y <= 9999)%Z ->
  exists a b g e : Z,
    (0 <= a <= 9 /\ 0 <= b <= 9 /\ 0 <= g <= 9 /\ 0 <= e <= 9 /\
     y = 1000 * a + 100 * b + 10 * g + e)%Z /\
    str_of_N (Z.to_N y) =
      [48 + Z.to_N a; 48 + Z.to_N b; 48 + Z.to_N g; 48 + Z.to_N e]%N.
Proof.
  intros Hy.
  exists (y / 1000)%Z, (y / 100 mod 10)%Z, (y / 10 mod 10)%Z, (y mod 10)%Z.
  split; [Z.div_mod_to_equations; lia|].
  unfold str_of_N.
  assert (9 <= N.log2 (Z.to_N y))%N as Hlog.
  { change 9%N with (N.log2 1000). apply N.log2_le_mono. lia. }
  destruct (N.to_nat (N.log2 (Z.to_N y))) as [|[|[|f]]] eqn:Hf; try lia.
  cbn [dec_digits].
  assert (Z.to_N y / 10 = Z.to_N (y / 10))%N as E1.
  { rewrite Z2N.inj_div by lia. done. }
  assert (Z.to_N (y / 10) / 10 = Z.to_N (y / 100))%N as E2.
  { replace (y / 100)%Z with (y / 10 / 10)%Z by (rewrite Z.div_div by lia; reflexivity).
    rewrite (Z2N.inj_div (y / 10) 10) by (try apply Z.div_pos; lia). done. }
  assert (Z.to_N (y / 100) / 10 = Z.to_N (y / 1000))%N as E3.
  { replace (y / 1000)%Z with (y / 100 / 10)%Z by (rewrite Z.div_div by lia; reflexivity).
    rewrite (Z2N.inj_div (y / 100) 10) by (try apply Z.div_pos; lia). done. }
  assert (Z.to_N y mod 10 = Z.to_N (y mod 10))%N as M1.
  { rewrite Z2N.inj_mod by lia. done. }
  assert (Z.to_N (y / 10) mod 10 = Z.to_N (y / 10 mod 10))%N as M2.
  { rewrite Z2N.inj_mod by (try apply Z.div_pos; lia). done. }
  assert (Z.to_N (y / 100) mod 10 = Z.to_N (y / 100 mod 10))%N as M3.
  { rewrite Z2N.inj_mod by (try apply Z.div_pos; lia). done. }
  rewrite E1, E2, E3, M1, M2, M3.
  rewrite (proj2 (N.ltb_ge (Z.to_N y) 10)) by lia.
  rewrite (proj2 (N.ltb_ge (Z.to_N (y / 10)) 10))
    by (zify; Z.div_mod_to_equations; lia).
  rewrite (proj2 (N.ltb_ge (Z.to_N (y / 100)) 10))
    by (zify; Z.div_mod_to_equations; lia).
  rewrite (proj2 (N.ltb_lt (Z.to_N (y / 1000)) 10))
    by (zify; Z.div_mod_to_equations; lia).
  reflexivity.
Qed.

Lemma directive_matches_year (y : Z) (r : str) :
  (1000 <= y <= 9999)%Z ->
  directive_matches dY (str_of_N (Z.to_N y) ++ r) = [(y, r)].
Proof.
  intros Hy.
  destruct (year_digits y Hy) as (a & b & g & e & (? & ? & ? & ? & ->) & ->).
  cbn [directive_matches app]. rewrite !any_digit_ascii by lia. done.
Qed.

Lemma directive_matches_lit (c : N) (r : str) :
  directive_matches (dlit c) (c :: r) = [(0%Z, r)].
Proof. simpl. by rewrite N.eqb_refl. Qed.

Lemma format_matches_head d fmt s (t : datetime) v r tl x :
  directive_matches d s = (v, r) :: tl ->
  head (format_matches fmt r (set_field d v t)) = Some x ->
  head (format_matches (d :: fmt) s t) = Some x.
Proof.
  intros Hd Hx. cbn [format_matches]. rewrite Hd. cbn [flat_map].
  destruct (format_matches fmt r (set_field d v t)); [done|]. exact Hx.
Qed.

Lemma strptime_head s fmt (t : datetime) :
  head (format_matches fmt s (mk_datetime 1900 1 1 0 0 0 0)) = Some (t, []) ->
  valid_datetime t = true ->
  strptime s fmt = Ok t.
Proof.
  unfold strptime. intros Hh Hv.
  destruct (format_matches _ _ _) as [|[t' r'] l]; [done|].
  injection Hh as -> ->. by rewrite Hv.
Qed.

Lemma valid_datetime_fields (t : datetime) :
  valid_datetime t = true ->
  (1 <= year t <= 9999 /\ 1 <= month t <= 12 /\ 1 <= day t <= 31 /\
   0 <= hour t <= 23 /\ 0 <= minute t <= 59 /\ 0 <= second t <= 59)%Z /\
  valid_datetime (trunc_us t) = true.
Proof.
  intros H. unfold valid_datetime in H.
  repeat (apply andb_true_iff in H as [H ?]).
  split.
  - assert (days_in_month (year t) (month t) <= 31)%Z
      by (unfold days_in_month; repeat case_match; lia).
    rewrite !Z.leb_le in *. lia.
  - unfold valid_datetime, trunc_us. cbn [year month day hour minute second
      microsecond].
    repeat (apply andb_true_intro; split); try assumption; reflexivity.
Qed.

(** A date that the writer formats is parsed back, to the second. *)
Lemma strptime_strftime_iso_datetime (t : datetime) :
  valid_datetime t = true -> (1000 <= year t)%Z ->
  strptime (strftime t fmt_iso_datetime) fmt_iso_datetime = Ok (trunc_us t).
Proof.
  intros Hv Hy. destruct (valid_datetime_fields t Hv) as [Hf Hv'].
  apply strptime_head; [|exact Hv'].
  unfold strftime, fmt_iso_datetime. cbn [flat_map strftime_directive].
  rewrite app_nil_r.
  eapply format_matches_head; [apply directive_matches_year; lia|].
  cbn [app]. eapply format_matches_head; [apply directive_matches_lit|].
  destruct (directive_matches_pad2 dm (month t)
    (45%N :: pad2 (day t) ++ 84%N :: pad2 (hour t) ++ 58%N ::
       pad2 (minute t) ++ 58%N :: pad2 (second t))) as [? Hm]; [simpl; lia|].
  eapply format_matches_head; [exact Hm|]. cbn [app].
  eapply format_matches_head; [apply directive_matches_lit|].
  destruct (directive_matches_pad2 dd (day t)
    (84%N :: pad2 (hour t) ++ 58%N ::
       pad2 (minute t) ++ 58%N :: pad2 (second t))) as [? Hd]; [simpl; lia|].
  eapply format_matches_head; [exact Hd|].
  eapply format_matches_head; [apply directive_matches_lit|].
  destruct (directive_matches_pad2 dH (hour t)
    (58%N :: pad2 (minute t) ++ 58%N :: pad2 (second t))) as [? HH];
    [simpl; lia|].
  eapply format_matches_head; [exact HH|].
  eapply format_matches_head; [apply directive_matches_lit|].
  destruct (directive_matches_pad2 dM (minute t)
    (58%N :: pad2 (second t))) as [? HM]; [simpl; lia|].
  eapply format_matches_head; [exact HM|].
  eapply format_matches_head; [apply directive_matches_lit|].
  destruct (directive_matches_pad2 dS (second t) []) as [? HS]; [simpl; lia|].
  eapply format_matches_head; [exact HS|].
  reflexivity.
Qed.

End builtins.

(** ** The tree model *)

Section tree_model.
Implicit Types (h : heap) (x p y : ref) (o : TopicObj).

Lemma payload_set_children cs o : payload (set_children cs o) = payload o.
Proof. reflexivity. Qed.

Lemma payload_set_parent q o : payload (set_parent q o) = payload o.
Proof. reflexivity. Qed.

Lemma remove_unfold h x o p :
  h !! x = Some o -> o_parent o = Some p ->
  remove x h =
    alter (set_parent None) x
      (alter (fun po =>
                set_children
                  (List.filter (fun c => negb (Nat.eqb c x)) (o_children po))
                  po) p h).
Proof. intros Hx Hp. unfold remove. rewrite Hx, Hp. reflexivity. Qed.

Lemma remove_parentless h x o :
  h !! x = Some o -> o_parent o = None -> remove x h = h.
Proof. intros Hx Hp. unfold remove. rewrite Hx, Hp. reflexivity. Qed.

Lemma remove_length h x : length (remove x h) = length h.
Proof.
  unfold remove. destruct (h !! x) as [o|]; [|done].
  destruct (o_parent o); [|done]. by rewrite !length_alter.
Qed.

(** Objects other than [x] and its parent are not touched by [remove]. *)
Lemma remove_lookup_other h x o p y :
  h !! x = Some o -> o_parent o = Some p -> y <> x -> y <> p ->
  remove x h !! y = h !! y.
Proof.
  intros Hx Hp Hyx Hyp. rewrite (remove_unfold h x o p Hx Hp).
  rewrite list_lookup_alter_ne by congruence.
  rewrite list_lookup_alter_ne by congruence. reflexivity.
Qed.

(** [remove] changes no parent link but that of [x]. *)
Lemma remove_parent_other h x y o :
  y <> x -> h !! y = Some o ->
  exists o', remove x h !! y = Some o' /\ o_parent o' = o_parent o.
Proof.
  intros Hyx Hy. unfold remove.
  destruct (h !! x) as [ox|] eqn:Hx; [|eauto].
  destruct (o_parent ox) as [p|] eqn:Hp; [|eauto].
  rewrite list_lookup_alter_ne by congruence.
  destruct (decide (p = y)) as [->|Hne].
  - rewrite list_lookup_alter_eq, Hy. simpl. eauto.
  - rewrite list_lookup_alter_ne by congruence. eauto.
Qed.


Lemma remove_lookup_self h x o p :
  h !! x = Some o -> o_parent o = Some p ->
  exists o', remove x h !! x = Some o' /\ o_parent o' = None /\
    payload o' = payload o /\ (p <> x -> o_children o' = o_children o).
Proof.
  intros Hx Hp. rewrite (remove_unfold h x o p Hx Hp).
  rewrite list_lookup_alter_eq.
  destruct (decide (p = x)) as [->|Hne].
  - rewrite list_lookup_alter_eq, Hx. simpl. eexists; repeat split; eauto.
    intros []; reflexivity.
  - rewrite list_lookup_alter_ne, Hx by congruence. simpl.
    eexists; repeat split; eauto.
Qed.

Lemma remove_lookup_parent h x o p po :
  h !! x = Some o -> o_parent o = Some p -> h !! p = Some po ->
  exists po', remove x h !! p = Some po' /\
    o_children po' =
      List.filter (fun c => negb (Nat.eqb c x)) (o_children po) /\
    payload po' = payload po /\ (p <> x -> o_parent po' = o_parent po).
Proof.
  intros Hx Hp Hpo. rewrite (remove_unfold h x o p Hx Hp).
  destruct (decide (p = x)) as [->|Hne].
  - rewrite list_lookup_alter_eq, list_lookup_alter_eq, Hpo. simpl.
    eexists; repeat split; eauto. intros []; reflexivity.
  - rewrite list_lookup_alter_ne by congruence.
    rewrite list_lookup_alter_eq, Hpo. simpl. eexists; repeat split; eauto.
Qed.

(** C10. [remove] on a topic [x] whose parent is [p]: the children of [p]
    become the former sequence with every occurrence of the object [x]
    deleted and the other siblings in their former order; no other field of
    [p] changes; the parent link of [x] becomes absent and no other field of
    [x] changes; every other object (the other siblings, the subtree of [x])
    is left as it was, and no object is created or destroyed. *)
Theorem remove_frame h x o p po :
  h !! x = Some o -> o_parent o = Some p -> h !! p = Some po ->
  (exists po', remove x h !! p = Some po' /\
     o_children po' =
       List.filter (fun c => negb (Nat.eqb c x)) (o_children po) /\
     (x ∉ o_children po') /\
     sublist (o_children po') (o_children po) /\
     (forall c, c <> x -> c ∈ o_children po -> c ∈ o_children po') /\
     payload po' = payload po /\
     (p <> x -> o_parent po' = o_parent po)) /\
  (exists o', remove x h !! x = Some o' /\
     o_parent o' = None /\
     payload o' = payload o /\
     (p <> x -> o_children o' = o_children o)) /\
  (forall y, y <> x -> y <> p -> remove x h !! y = h !! y) /\
  length (remove x h) = length h.
Proof.
  intros Hx Hp Hpo. split_and!.
  - destruct (remove_lookup_parent h x o p po Hx Hp Hpo)
      as (po' & Hl & Hc & Hpay & Hpar).
    exists po'. rewrite Hc. split_and!; auto.
    + rewrite list_elem_of_In, filter_In. intros [_ Hf].
      rewrite Nat.eqb_refl in Hf. discriminate.
    + clear. induction (o_children po) as [|c cs IH]; simpl.
      * constructor.
      * destruct (negb (c =? x)); by constructor.
    + intros c Hc' Hin. rewrite list_elem_of_In, filter_In.
      split; [by apply list_elem_of_In|].
      apply negb_true_iff, Nat.eqb_neq, Hc'.
  - apply (remove_lookup_self h x o p Hx Hp).
  - intros y Hyx Hyp. apply (remove_lookup_other h x o p y Hx Hp Hyx Hyp).
  - apply remove_length.
Qed.

Lemma remove_frame_witness :
  exists po', remove 1 heap_RABC !! 0 = Some po' /\ o_children po' = [3].
Proof.
  destruct (remove_frame heap_RABC 1 (topic_named "A" [2] (Some 0)) 0
              (topic_named "Root" [1; 3] None) eq_refl eq_refl eq_refl)
    as [(po' & Hl & Hc & _) _].
  exists po'. split; [exact Hl | exact Hc].
Defined.

(** Every step of [move_to] keeps the parent link of the objects other than
    the moved one. *)
Lemma move_to_parent_other h x np y o :
  y <> x -> h !! y = Some o ->
  exists h', move_to x np h = Ok h' /\
    exists o', h' !! y = Some o' /\ o_parent o' = o_parent o.
Proof.
  intros Hyx Hy. unfold move_to. eexists; split; [reflexivity|].
  destruct (remove_parent_other h x y o Hyx Hy) as (o1 & Hl1 & Hp1).
  assert (alter (set_parent (Some np)) x (remove x h) !! y = Some o1) as Hl2.
  { rewrite list_lookup_alter_ne by congruence. exact Hl1. }
  destruct (decide (np = y)) as [->|Hne].
  - rewrite list_lookup_alter_eq, Hl2. simpl. eauto.
  - rewrite list_lookup_alter_ne by congruence. eauto.
Qed.

Lemma parent_chain_move_to h x np h' :
  move_to x np h = Ok h' ->
  forall n d, parent_chain h n d x -> exists m, parent_chain h' m d x.
Proof.
  intros Hmv n d Hch. induction Hch as [y|n d o p y Hd Hp Hch IH].
  - exists 0. constructor.
  - destruct (decide (d = y)) as [->|Hne].
    + exists 0. constructor.
    + destruct IH as [m IH]; [exact Hmv|].
      destruct (move_to_parent_other h y np d o Hne Hd)
        as (h'' & Hmv' & o' & Hl & Hpar).
      rewrite Hmv in Hmv'. injection Hmv' as <-.
      exists (S m). econstructor; [exact Hl | by rewrite Hpar | exact IH].
Qed.

Lemma move_to_lookup_self h x np o :
  h !! x = Some o ->
  exists o', (alter (fun o => set_children (o_children o ++ [x]) o) np
               (alter (set_parent (Some np)) x (remove x h))) !! x = Some o'
             /\ o_parent o' = Some np.
Proof.
  intros Hx.
  assert (exists o1, remove x h !! x = Some o1) as [o1 H1].
  { apply lookup_lt_is_Some. rewrite remove_length.
    apply lookup_lt_is_Some. eauto. }
  destruct (decide (np = x)) as [->|Hne].
  - rewrite list_lookup_alter_eq, list_lookup_alter_eq, H1. simpl. eauto.
  - rewrite list_lookup_alter_ne by congruence.
    rewrite list_lookup_alter_eq, H1. simpl. eauto.
Qed.

Lemma lookup_alter_dec (f : TopicObj -> TopicObj) h (i j : nat) :
  alter f i h !! j = if decide (i = j) then f <$> h !! j else h !! j.
Proof.
  destruct (decide (i = j)) as [->|Hne].
  - apply list_lookup_alter_eq.
  - by apply list_lookup_alter_ne.
Qed.

(** Every object of the heap after [move_to]: the fields other than the two
    tree links are kept; the parent link changes for [x] only; the children
    lose [x] in the former parent of [x] and gain [x], at the end, in
    [new_parent]. *)
Lemma move_to_lookup h x np o y oy :
  h !! x = Some o -> h !! y = Some oy ->
  exists oy',
    (alter (fun o => set_children (o_children o ++ [x]) o) np
       (alter (set_parent (Some np)) x (remove x h))) !! y = Some oy' /\
    payload oy' = payload oy /\
    o_parent oy' = (if decide (y = x) then Some np else o_parent oy) /\
    o_children oy' =
      (if decide (o_parent o = Some y)
       then List.filter (fun c => negb (Nat.eqb c x)) (o_children oy)
       else o_children oy)
      ++ (if decide (y = np) then [x] else []).
Proof.
  intros Hx Hy. unfold remove. rewrite Hx.
  destruct (o_parent o) as [p|] eqn:Hp.
  - rewrite !lookup_alter_dec, Hy.
    destruct (decide (np = y)) as [->|?], (decide (x = y)) as [->|?],
      (decide (p = y)) as [->|?]; cbn [fmap option_fmap option_map];
      (eexists; split; [reflexivity|]);
      destruct oy; cbn;
      repeat (case_decide; simplify_eq; try done);
      rewrite ?app_nil_r; done.
  - rewrite !lookup_alter_dec, Hy.
    destruct (decide (np = y)) as [->|?], (decide (x = y)) as [->|?];
      cbn [fmap option_fmap option_map];
      (eexists; split; [reflexivity|]);
      destruct oy; cbn;
      repeat (case_decide; simplify_eq; try done);
      rewrite ?app_nil_r; done.
Qed.

(** C4, as the code has it.  [move_to] has no guard and never fails.  It
    detaches [x] from its former parent, sets its parent link to
    [new_parent] and appends it as the last child of [new_parent]: every
    object keeps its fields other than the two tree links; the parent link
    changes for [x] only, and becomes [new_parent]; the children of the
    former parent of [x] are its children without [x], the children of
    [new_parent] are its children (without [x] when it is the former parent)
    followed by [x], and the children of every other object are unchanged;
    no object is added.  When [new_parent] is [x] or one of its descendants
    the parent links then form a cycle through [x]. *)
Theorem move_to_never_fails h x np o onp :
  h !! x = Some o -> h !! np = Some onp ->
  exists h', move_to x np h = Ok h' /\
    (exists o', h' !! x = Some o' /\ o_parent o' = Some np) /\
    (exists onp', h' !! np = Some onp' /\ last (o_children onp') = Some x) /\
    (descendant_or_self h x np -> on_parent_cycle h' x) /\
    length h' = length h /\
    (forall y oy, h !! y = Some oy ->
       exists oy', h' !! y = Some oy' /\
         payload oy' = payload oy /\
         o_parent oy' = (if decide (y = x) then Some np else o_parent oy) /\
         o_children oy' =
           (if decide (o_parent o = Some y)
            then List.filter (fun c => negb (Nat.eqb c x)) (o_children oy)
            else o_children oy)
           ++ (if decide (y = np) then [x] else [])).
Proof.
  intros Hx Hnp. eexists. split; [reflexivity|]. split_and!.
  - apply (move_to_lookup_self h x np o Hx).
  - assert (exists o2, alter (set_parent (Some np)) x (remove x h) !! np
                       = Some o2) as [o2 H2].
    { apply lookup_lt_is_Some. rewrite length_alter, remove_length.
      apply lookup_lt_is_Some. eauto. }
    rewrite list_lookup_alter_eq, H2. simpl. eexists; split; [reflexivity|].
    simpl. apply last_snoc.
  - intros [n Hch].
    destruct (parent_chain_move_to h x np _ eq_refl n np Hch) as [m Hm].
    destruct (move_to_lookup_self h x np o Hx) as (o' & Hl & Hp).
    exists m. econstructor; [exact Hl | exact Hp | exact Hm].
  - by rewrite !length_alter, remove_length.
  - intros y oy Hy. exact (move_to_lookup h x np o y oy Hx Hy).
Qed.

Lemma move_to_never_fails_witness :
  exists h', move_to 1 2 heap_RABC = Ok h' /\ on_parent_cycle h' 1 /\
    exists root', h' !! 0 = Some root' /\ o_children root' = [3].
Proof.
  destruct (move_to_never_fails heap_RABC 1 2
              (topic_named "A" [2] (Some 0)) (topic_named "C" [] (Some 1))
              eq_refl eq_refl) as (h' & Hmv & _ & _ & Hcyc & _ & Hall).
  exists h'. split; [exact Hmv|]. split.
  - apply Hcyc.
    exists 1. econstructor; [reflexivity | reflexivity | constructor].
  - destruct (Hall 0 (topic_named "Root" [1; 3] None) eq_refl)
      as (root' & Hl & _ & _ & Hc).
    exists root'. split; [exact Hl | exact Hc].
Defined.

(** C4, as stated, fails on the code: moving [A] under its own child [C]
    raises nothing, and leaves [A] and [C] each the parent of the other,
    detached from the root. *)
Lemma move_to_descendant_no_error :
  descendant_or_self heap_RABC 1 2 /\
  ~ raises (move_to 1 2 heap_RABC) /\
  move_to 1 2 heap_RABC =
    Ok [ topic_named "Root" [3] None;
         topic_named "A" [2] (Some 2);
         topic_named "C" [1] (Some 1);
         topic_named "B" [] (Some 0) ].
Proof.
  split_and!.
  - exists 1. econstructor; [reflexivity | reflexivity | constructor].
  - intros [e He]. discriminate He.
  - reflexivity.
Qed.

End tree_model.

(** ** The markup codec: decoding *)

Section reader.
Implicit Types (E : Env) (elem : Element) (t : Topic).

(** [_parse_topic], one level unfolded. *)
Lemma _parse_topic_unfold E elem :
  _parse_topic E elem =
    task ← parse_task_of elem;
    children ← parse_subtopics E (echildren elem);
    Ok (mk_Topic (get elem "OId") (parse_text elem) children task
          (parse_icons elem) (parse_hyperlinks elem) (parse_note elem)
          (parse_style E elem) (attrib elem)).
Proof. destruct elem. reflexivity. Qed.

Lemma _parse_topic_Ok E elem t :
  _parse_topic E elem = Ok t ->
  exists task children,
    parse_task_of elem = Ok task /\
    parse_subtopics E (echildren elem) = Ok children /\
    t = mk_Topic (get elem "OId") (parse_text elem) children task
          (parse_icons elem) (parse_hyperlinks elem) (parse_note elem)
          (parse_style E elem) (attrib elem).
Proof.
  rewrite _parse_topic_unfold.
  destruct (parse_task_of elem) as [tk|]; [|discriminate]. simpl.
  destruct (parse_subtopics E (echildren elem)) as [cs|]; [|discriminate].
  simpl. intros [= <-]. eauto.
Qed.

(** C3, as the code has it.  The bag of a decoded topic is a copy of the
    whole attribute dictionary of its element, keyed by attribute name: it
    holds the identifier attribute [OId] too whenever the element has one. *)
Theorem parse_topic_raw_attribs E elem t :
  _parse_topic E elem = Ok t ->
  _raw_attribs t = attrib elem /\
  oid t = default [] (attrib elem !! u "OId") /\
  (forall v, attrib elem !! u "OId" = Some v ->
             _raw_attribs t !! u "OId" = Some v).
Proof.
  intros H. apply _parse_topic_Ok in H as (tk & cs & _ & _ & ->). simpl.
  split_and!; [reflexivity | reflexivity | auto].
Qed.

Lemma parse_topic_raw_attribs_witness :
  exists t,
    _parse_topic example_Env
      (elem "Topic" {[ u "OId" := u "A1"; u "Dirty" := u "0" ]} []) = Ok t /\
    _raw_attribs t = {[ u "OId" := u "A1"; u "Dirty" := u "0" ]}.
Proof.
  pose proof (parse_topic_raw_attribs example_Env
                (elem "Topic" {[ u "OId" := u "A1"; u "Dirty" := u "0" ]} [])
                _ eq_refl) as [H _].
  eexists. split; [reflexivity | exact H].
Defined.

(** C3, as stated, fails on the code: the bag of a topic decoded from
    [<Topic OId="A1"/>] holds [OId]. *)
Lemma parse_topic_bag_holds_OId :
  exists t,
    _parse_topic example_Env (elem "Topic" {[ u "OId" := u "A1" ]} []) = Ok t /\
    _raw_attribs t !! u "OId" = Some (u "A1").
Proof. eexists. split; reflexivity. Qed.

(** The percentage of [_parse_task], case by case: no attribute or an empty
    one, and a value that [float] rejects, leave 0; a finite value is
    truncated; a NaN leaves 0; an infinity raises [OverflowError], which
    [except ValueError] does not catch. *)
Lemma _parse_task_percentage elem :
  match get elem "TaskPercentage" with
  | [] => exists tk, _parse_task elem = Ok tk /\ percentage tk = 0%Z
  | pct =>
      match float_of_str pct with
      | Raise _ => exists tk, _parse_task elem = Ok tk /\ percentage tk = 0%Z
      | Ok NaN => exists tk, _parse_task elem = Ok tk /\ percentage tk = 0%Z
      | Ok (Inf _) => _parse_task elem = Raise OverflowError
      | Ok (Finite neg m e) =>
          exists tk, _parse_task elem = Ok tk /\
                    int_of_float (Finite neg m e) = Ok (percentage tk)
      end
  end.
Proof.
  unfold _parse_task.
  assert (forall pri, exists p,
            except_ValueError (TaskPriority_of pri) (Ok NONE) = Ok p) as Hpri.
  { intros pri. unfold TaskPriority_of.
    repeat (case_decide; [eexists; reflexivity|]). eexists; reflexivity. }
  destruct (Hpri (get elem "TaskPriority")) as [p Hp].
  destruct (get elem "TaskPercentage") as [|c pct] eqn:Hpct.
  - simpl. rewrite Hp. simpl. eexists; split; reflexivity.
  - assert (float_of_str (c :: pct) = Raise ValueError \/
            exists f, float_of_str (c :: pct) = Ok f) as [Hf|[f Hf]].
    { unfold float_of_str.
      destruct (strip_underscores _ _); [|by left].
      destruct (split_sign _) as [neg body].
      destruct (parse_float_body neg body); [right; eauto | by left]. }
    + rewrite Hf. simpl. rewrite Hp. simpl. eexists; split; reflexivity.
    + rewrite Hf. destruct f as [neg m e|neg|]; simpl.
      * rewrite Hp. simpl. eexists; split; reflexivity.
      * reflexivity.
      * rewrite Hp. simpl. eexists; split; reflexivity.
Qed.

(** C5 at the failing input: [<Task TaskPercentage="inf"/>] makes
    [_parse_task], and with it [_parse_topic] and [read], raise
    [OverflowError]. *)
Theorem parse_task_inf_raises :
  _parse_task (elem "Task" {[ u "TaskPercentage" := u "inf" ]} [])
    = Raise OverflowError /\
  _parse_topic example_Env
    (elem "Topic" ∅ [elem "Task" {[ u "TaskPercentage" := u "inf" ]} []])
    = Raise OverflowError.
Proof. split; reflexivity. Qed.

End reader.

(** ** The markup codec: decoding what the encoder wrote *)

Section codec.
Implicit Types (E : Env) (t : Topic) (tk : Task) (k : nat).

Lemma u_inj (a b : string) : u a = u b -> a = b.
Proof.
  revert b. induction a as [|x a IH]; intros [|y b]; simpl; try done.
  intros [= Hxy Hab]. f_equal; [|by apply IH].
  rewrite <- (ascii_N_embedding x), <- (ascii_N_embedding y). by rewrite Hxy.
Qed.

Lemma qn_inj (a b : string) : qn a = qn b -> a = b.
Proof. unfold qn. intros H%app_inv_head. by apply u_inj. Qed.

Lemma qn_eqb (a b : string) :
  bool_decide (qn a = qn b) = String.eqb a b.
Proof.
  destruct (String.eqb_spec a b) as [->|Hne].
  - by apply bool_decide_eq_true_2.
  - apply bool_decide_eq_false_2. intros H%qn_inj. done.
Qed.

Lemma lookup_singleton_u (a b : string) (v : str) :
  ({[ u a := v ]} : gmap str str) !! u b =
    if String.eqb a b then Some v else None.
Proof.
  destruct (String.eqb_spec a b) as [->|Hne].
  - apply lookup_singleton_eq.
  - apply lookup_singleton_ne. intros H%u_inj. done.
Qed.

Lemma lookup_attr_if_nonempty (a b : string) (v : str) :
  attr_if_nonempty a v !! u b =
    if String.eqb a b then match v with [] => None | _ => Some v end
    else None.
Proof.
  unfold attr_if_nonempty. destruct v.
  - rewrite lookup_empty. by destruct (String.eqb a b).
  - apply lookup_singleton_u.
Qed.

Lemma lookup_attr_if_date (a b : string) (d : option datetime) :
  attr_if_date a d !! u b =
    if String.eqb a b then (fun dt => strftime dt fmt_iso_datetime) <$> d
    else None.
Proof.
  unfold attr_if_date. destruct d; simpl.
  - apply lookup_singleton_u.
  - rewrite lookup_empty. by destruct (String.eqb a b).
Qed.

Lemma parse_build_icon (i : IconMarker) : parse_icon (build_icon i) = i.
Proof.
  destruct i as [ty sg]. unfold parse_icon, build_icon, get, elem.
  cbn [attrib icon_type icon_signature].
  rewrite !lookup_union, !lookup_attr_if_nonempty.
  cbn [String.eqb Ascii.eqb Bool.eqb andb].
  destruct ty, sg; reflexivity.
Qed.

Lemma parse_build_hyperlink (h : Hyperlink) :
  parse_hyperlink (build_hyperlink h) = h.
Proof.
  destruct h as [ur tx]. unfold parse_hyperlink, build_hyperlink, get, elem.
  cbn [attrib url hl_text].
  rewrite !lookup_union, !lookup_attr_if_nonempty, !lookup_singleton_u.
  cbn [String.eqb Ascii.eqb Bool.eqb andb].
  destruct tx; reflexivity.
Qed.

Lemma find_cons_elem name attrs cs (l : list Element) (tg : string) :
  List.find (fun c => bool_decide (tag c = qn tg)) (elem name attrs cs :: l) =
    if String.eqb name tg then Some (elem name attrs cs)
    else List.find (fun c => bool_decide (tag c = qn tg)) l.
Proof. unfold elem. cbn [List.find tag]. rewrite qn_eqb. reflexivity. Qed.

Lemma children_tagged_all {A} (f : A -> Element) (name : string) (l : list A)
    (e : Element) :
  (forall x, tag (f x) = qn name) -> echildren e = f <$> l ->
  children_tagged name e = f <$> l.
Proof.
  intros Hf He. unfold children_tagged. rewrite He. clear He.
  induction l as [|x l IH]; [reflexivity|].
  cbn [fmap list_fmap List.filter]. fold (fmap f l).
  rewrite Hf, bool_decide_eq_true_2 by reflexivity. f_equal. exact IH.
Qed.

Lemma TaskPriority_of_value (p : TaskPriority) :
  TaskPriority_of (TaskPriority_value p) = Ok p.
Proof. destruct p; reflexivity. Qed.

Lemma parse_date_strftime (dt : datetime) :
  valid_datetime dt = true -> (1000 <= year dt)%Z ->
  match strftime dt fmt_iso_datetime with
  | [] => None
  | _ => _parse_date (strftime dt fmt_iso_datetime)
  end = Some (trunc_us dt).
Proof.
  intros Hv Hy.
  pose proof (strptime_strftime_iso_datetime dt Hv Hy) as H.
  assert (_parse_date (strftime dt fmt_iso_datetime) = Some (trunc_us dt))
    as Hd by (unfold _parse_date; rewrite H; reflexivity).
  destruct (strftime dt fmt_iso_datetime) as [|c s] eqn:Hs.
  - discriminate H.
  - exact Hd.
Qed.

Lemma date_ok_spec (d : option datetime) :
  date_ok d = true ->
  forall dt, d = Some dt -> valid_datetime dt = true /\ (1000 <= year dt)%Z.
Proof.
  intros H dt ->. simpl in H. apply andb_true_iff in H as [? ?%Z.leb_le]. done.
Qed.

Lemma task_elem_gets (start due : option datetime) (pri : TaskPriority)
    (opct : option str) :
  let e :=
    elem "Task"
      (attr_if_date "TaskStartDate" start
         ∪ (attr_if_date "TaskDueDate" due
              ∪ (match pri with
                 | NONE => ∅
                 | HIGH => {[ u "TaskPriority" := TaskPriority_value HIGH ]}
                 | MEDIUM => {[ u "TaskPriority" := TaskPriority_value MEDIUM ]}
                 | LOW => {[ u "TaskPriority" := TaskPriority_value LOW ]}
                 end
                 ∪ match opct with
                   | Some s => {[ u "TaskPercentage" := s ]}
                   | None => ∅
                   end))) [] in
  get e "TaskPercentage" = default [] opct /\
  get e "TaskPriority" = TaskPriority_value pri /\
  get e "TaskDueDate" =
    default [] ((fun dt => strftime dt fmt_iso_datetime) <$> due) /\
  get e "TaskStartDate" =
    default [] ((fun dt => strftime dt fmt_iso_datetime) <$> start).
Proof.
  unfold get, elem. cbn [attrib].
  rewrite !lookup_union, !lookup_attr_if_date.
  destruct pri, opct; rewrite ?lookup_empty, ?lookup_singleton_u;
    cbn [String.eqb Ascii.eqb Bool.eqb andb];
    destruct due, start; split_and!; reflexivity.
Qed.

(** The task element that the writer builds is read back as the task, its
    dates to the second. *)
Lemma parse_build_task tk :
  task_ok tk = true ->
  exists e, _build_task_elem tk = Ok e /\ tag e = qn "Task" /\
            _parse_task e = Ok (task_decoded tk).
Proof.
  destruct tk as [p pri due start]. unfold task_ok.
  cbn [percentage priority due_date start_date].
  rewrite !andb_true_iff, Z.leb_le, Z.ltb_lt. intros [[[Hp0 Hp] Hdue] Hstart].
  unfold _build_task_elem, task_decoded.
  cbn [percentage priority due_date start_date].
  assert (exists opct : option str,
    (if (p >? 0)%Z then
       s ← str_of_int p; Ok ({[ u "TaskPercentage" := s ]} : gmap str str)
     else Ok ∅) =
    Ok (match opct with
        | Some s => {[ u "TaskPercentage" := s ]}
        | None => ∅
        end) /\
    match default [] opct with
    | [] => Ok 0%Z
    | _ => except_ValueError
             (float_of_str (default [] opct) ≫= int_of_float) (Ok 0%Z)
    end = Ok p) as (opct & -> & Hpct).
  { rewrite Z.gtb_ltb. destruct (Z.ltb_spec 0 p) as [Hpos|Hz].
    - destruct (percentage_roundtrip p ltac:(lia)) as (s & -> & Hne & Hrt).
      exists (Some s). split; [reflexivity|]. cbn [default from_option id].
      destruct s as [|c s]; [done|]. cbv [id]. cbv iota. rewrite Hrt. reflexivity.
    - exists None. split; [reflexivity|]. cbn [default from_option id]. f_equal. lia. }
  cbn [mbind result_bind].
  match goal with |- exists e, Ok ?x = Ok e /\ _ => exists x end.
  split; [reflexivity|]. split; [reflexivity|].
  unfold _parse_task.
  destruct (task_elem_gets start due pri opct) as (-> & -> & -> & ->).
  rewrite Hpct. cbn [mbind result_bind].
  rewrite TaskPriority_of_value. cbn [except_ValueError mbind result_bind].
  assert (forall d, date_ok d = true ->
    match default [] ((fun dt => strftime dt fmt_iso_datetime) <$> d) with
    | [] => None
    | _ => _parse_date
             (default [] ((fun dt => strftime dt fmt_iso_datetime) <$> d))
    end = trunc_us <$> d) as Hdate.
  { intros [dt|] Hd; [|reflexivity]. cbn [fmap option_fmap option_map default].
    destruct (date_ok_spec _ Hd dt eq_refl) as [Hv Hy].
    apply parse_date_strftime; assumption. }
  rewrite (Hdate due Hdue), (Hdate start Hstart). reflexivity.
Qed.

Lemma _build_topic_elem_unfold E t k :
  _build_topic_elem E t k =
    task_elem ←
      match task t with
      | Some tk => e ← _build_task_elem tk; Ok [e]
      | None => Ok []
      end;
    '(child_elems, k') ← build_each E (children t) (build_oid E t k).2;
    Ok (elem "Topic" (build_attrs t (build_oid E t k).1)
          (build_text t ++ task_elem ++ build_icons t ++ build_hyperlinks t
             ++ build_notes_group t ++ build_subtopics t child_elems), k').
Proof.
  destruct t as [o tx cs tk ics hls nt sty raw]. unfold build_oid.
  cbn [_build_topic_elem oid]. destruct o; reflexivity.
Qed.

Lemma find_is_tag (e : Element) (tg : string) :
  find e (qn tg) = List.find (is_tag tg) (echildren e).
Proof. reflexivity. Qed.

Lemma find_app_tag (tg : string) (l1 l2 : list Element) :
  List.find (is_tag tg) (l1 ++ l2) =
    match List.find (is_tag tg) l1 with
    | Some x => Some x
    | None => List.find (is_tag tg) l2
    end.
Proof.
  induction l1 as [|c l1 IH]; [reflexivity|].
  cbn [app List.find]. destruct (is_tag tg c); [reflexivity | exact IH].
Qed.

Lemma find_nil_tag (tg : string) : List.find (is_tag tg) [] = None.
Proof. reflexivity. Qed.

Lemma find_singleton_tag (name tg : string) (e : Element) :
  tag e = qn name ->
  List.find (is_tag tg) [e] = if String.eqb name tg then Some e else None.
Proof.
  intros He. cbn [List.find]. unfold is_tag. rewrite He, qn_eqb.
  reflexivity.
Qed.

Lemma find_build_text t (tg : string) :
  List.find (is_tag tg) (build_text t) =
    if String.eqb "Text" tg then
      match text t with
      | [] => None
      | _ => Some (elem "Text" {[ u "PlainText" := text t ]} [])
      end
    else None.
Proof.
  unfold build_text. destruct (text t).
  - destruct (String.eqb _ _); reflexivity.
  - apply find_singleton_tag; reflexivity.
Qed.

Lemma find_build_icons t (tg : string) :
  List.find (is_tag tg) (build_icons t) =
    if String.eqb "IconMarkers" tg then
      match icons t with
      | [] => None
      | _ => Some (elem "IconMarkers" ∅ (build_icon <$> icons t))
      end
    else None.
Proof.
  unfold build_icons. destruct (icons t).
  - destruct (String.eqb _ _); reflexivity.
  - apply find_singleton_tag; reflexivity.
Qed.

Lemma find_build_hyperlinks t (tg : string) :
  List.find (is_tag tg) (build_hyperlinks t) =
    if String.eqb "Hyperlink" tg then
      match hyperlinks t with
      | [hl] => Some (build_hyperlink hl)
      | _ => None
      end
    else if String.eqb "HyperlinkGroup" tg then
      match hyperlinks t with
      | _ :: _ :: _ =>
          Some (elem "HyperlinkGroup" ∅ (build_hyperlink <$> hyperlinks t))
      | _ => None
      end
    else None.
Proof.
  unfold build_hyperlinks. destruct (hyperlinks t) as [|h [|h' hls]].
  - destruct (String.eqb "Hyperlink" tg), (String.eqb "HyperlinkGroup" tg);
      reflexivity.
  - rewrite (find_singleton_tag "Hyperlink") by reflexivity.
    destruct (String.eqb "Hyperlink" tg), (String.eqb "HyperlinkGroup" tg);
      reflexivity.
  - rewrite (find_singleton_tag "HyperlinkGroup") by reflexivity.
    destruct (String.eqb_spec "Hyperlink" tg) as [<-|]; reflexivity.
Qed.

Lemma find_build_notes_group t (tg : string) :
  List.find (is_tag tg) (build_notes_group t) =
    if String.eqb "NotesGroup" tg then build_notes <$> note t else None.
Proof.
  unfold build_notes_group. destruct (note t); cbn [fmap option_fmap option_map].
  - apply find_singleton_tag; reflexivity.
  - destruct (String.eqb _ _); reflexivity.
Qed.

Lemma find_build_subtopics t ces (tg : string) :
  List.find (is_tag tg) (build_subtopics t ces) =
    if String.eqb "SubTopics" tg then
      match children t with
      | [] => None
      | _ => Some (elem "SubTopics" ∅ ces)
      end
    else None.
Proof.
  unfold build_subtopics. destruct (children t).
  - destruct (String.eqb _ _); reflexivity.
  - apply find_singleton_tag; reflexivity.
Qed.

Lemma find_task_piece (o : option Element) (tg : string) :
  (forall e, o = Some e -> tag e = qn "Task") ->
  List.find (is_tag tg) (option_list o) =
    if String.eqb "Task" tg then o else None.
Proof.
  destruct o as [e|]; cbn [option_list option_rect]; intros He.
  - apply find_singleton_tag. apply He. reflexivity.
  - destruct (String.eqb _ _); reflexivity.
Qed.

Lemma parse_subtopics_find E (l : list Element) :
  parse_subtopics E l =
    match List.find (is_tag "SubTopics") l with
    | Some c => parse_each E (echildren c)
    | None => Ok []
    end.
Proof.
  induction l as [|c l IH]; [reflexivity|].
  cbn [parse_subtopics List.find]. unfold is_tag at 1.
  destruct (bool_decide (tag c = qn "SubTopics")); [reflexivity | exact IH].
Qed.

Ltac find_pieces Ho :=
  rewrite ?find_is_tag; cbn [echildren elem];
  rewrite !find_app_tag, !find_build_text, !(find_task_piece _ _ Ho),
    !find_build_icons, !find_build_hyperlinks, !find_build_notes_group,
    !find_build_subtopics;
  cbn [String.eqb Ascii.eqb Bool.eqb andb].

Section pieces.
Context (E : Env) (t : Topic) (o : option Element) (ces : list Element)
        (a : gmap str str).
Context (Ho : forall e, o = Some e -> tag e = qn "Task").

Let built : Element :=
  elem "Topic" a
    (build_text t ++ option_list o ++ build_icons t ++ build_hyperlinks t
       ++ build_notes_group t ++ build_subtopics t ces).

Lemma parse_text_built : parse_text built = text t.
Proof using Ho.
  unfold parse_text, built. find_pieces Ho.
  destruct (text t) as [|c tx]; [reflexivity|].
  unfold get, elem. cbn [attrib]. rewrite lookup_singleton_u. reflexivity.
Qed.

Lemma parse_task_of_built :
  parse_task_of built =
    match o with
    | Some task_elem => Some <$> _parse_task task_elem
    | None => Ok None
    end.
Proof using Ho.
  unfold parse_task_of, built. find_pieces Ho. destruct o; reflexivity.
Qed.

Lemma parse_icons_built : parse_icons built = icons t.
Proof using Ho.
  unfold parse_icons, built. find_pieces Ho.
  destruct (icons t) as [|i ics] eqn:Hi; [reflexivity|].
  rewrite (children_tagged_all build_icon "IconMarker" (i :: ics))
    by reflexivity.
  rewrite <- list_fmap_compose. rewrite <- (list_fmap_id (i :: ics)) at 2.
  apply list_fmap_ext. intros ? x _. apply parse_build_icon.
Qed.

Lemma parse_hyperlinks_built : parse_hyperlinks built = hyperlinks t.
Proof using Ho.
  unfold parse_hyperlinks, built. find_pieces Ho.
  destruct (hyperlinks t) as [|h [|h' hls]] eqn:Hh.
  - reflexivity.
  - cbn [app]. by rewrite parse_build_hyperlink.
  - cbn [app].
    rewrite (children_tagged_all build_hyperlink "Hyperlink" (h :: h' :: hls))
      by reflexivity.
    rewrite <- list_fmap_compose.
    rewrite <- (list_fmap_id (h :: h' :: hls)) at 2.
    apply list_fmap_ext. intros ? x _. apply parse_build_hyperlink.
Qed.

Lemma parse_note_built : parse_note built = note t.
Proof using Ho.
  unfold parse_note, built. find_pieces Ho.
  destruct (note t) as [[pl ht]|]; [|reflexivity].
  cbn [fmap option_fmap option_map]. unfold build_notes.
  rewrite find_is_tag. cbn [echildren elem].
  rewrite (find_singleton_tag "Notes") by reflexivity.
  cbn [String.eqb Ascii.eqb Bool.eqb andb plain_text html].
  unfold get at 1, elem at 1. cbn [attrib]. rewrite lookup_singleton_u.
  cbn [String.eqb Ascii.eqb Bool.eqb andb default from_option id]. cbv [id].
  f_equal. f_equal. rewrite find_is_tag. cbn [echildren elem].
  destruct ht as [|c ht]; [reflexivity|].
  rewrite (find_singleton_tag "Html") by reflexivity. reflexivity.
Qed.

Lemma parse_style_built : parse_style E built = None.
Proof using Ho. unfold parse_style, built. find_pieces Ho. reflexivity. Qed.

Lemma parse_subtopics_built :
  (children t = [] -> ces = []) ->
  parse_subtopics E (echildren built) = parse_each E ces.
Proof using Ho.
  intros Hc. rewrite parse_subtopics_find. unfold built. find_pieces Ho.
  destruct (children t); [|reflexivity]. rewrite Hc; reflexivity.
Qed.

End pieces.

Lemma Topic_ind' (P : Topic -> Prop) :
  (forall t, Forall P (children t) -> P t) -> forall t, P t.
Proof.
  intros H. fix IH 1. intros [o tx cs tk ics hls nt sty raw].
  apply H. cbn [children].
  induction cs as [|c cs IHcs]; constructor; [apply IH | apply IHcs].
Qed.

Lemma build_attrs_insert t (o : str) :
  build_attrs t o = <[ u "OId" := o ]> (_raw_attribs t).
Proof.
  unfold build_attrs. apply map_eq. intros i.
  rewrite lookup_union, lookup_insert.
  destruct (decide (u "OId" = i)) as [<-|Hne].
  - rewrite lookup_singleton_eq.
    rewrite (proj2 (map_lookup_filter_None _ _ _)); [reflexivity|].
    right. intros x _ Hx. apply Hx. reflexivity.
  - rewrite lookup_singleton_ne by exact Hne.
    destruct (_raw_attribs t !! i) as [v|] eqn:Hi.
    + rewrite (proj2 (map_lookup_filter_Some _ _ i v)); [reflexivity|].
      split; [exact Hi|]. intros Hk. apply Hne. symmetry. exact Hk.
    + rewrite (proj2 (map_lookup_filter_None _ _ _)); [reflexivity|].
      left. exact Hi.
Qed.

Lemma build_parse_each E (cs : list Topic) :
  Forall (roundtrips E) cs ->
  forall k, exists es k' cs',
    build_each E cs k = Ok (es, k') /\ (cs = [] -> es = []) /\
    parse_each E es = Ok cs' /\ Forall2 preserved cs cs'.
Proof.
  induction 1 as [|c cs Hc _ IH]; intros k.
  - exists [], k, []. split_and!; [reflexivity | reflexivity | reflexivity |].
    constructor.
  - destruct (Hc k) as (e & k1 & c' & Hb & Htag & Hp & Hpres).
    destruct (IH k1) as (es & k2 & cs' & Hbs & _ & Hps & Hall).
    exists (e :: es), k2, (c' :: cs'). split_and!.
    + cbn [build_each]. rewrite Hb. cbn [mbind result_bind].
      fold (build_each E). rewrite Hbs. reflexivity.
    + discriminate.
    + cbn [parse_each]. rewrite Htag, bool_decide_eq_true_2 by reflexivity.
      rewrite Hp. cbn [mbind result_bind]. fold (parse_each E).
      rewrite Hps. reflexivity.
    + constructor; assumption.
Qed.

Lemma topic_ok_unfold t :
  topic_ok t =
    match task t with Some tk => task_ok tk | None => true end
    && forallb topic_ok (children t).
Proof. destruct t. reflexivity. Qed.

Lemma build_parse_topic E t : topic_ok t = true -> roundtrips E t.
Proof.
  induction t as [t IH] using Topic_ind'. rewrite topic_ok_unfold.
  intros [Htask Hcs]%andb_true_iff k.
  assert (Forall (roundtrips E) (children t)) as Hall.
  { rewrite Forall_forall in IH |- *. intros c Hc. apply IH; [exact Hc|].
    rewrite forallb_forall in Hcs. apply Hcs, list_elem_of_In, Hc. }
  destruct (build_parse_each E (children t) Hall (build_oid E t k).2)
    as (ces & k' & cs' & Hbs & Hnil & Hps & Hpres).
  assert (exists o : option Element,
    match task t with
    | Some tk => e ← _build_task_elem tk; Ok [e]
    | None => Ok []
    end = Ok (option_list o) /\
    (forall e, o = Some e -> tag e = qn "Task") /\
    match o with
    | Some task_elem => Some <$> _parse_task task_elem
    | None => Ok None
    end = Ok (task_decoded <$> task t)) as (o & Hbt & Ho & Hpt).
  { destruct (task t) as [tk|].
    - destruct (parse_build_task tk Htask) as (e & -> & He & Hp).
      exists (Some e). split_and!; [reflexivity | by intros ? [= <-] |].
      rewrite Hp. reflexivity.
    - exists None. split_and!; [reflexivity | discriminate | reflexivity]. }
  rewrite _build_topic_elem_unfold, Hbt. cbn [mbind result_bind].
  rewrite Hbs. cbn [mbind result_bind].
  eexists _, _, _. split; [reflexivity|]. split; [reflexivity|].
  rewrite _parse_topic_unfold.
  rewrite (parse_task_of_built t o ces _ Ho), Hpt. cbn [mbind result_bind].
  rewrite (parse_subtopics_built E t o ces _ Ho Hnil), Hps.
  cbn [mbind result_bind].
  rewrite (parse_text_built t o ces _ Ho), (parse_icons_built t o ces _ Ho),
    (parse_hyperlinks_built t o ces _ Ho), (parse_note_built t o ces _ Ho),
    (parse_style_built E t o ces _ Ho).
  split; [reflexivity|].
  assert (get (elem "Topic" (build_attrs t (build_oid E t k).1)
                 (build_text t ++ option_list o ++ build_icons t
                    ++ build_hyperlinks t ++ build_notes_group t
                    ++ build_subtopics t ces)) "OId"
          = (build_oid E t k).1) as Hoid.
  { unfold get, elem. cbn [attrib].
    rewrite build_attrs_insert, lookup_insert_eq. reflexivity. }
  constructor; cbn [text task icons hyperlinks note oid _raw_attribs children];
    try reflexivity.
  - rewrite Hoid. unfold build_oid. destruct (oid t); [done | reflexivity].
  - rewrite Hoid. apply build_attrs_insert.
  - exact Hpres.
Qed.

(** C1, as the code has it.  For a map whose task percentages are integers
    [0 <= p < 2^53] and whose task dates have a year of four digits,
    encoding succeeds and decoding the element gives back, topic by topic,
    the text, the task (percentage, priority, the two dates to the second),
    the icons, the hyperlinks, the note and the shape of the tree; a stored
    identifier is kept; the bag comes back with the identifier entered at
    [OId] and its other entries as they were. *)
Theorem markup_roundtrip E t k :
  topic_ok t = true ->
  exists e k' t',
    _build_topic_elem E t k = Ok (e, k') /\
    _parse_topic E e = Ok t' /\
    preserved t t'.
Proof.
  intros Hok. destruct (build_parse_topic E t Hok k) as (e & k' & t' & H).
  exists e, k', t'. tauto.
Qed.

Lemma markup_roundtrip_witness :
  exists e k' t',
    _build_topic_elem example_Env example_map 0 = Ok (e, k') /\
    _parse_topic example_Env e = Ok t' /\
    preserved example_map t'.
Proof. apply (markup_roundtrip example_Env example_map 0). reflexivity. Defined.

(** C1, as stated, fails on the code.  A topic without bag and without
    style whose task has the percentage [-5] and a due date with
    microseconds is read back with the percentage [0] and the date cut to the
    second; a topic with the bag [{Dirty: 0}] and a style blob is read back
    with [OId] added to the bag and without the style blob. *)
Lemma markup_roundtrip_not_exact :
  (exists e k' t',
     _build_topic_elem example_Env topic_odd_task 0 = Ok (e, k') /\
     _parse_topic example_Env e = Ok t' /\
     _raw_attribs topic_odd_task = ∅ /\ _style_xml topic_odd_task = None /\
     (percentage <$> task topic_odd_task) = Some (-5)%Z /\
     (percentage <$> task t') = Some 0%Z /\
     (task t' ≫= due_date) <> (task topic_odd_task ≫= due_date)) /\
  (exists e k' t',
     _build_topic_elem example_Env topic_with_bag 0 = Ok (e, k') /\
     _parse_topic example_Env e = Ok t' /\
     _raw_attribs t' !! u "OId" = Some (u "A1") /\
     _raw_attribs topic_with_bag !! u "OId" = None /\
     _style_xml topic_with_bag = Some (u "<SubTopicShape/>") /\
     _style_xml t' = None).
Proof.
  split.
  - eexists _, _, _. split; [vm_compute; reflexivity|].
    split; [vm_compute; reflexivity|].
    split_and!; try reflexivity. vm_compute. discriminate.
  - eexists _, _, _. split; [vm_compute; reflexivity|].
    split; [vm_compute; reflexivity|].
    split_and!; vm_compute; reflexivity.
Qed.

End codec.

(** ** The outline codec: decoding *)

Section outline_decoder.
Implicit Types (s x pre post : str) (c : N) (m : str -> option (str * nat)).

Lemma md_step_no_branch root h stk line :
  is_h2 line = false ->
  md_step root (mk_md_state h None stk) line = Ok (mk_md_state h None stk).
Proof.
  unfold is_h2, md_step. intros ->. cbn [st_branch].
  destruct (startswith (strip line) (u "- ")); reflexivity.
Qed.

Lemma md_loop_no_branch root ls rest h stk :
  Forall (fun l => is_h2 l = false) ls ->
  md_loop root (ls ++ rest) (mk_md_state h None stk) =
    md_loop root rest (mk_md_state h None stk).
Proof.
  induction 1 as [|l ls Hl _ IH]; [reflexivity|].
  cbn [app md_loop]. rewrite (md_step_no_branch root h stk l Hl).
  cbn [mbind result_bind]. exact IH.
Qed.

Lemma from_markdown_unfold text :
  from_markdown text =
    let '(root_text, lines) := find_h1 (skip_frontmatter (split_lines text)) in
    let h := match root_text with
             | Some t => alter (set_text t) 0%nat [Topic_default]
             | None => [Topic_default]
             end in
    st ← md_loop 0%nat lines (mk_md_state h None []);
    Ok (st_heap st,
        mk_MindMapRef 0%nat (default [] (o_text <$> st_heap st !! 0%nat))
                      None None [] [] NS).
Proof. reflexivity. Qed.

(** C9.  Lines after the top-level heading and before the first
    second-level heading, list items among them, produce no topic: the
    outline decodes to what it decodes to without these lines. *)
Theorem items_before_first_branch_dropped text text' rt ls rest :
  find_h1 (skip_frontmatter (split_lines text)) = (rt, ls ++ rest) ->
  find_h1 (skip_frontmatter (split_lines text')) = (rt, rest) ->
  Forall (fun l => is_h2 l = false) ls ->
  from_markdown text = from_markdown text'.
Proof.
  intros H1 H2 Hls. rewrite !from_markdown_unfold, H1, H2.
  cbv zeta. rewrite (md_loop_no_branch _ ls rest _ _ Hls). reflexivity.
Qed.

(** *** What the steps of [_parse_md_item] keep and remove *)

Lemma dropwhile_incl (f : N -> bool) s : dropwhile f s ⊆ s.
Proof.
  induction s as [|c s IH]; simpl; [done|].
  destruct (f c); [|done]. set_solver.
Qed.

Lemma strip_incl s : strip s ⊆ s.
Proof.
  unfold strip, strip_with, lstrip_with, rstrip_with.
  intros c Hc. rewrite list_elem_of_In, <- in_rev, <- list_elem_of_In in Hc.
  apply dropwhile_incl in Hc.
  rewrite list_elem_of_In, <- in_rev, <- list_elem_of_In in Hc.
  by apply dropwhile_incl in Hc.
Qed.

Lemma drop_incl (n : nat) s : drop n s ⊆ s.
Proof. apply subseteq_drop. Qed.

Lemma replace_empty_incl c s : replace_empty c s ⊆ s.
Proof.
  intros d Hd. unfold replace_empty in Hd.
  apply list_elem_of_In, filter_In in Hd as [Hd _]. by apply list_elem_of_In.
Qed.



Lemma replace_empty_gone c s : c ∉ replace_empty c s.
Proof.
  unfold replace_empty. rewrite list_elem_of_In, filter_In.
  intros [_ H]. by rewrite N.eqb_refl in H.
Qed.

Lemma search_incl m s pre g post :
  search m s = Some (pre, g, post) -> pre ⊆ s /\ post ⊆ s.
Proof.
  revert pre. induction s as [|c s IH]; intros pre; cbn [search].
  - destruct (m []) as [[g' n]|]; [|done]. intros [= <- <- <-].
    split; [done | apply drop_incl].
  - destruct (m (c :: s)) as [[g' n]|].
    + intros [= <- <- <-]. split; [set_solver | apply drop_incl].
    + destruct (search m s) as [[[pre' g'] post']|]; [|done].
      intros [= <- <- <-]. destruct (IH pre' eq_refl) as [H1 H2].
      split; set_solver.
Qed.

Lemma scan_incl m s (skip : nat) : (scan m s skip).2 ⊆ s.
Proof.
  revert skip. induction s as [|c s IH]; intros skip; cbn [scan]; [done|].
  destruct skip as [|k].
  - destruct (m (c :: s)) as [[g n]|].
    + specialize (IH (n - 1)%nat). destruct (scan m s (n - 1)) as [gs t].
      set_solver.
    + specialize (IH 0%nat). destruct (scan m s 0) as [gs t]. simpl in *.
      set_solver.
  - set_solver.
Qed.

Lemma md_priority_incl task x : (md_priority task x).2 ⊆ x.
Proof.
  unfold md_priority. repeat case_match; simpl; try done;
    (etrans; [apply strip_incl | apply replace_empty_incl]).
Qed.

Lemma md_due_incl task x : (md_due task x).2 ⊆ x.
Proof.
  unfold md_due. destruct (search match_due x) as [[[pre g] post]|] eqn:Hs;
    [|done].
  apply search_incl in Hs as [H1 H2]. simpl.
  intros c [Hc|Hc]%elem_of_app; apply strip_incl in Hc; auto.
Qed.

Lemma md_percentage_incl task x task' x' :
  md_percentage task x = Ok (task', x') -> x' ⊆ x.
Proof.
  unfold md_percentage.
  destruct (search match_pct x) as [[[pre g] post]|] eqn:Hs;
    [|by intros [= <- <-]].
  apply search_incl in Hs as [H1 H2].
  destruct (percentage task <? 100)%Z; [|by intros [= <- <-]].
  destruct (int_of_str g); [|done]. cbn [mbind result_bind].
  intros [= <- <-].
  intros c [Hc|Hc]%elem_of_app; apply strip_incl in Hc; auto.
Qed.

Lemma startswith_nil s : startswith s [] = true.
Proof. destruct s; reflexivity. Qed.

Lemma startswith_app p x : startswith (p ++ x) p = true.
Proof.
  induction p as [|c p IH]; [apply startswith_nil|].
  cbn [app startswith]. by rewrite N.eqb_refl, IH.
Qed.

Lemma md_priority_spec task x :
  percentage (md_priority task x).1 = percentage task /\
  match selected_priority x with
  | Some (p, g) =>
      priority (md_priority task x).1 = p /\ g ∉ (md_priority task x).2
  | None => (md_priority task x).1 = task
  end.
Proof.
  unfold md_priority, selected_priority.
  destruct (contains glyph_high x); [|destruct (contains glyph_medium x);
    [|destruct (contains glyph_low x)]]; cbn [fst snd percentage priority
      set_priority]; (split; [reflexivity|]); try reflexivity;
    (split; [reflexivity|]); intros H%strip_incl;
    by apply replace_empty_gone in H.
Qed.

Lemma md_due_fields task x :
  percentage (md_due task x).1 = percentage task /\
  priority (md_due task x).1 = priority task.
Proof.
  unfold md_due. destruct (search match_due x) as [[[pre g] post]|]; [|done].
  cbn [fst]. destruct (strptime g fmt_iso_date); done.
Qed.

Lemma md_percentage_fields task x task' x' :
  md_percentage task x = Ok (task', x') ->
  priority task' = priority task /\
  (percentage task = 100%Z -> percentage task' = 100%Z).
Proof.
  unfold md_percentage.
  destruct (search match_pct x) as [[[pre g] post]|]; [|by intros [= <- <-]].
  destruct (Z.ltb_spec (percentage task) 100); [|by intros [= <- <-]].
  destruct (int_of_str g); [|done]. cbn [mbind result_bind].
  intros [= <- <-]. split; [reflexivity | lia].
Qed.

Lemma parse_md_item_checkbox_unfold (checked : bool) x :
  _parse_md_item ((if checked then u "[x] " else u "[ ] ") ++ x) =
    '(task, text) ←
       md_percentage
         (md_due (md_priority
                    (if checked then mk_Task 100 NONE None None
                     else Task_default) x).1
                 (md_priority
                    (if checked then mk_Task 100 NONE None None
                     else Task_default) x).2).1
         (md_due (md_priority
                    (if checked then mk_Task 100 NONE None None
                     else Task_default) x).1
                 (md_priority
                    (if checked then mk_Task 100 NONE None None
                     else Task_default) x).2).2;
    Ok (mk_TopicObj [] (strip (strip (scan match_link text 0).2)) [] None
          (Some task) []
          (List.map (fun url => mk_Hyperlink url [])
                    (scan match_link text 0).1) None None ∅).
Proof.
  unfold _parse_md_item.
  assert (startswith (u "[x] " ++ x) (u "[x] ") = true) as E1
    by apply startswith_app.
  assert (startswith (u "[ ] " ++ x) (u "[x] ") = false) as E2 by reflexivity.
  assert (startswith (u "[ ] " ++ x) (u "[ ] ") = true) as E3
    by apply startswith_app.
  assert (drop 4 (u "[x] " ++ x) = x) as E4 by reflexivity.
  assert (drop 4 (u "[ ] " ++ x) = x) as E5 by reflexivity.
  destruct checked; rewrite ?E1, ?E2, ?E3, ?E4, ?E5;
    (destruct (md_priority _ x) as [t1 x1]; cbn [fst snd];
     destruct (md_due t1 x1) as [t2 x2]; cbn [fst snd];
     destruct (md_percentage t2 x2) as [[t3 x3]|]; cbn [mbind result_bind];
     [|reflexivity];
     destruct (scan match_link x3 0) as [urls rest]; reflexivity).
Qed.

Lemma search_first_match m s pre g post :
  search m s = Some (pre, g, post) -> first_match m s pre g post.
Proof.
  revert pre. induction s as [|c r IH]; intros pre; cbn [search].
  - destruct (m []) as [[g' n]|] eqn:Hm; [|discriminate].
    intros [= <- <- <-]. exists n. split_and!; [done | done | done |].
    intros i Hi. cbn in Hi. lia.
  - destruct (m (c :: r)) as [[g' n]|] eqn:Hm.
    + intros [= <- <- <-]. exists n. split_and!; [done | done | done |].
      intros i Hi. cbn in Hi. lia.
    + destruct (search m r) as [[[pre' g'] post']|]; [|discriminate].
      intros [= <- <- <-].
      destruct (IH pre' eq_refl) as (n & Hpre & Hmatch & Hpost & Hnone).
      exists n. cbn [length take drop]. split_and!.
      * by rewrite <- Hpre.
      * exact Hmatch.
      * exact Hpost.
      * intros [|i] Hi; [exact Hm|]. cbn [drop]. apply Hnone. lia.
Qed.

Lemma search_no_match m s : search m s = None -> no_match m s.
Proof.
  induction s as [|c r IH]; cbn [search].
  - destruct (m []) as [[g' n]|] eqn:Hm; [discriminate|].
    intros _ i Hi. cbn in Hi. by replace i with 0%nat by lia.
  - destruct (m (c :: r)) as [[g' n]|] eqn:Hm; [discriminate|].
    destruct (search m r) as [[[pre' g'] post']|]; [discriminate|].
    intros _ [|i] Hi; [exact Hm|]. cbn [drop]. apply IH; [done|].
    cbn in Hi. lia.
Qed.

Lemma md_priority_selected task x :
  md_priority task x =
    (match selected_priority x with
     | Some (p, _) => set_priority p task
     | None => task
     end, without_selected_priority x).
Proof.
  unfold md_priority, without_selected_priority, selected_priority.
  destruct (contains glyph_high x); [reflexivity|].
  destruct (contains glyph_medium x); [reflexivity|].
  destruct (contains glyph_low x); reflexivity.
Qed.

(** C7, as the code has it.  On an item with a checkbox the decoder takes
    the priority first: the first glyph present among high, medium and low
    gives the priority and is removed at all its occurrences, so that this
    glyph is not in the text of the topic; the other glyphs stay.  Then the
    leftmost match of the date pattern is cut out, the texts before and
    after it stripped and joined, and its group gives the due date when it
    is a date; later matches stay.  Then, on an unchecked item only, the
    leftmost match of the percentage pattern is cut out in the same way and
    its group gives the percentage; a checked item keeps the percentage 100
    and its parenthetical.  The text of the topic is what remains without
    the links, stripped; it is made of characters of the item. *)
Theorem parse_md_item_checkbox (checked : bool) x o :
  _parse_md_item ((if checked then u "[x] " else u "[ ] ") ++ x) = Ok o ->
  exists t x2 x3,
    o_task o = Some t /\
    (checked = true -> percentage t = 100%Z) /\
    match selected_priority x with
    | Some (p, g) => priority t = p /\ g ∉ o_text o
    | None => priority t = NONE
    end /\
    o_text o ⊆ x /\
    start_date t = None /\
    ((exists pre g post,
        first_match match_due (without_selected_priority x) pre g post /\
        x2 = strip pre ++ strip post /\
        due_date t = match strptime g fmt_iso_date with
                     | Ok d => Some d
                     | Raise _ => None
                     end)
     \/ (no_match match_due (without_selected_priority x) /\
         x2 = without_selected_priority x /\ due_date t = None)) /\
    (if checked then x3 = x2
     else (exists pre g post,
             first_match match_pct x2 pre g post /\
             x3 = strip pre ++ strip post /\
             int_of_str g = Ok (percentage t))
          \/ (no_match match_pct x2 /\ x3 = x2 /\ percentage t = 0%Z)) /\
    o_text o = strip (strip (scan match_link x3 0).2) /\
    o_hyperlinks o
    = List.map (fun url => mk_Hyperlink url []) (scan match_link x3 0).1.
Proof.
  rewrite parse_md_item_checkbox_unfold.
  set (task0 := if checked then mk_Task 100 NONE None None else Task_default).
  pose proof (md_priority_spec task0 x) as [Hp1 Hsel].
  pose proof (md_priority_incl task0 x) as Hi1.
  rewrite (md_priority_selected task0 x) in *. cbn [fst snd] in *.
  set (x1 := without_selected_priority x) in *.
  set (t1 := match selected_priority x with
             | Some (p, _) => set_priority p task0
             | None => task0
             end) in *.
  assert (start_date t1 = None /\ due_date t1 = None) as [Hs1 Hd1].
  { unfold t1, task0. destruct (selected_priority x) as [[p g]|], checked;
      done. }
  pose proof (md_due_fields t1 x1) as [Hp2 Hq2].
  pose proof (md_due_incl t1 x1) as Hi2.
  assert (exists t2 x2, md_due t1 x1 = (t2, x2) /\ start_date t2 = None /\
    ((exists pre g post,
        first_match match_due x1 pre g post /\
        x2 = strip pre ++ strip post /\
        due_date t2 = match strptime g fmt_iso_date with
                      | Ok d => Some d
                      | Raise _ => None
                      end)
     \/ (no_match match_due x1 /\ x2 = x1 /\ due_date t2 = None)))
    as (t2 & x2 & Hdue & Hs2 & Hd2).
  { unfold md_due.
    destruct (search match_due x1) as [[[pre g] post]|] eqn:Hsearch.
    - eexists _, _. split; [reflexivity|]. split.
      + by destruct (strptime g fmt_iso_date).
      + left. exists pre, g, post.
        split; [by apply search_first_match|]. split; [reflexivity|].
        by destruct (strptime g fmt_iso_date).
    - eexists _, _. split; [reflexivity|]. split; [exact Hs1|].
      right. split; [by apply search_no_match | done]. }
  rewrite Hdue in *. cbn [fst snd] in *.
  assert (percentage t2 = if checked then 100%Z else 0%Z) as Hpc2.
  { rewrite Hp2, Hp1. by destruct checked. }
  destruct (md_percentage t2 x2) as [[t3 x3]|] eqn:Hpct; [|done].
  cbn [mbind result_bind]. intros [= <-].
  cbn [o_task o_text o_hyperlinks].
  destruct (md_percentage_fields _ _ _ _ Hpct) as [Hq3 Hp3].
  pose proof (md_percentage_incl _ _ _ _ Hpct) as Hi3.
  assert (strip (strip (scan match_link x3 0).2) ⊆ x1) as Hi.
  { etrans; [apply strip_incl|]. etrans; [apply strip_incl|].
    etrans; [apply scan_incl|]. etrans; [exact Hi3 | exact Hi2]. }
  assert (start_date t3 = None /\ due_date t3 = due_date t2 /\
    (if checked then x3 = x2
     else (exists pre g post,
             first_match match_pct x2 pre g post /\
             x3 = strip pre ++ strip post /\
             int_of_str g = Ok (percentage t3))
          \/ (no_match match_pct x2 /\ x3 = x2 /\ percentage t3 = 0%Z)))
    as (Hs3 & Hd3 & Hx3).
  { unfold md_percentage in Hpct.
    destruct (search match_pct x2) as [[[pre g] post]|] eqn:Hsearch.
    - rewrite Hpc2 in Hpct. destruct checked; cbn in Hpct.
      + by injection Hpct as <- <-.
      + destruct (int_of_str g) as [p|] eqn:Hint; [|discriminate].
        cbn in Hpct. injection Hpct as <- <-.
        split; [exact Hs2|]. split; [reflexivity|].
        left. exists pre, g, post.
        split; [by apply search_first_match | done].
    - injection Hpct as <- <-. split; [exact Hs2|]. split; [reflexivity|].
      destruct checked; [reflexivity|].
      right. split; [by apply search_no_match | done]. }
  exists t3, x2, x3. split_and!.
  - reflexivity.
  - intros ->. apply Hp3. rewrite Hpc2. reflexivity.
  - destruct (selected_priority x) as [[p g]|].
    + destruct Hsel as [Hp Hg]. split; [congruence|].
      intros H. apply Hg, Hi, H.
    + rewrite Hq3, Hq2. unfold t1, task0. by destruct checked.
  - etrans; [exact Hi | exact Hi1].
  - exact Hs3.
  - rewrite Hd3. exact Hd2.
  - exact Hx3.
  - reflexivity.
  - reflexivity.
Qed.

Lemma items_before_first_branch_dropped_witness :
  from_markdown outline_early_items
    = from_markdown outline_without_early_items.
Proof.
  apply (items_before_first_branch_dropped
           outline_early_items outline_without_early_items
           (Some (u "R")) [u "- a"; u "  - [ ] b"] [u "## B"; u "- c"]).
  - reflexivity.
  - reflexivity.
  - repeat constructor.
Defined.

Lemma parse_md_item_checkbox_witness :
  exists o t,
    _parse_md_item (u "[x] " ++ item_two_priorities) = Ok o /\
    o_task o = Some t /\ percentage t = 100%Z /\ priority t = HIGH /\
    glyph_high ∉ o_text o.
Proof.
  assert (exists o, _parse_md_item (u "[x] " ++ item_two_priorities) = Ok o)
    as [o Ho].
  { exists (mk_TopicObj [] (u "a (50%)  " ++ [glyph_medium]) [] None
              (Some (mk_Task 100 HIGH None None)) [] [] None None ∅).
    vm_compute. reflexivity. }
  destruct (parse_md_item_checkbox true item_two_priorities o Ho)
    as (t & x2 & x3 & Ht & Hp & Hsel & _).
  exists o, t. split; [exact Ho|]. split; [exact Ht|].
  split; [apply Hp; reflexivity|]. exact Hsel.
Defined.

(** C7, as stated, fails on the code: the item [[x] a (50%) ⏫ 🔼] gives
    the text [a (50%)  🔼], in which the medium priority glyph and the
    percentage parenthetical remain. *)
Lemma parse_md_item_glyphs_remain :
  exists o,
    _parse_md_item (u "[x] " ++ item_two_priorities) = Ok o /\
    o_text o = u "a (50%)  " ++ [glyph_medium] /\
    contains glyph_medium (o_text o) = true /\
    search match_pct (o_text o)
      = Some (u "a ", u "50", [32; 32; glyph_medium]%N).
Proof.
  exists (mk_TopicObj [] (u "a (50%)  " ++ [glyph_medium]) [] None
            (Some (mk_Task 100 HIGH None None)) [] [] None None ∅).
  split_and!; vm_compute; reflexivity.
Qed.

(** C8 at the failing input: a percentage of 4301 digits makes [int], and
    with it [from_markdown], raise [ValueError]. *)
Theorem from_markdown_long_percentage_raises :
  from_markdown outline_long_percentage = Raise ValueError.
Proof. vm_compute. reflexivity. Qed.

End outline_decoder.

(** ** The archive adapter *)

Section archive.
Implicit Types (d : list (str * bytes)) (name key : str).

Lemma dict_get_set {V} (d : list (str * V)) key (v : V) name :
  dict_get (dict_set key v d) name =
    if bool_decide (key = name) then Ok v else dict_get d name.
Proof.
  induction d as [|[k w] d IH]; simpl.
  - repeat case_bool_decide; congruence.
  - destruct (bool_decide (k = key)) eqn:Hk; simpl.
    + apply bool_decide_eq_true in Hk as ->.
      repeat case_bool_decide; congruence.
    + apply bool_decide_eq_false in Hk. rewrite IH.
      repeat case_bool_decide; congruence.
Qed.

Lemma dict_set_keys {V} (d : list (str * V)) key (v : V) name :
  name ∈ (dict_set key v d).*1 <-> name = key \/ name ∈ d.*1.
Proof.
  induction d as [|[k w] d IH]; simpl.
  - rewrite list_elem_of_singleton. set_solver.
  - case_bool_decide; simpl; rewrite ?elem_of_cons, ?IH; subst; tauto.
Qed.

Lemma dict_set_NoDup {V} (d : list (str * V)) key (v : V) :
  NoDup d.*1 -> NoDup (dict_set key v d).*1.
Proof.
  induction d as [|[k w] d IH]; simpl; intros Hnd.
  - repeat constructor. set_solver.
  - inversion Hnd as [|? ? Hk Hd]; subst. case_bool_decide; simpl.
    + subst. by constructor.
    + constructor; [|auto]. rewrite dict_set_keys. intros [->|?]; done.
Qed.

(** In a dictionary, [zf.read] of the written archive finds what [d[name]]
    holds. *)
Lemma zf_read_dict d name :
  NoDup d.*1 -> zf_read d name = dict_get d name.
Proof.
  unfold zf_read. induction d as [|[k w] d IH]; simpl; intros Hnd; [done|].
  inversion Hnd as [|? ? Hk Hd]; subst. specialize (IH Hd).
  case_bool_decide as Hkn; simpl in *.
  - subst k.
    assert (List.filter (fun e => bool_decide (e.1 = name)) d = []) as ->; [|done].
    clear -Hk. induction d as [|[k' w'] d IH]; simpl; [done|].
    case_bool_decide as Hk'; simpl in *.
    + subst. set_solver.
    + apply IH. set_solver.
  - exact IH.
Qed.

Lemma zf_read_is_Ok (zf : list (str * bytes)) name :
  name ∈ namelist zf -> exists data, zf_read zf name = Ok data.
Proof.
  unfold zf_read, namelist. intros Hin.
  apply list_elem_of_fmap in Hin as ([k w] & -> & Hin).
  assert ((k, w) ∈ List.filter (fun e => bool_decide (e.1 = (k, w).1)) zf)
    as Hf.
  { apply list_elem_of_In, filter_In. split; [by apply list_elem_of_In|].
    by apply bool_decide_eq_true. }
  destruct (List.filter _ zf) as [|e l] eqn:Hl using rev_ind.
  - set_solver.
  - rewrite last_snoc. eauto.
Qed.

(** Reading every name of the source into the dictionary succeeds, and the
    dictionary then holds, for each name read, the content that [zf.read]
    gives. *)
Lemma read_all_spec (zf : list (str * bytes)) names d0 :
  (forall name, name ∈ names -> name ∈ namelist zf) ->
  NoDup d0.*1 ->
  exists d, read_all zf names (Ok d0) = Ok d /\ NoDup d.*1 /\
    (forall name, name ∈ d.*1 <-> name ∈ names \/ name ∈ d0.*1) /\
    (forall name, dict_get d name =
       if bool_decide (name ∈ names) then zf_read zf name
       else dict_get d0 name).
Proof.
  revert d0. induction names as [|n names IH]; intros d0 Hin Hnd.
  - exists d0. split_and!; [done | done | set_solver |].
    intros name. case_bool_decide; [set_solver | done].
  - destruct (zf_read_is_Ok zf n) as [data Hdata]; [set_solver|].
    destruct (IH (dict_set n data d0)) as (d & Hd & Hnd' & Hkeys & Hget).
    { set_solver. }
    { by apply dict_set_NoDup. }
    exists d. split_and!.
    + unfold read_all in *. simpl. rewrite Hdata. simpl. exact Hd.
    + exact Hnd'.
    + intros name. rewrite Hkeys, dict_set_keys, elem_of_cons. tauto.
    + intros name. rewrite Hget, dict_get_set.
      destruct (decide (name ∈ names)) as [Hi|Hi].
      * rewrite !bool_decide_eq_true_2; set_solver.
      * rewrite (bool_decide_eq_false_2 (name ∈ names)) by done.
        case_bool_decide as Hn.
        -- subst. rewrite bool_decide_eq_true_2 by set_solver. done.
        -- rewrite bool_decide_eq_false_2; [done|]. set_solver.
Qed.

(** The frame of [_update_existing] when the backup does not overwrite the
    source: with a source archive whose document parses and has a
    [OneTopic] element, and a map that encodes, the archive written at
    [dest] holds every entry of the source other than the document, with
    the content that the source has for it. *)
Lemma update_existing_keeps_entries
    E mindmap source dest backup k fs src doc root_elem one_topic new_e k' :
  fs !! source = Some (Zip src) ->
  zf_read src Document_xml = Ok doc ->
  Document_xml ∈ namelist src ->
  fromstring E doc = Ok root_elem ->
  find_descendant root_elem (qn "OneTopic") = Some one_topic ->
  _build_topic_elem E (root mindmap) k = Ok (new_e, k') ->
  backup = false \/ fs !! dest = None \/
    (with_suffix E dest ".mmap.bak" <> source /\
     with_suffix E dest ".mmap.bak" <> dest) ->
  exists fs' out,
    _update_existing E mindmap source dest backup k fs = Ok fs' /\
    fs' !! dest = Some (Zip out) /\
    forall name, name ∈ namelist src -> name <> Document_xml ->
      name ∈ namelist out /\ zf_read out name = zf_read src name.
Proof.
  intros Hsrc Hdoc Hin Hparse Hone Hbuild Hbak.
  unfold _update_existing.
  set (bak := with_suffix E dest ".mmap.bak") in *.
  assert (exists fs1,
    (if backup && bool_decide (is_Some (fs !! dest))
     then copy2 dest bak fs else Ok fs) = Ok fs1 /\
    fs1 !! source = Some (Zip src)) as (fs1 & -> & Hsrc1).
  { destruct backup; simpl; [|eauto].
    case_bool_decide as Hd; [|eauto].
    destruct Hbak as [?|[Hn|[Hbs Hbd]]]; [done | |].
    - rewrite Hn in Hd. by destruct Hd.
    - destruct Hd as [f Hf]. unfold copy2. rewrite Hf.
      rewrite decide_False by done. eexists; split; [done|].
      by rewrite lookup_insert_ne. }
  simpl. unfold ZipFile_open. rewrite Hsrc1. simpl.
  destruct (read_all_spec src (namelist src) []) as (d & Hd & Hnd & Hkeys & Hget).
  { auto. } { constructor. }
  unfold read_all in Hd. rewrite Hd. simpl.
  rewrite Hget, bool_decide_eq_true_2, Hdoc by done. simpl.
  rewrite Hparse. simpl. rewrite Hone, Hbuild. simpl.
  eexists _, _. split; [reflexivity|]. split; [apply lookup_insert_eq|].
  intros name Hname Hne. split.
  - unfold namelist. rewrite dict_set_keys, Hkeys. auto.
  - rewrite zf_read_dict by (by apply dict_set_NoDup).
    rewrite dict_get_set, bool_decide_eq_false_2 by done.
    by rewrite Hget, bool_decide_eq_true_2.
Qed.

(** C6 at the failing input.  The map is read from the backup
    [a.mmap.bak] and written to [a.mmap] with [backup=True]: the backup copy
    of [a.mmap] overwrites the source before the source is read, and the
    archive written does not hold the preview of the source. *)
Theorem write_over_backup_loses_entries :
  exists mindmap fs' out,
    read example_Env fs_backup (u "a.mmap.bak") = Ok mindmap /\
    write example_Env mindmap (u "a.mmap") true 0 fs_backup = Ok fs' /\
    fs' !! u "a.mmap" = Some (Zip out) /\
    (u "Preview.png" ∉ namelist out) /\
    zf_read out (u "Preview.png") = Raise KeyError /\
    fs' !! u "a.mmap.bak" = fs_backup !! u "a.mmap".
Proof.
  eexists _, _, _. split; [vm_compute; reflexivity|].
  split; [vm_compute; reflexivity|].
  split; [vm_compute; reflexivity|].
  split; [|split; vm_compute; reflexivity].
  vm_compute. intros H. apply list_elem_of_In in H. simpl in H.
  destruct H as [H|[]]. discriminate H.
Qed.

End archive.

(** ** The outline codec: encoding, then decoding *)

Section strings.
Implicit Types (s x a b : str) (c : N) (f : N -> bool).

Lemma dropwhile_app_all f a x :
  forallb f a = true -> dropwhile f (a ++ x) = dropwhile f x.
Proof.
  induction a as [|c a IH]; [reflexivity|]. cbn [forallb app dropwhile].
  intros [-> Ha]%andb_true_iff. exact (IH Ha).
Qed.


Lemma solid_head s :
  solid s = true -> exists c r, s = c :: r /\ isspace c = false.
Proof.
  unfold solid. destruct s as [|c r]; [done|].
  destruct (rev (c :: r)); [done|].
  intros [H _]%andb_true_iff. exists c, r. split; [done|].
  by apply negb_true_iff.
Qed.

Lemma solid_last s :
  solid s = true -> exists r d, s = r ++ [d] /\ isspace d = false.
Proof.
  unfold solid. destruct s as [|c r]; [done|].
  destruct (rev (c :: r)) as [|d l] eqn:Hr; [done|].
  intros [_ H]%andb_true_iff. exists (rev l), d. split.
  - rewrite <- (rev_involutive (c :: r)), Hr. reflexivity.
  - by apply negb_true_iff.
Qed.


Lemma strip_pad a x b :
  forallb isspace a = true -> forallb isspace b = true -> solid x = true ->
  strip (a ++ x ++ b) = x.
Proof.
  intros Ha Hb Hx. unfold strip, strip_with, rstrip_with.
  fold (lstrip (a ++ x ++ b)).
  assert (lstrip (a ++ x ++ b) = x ++ b) as ->.
  { destruct (solid_head x Hx) as (c & r & -> & Hc).
    unfold lstrip, lstrip_with. rewrite dropwhile_app_all by exact Ha.
    cbn. by rewrite Hc. }
  rewrite rev_app_distr, dropwhile_app_all.
  - destruct (solid_last x Hx) as (r & d & -> & Hd).
    rewrite rev_app_distr. cbn [rev app dropwhile]. rewrite Hd.
    cbn [rev]. by rewrite rev_involutive.
  - rewrite forallb_forall in Hb |- *. intros c Hc. apply Hb.
    by apply in_rev.
Qed.

Lemma strip_solid x : solid x = true -> strip x = x.
Proof.
  intros Hx. pose proof (strip_pad [] x [] eq_refl eq_refl Hx) as H.
  by rewrite app_nil_r in H.
Qed.

Lemma strip_spaces a : forallb isspace a = true -> strip a = [].
Proof.
  intros Ha. unfold strip, strip_with, rstrip_with, lstrip_with.
  rewrite <- (app_nil_r a) at 1. rewrite dropwhile_app_all by exact Ha.
  reflexivity.
Qed.

Lemma solid_app x y : solid x = true -> solid y = true -> solid (x ++ y) = true.
Proof.
  intros (c & r & -> & Hc)%solid_head (r' & d & -> & Hd)%solid_last.
  unfold solid. cbn [app]. rewrite app_comm_cons, app_assoc, rev_app_distr.
  cbn. by rewrite Hc, Hd.
Qed.

Lemma solid_app3 x m y :
  solid x = true -> solid y = true -> solid (x ++ m ++ y) = true.
Proof.
  intros (c & r & -> & Hc)%solid_head (r' & d & -> & Hd)%solid_last.
  unfold solid. cbn [app]. rewrite app_comm_cons, !app_assoc, rev_app_distr.
  cbn. by rewrite Hc, Hd.
Qed.




(** *** Searching a text made of a prefix and padded parts *)




Lemma join_solid (bs : list str) :
  Forall (fun b => solid b = true) bs -> bs <> [] ->
  solid (join [32%N] bs) = true.
Proof.
  induction 1 as [|b bs Hb Hbs IH]; [done|]. intros _.
  destruct bs as [|b' bs'].
  - cbn. exact Hb.
  - change (join [32%N] (b :: b' :: bs'))
      with (b ++ [32%N] ++ join [32%N] (b' :: bs')).
    apply solid_app3; [exact Hb | by apply IH].
Qed.


Lemma strip_text_gap x a (bs : list str) :
  solid x = true -> forallb isspace a = true ->
  Forall (fun b => solid b = true) bs ->
  strip (x ++ a ++ join [32%N] bs) =
    match bs with [] => x | _ => x ++ a ++ join [32%N] bs end.
Proof.
  intros Hx Ha Hbs. destruct bs as [|b bs].
  - cbn [join]. rewrite app_nil_r.
    exact (strip_pad [] x a eq_refl Ha Hx).
  - apply strip_solid, solid_app3; [exact Hx | by apply join_solid].
Qed.












End strings.


Ltac N_bits c :=
  destruct c as [|c]; [try done|]; do 7 (try (destruct c as [c|c|]; try done)).



Section item_codec.
Implicit Types (s x a b T S : str) (c : N) (bs : list str) (tk : Task).

(** *** Characters that a string lacks *)











(** *** Dates *)

Lemma iso_date_shape (d : datetime) :
  valid_datetime d = true -> (1000 <= year d)%Z ->
  exists y1 y2 y3 y4 m1 m2 d1 d2,
    strftime d fmt_iso_date = [y1; y2; y3; y4; 45; m1; m2; 45; d1; d2]%N /\
    forallb is_ascii_digit [y1; y2; y3; y4; m1; m2; d1; d2] = true.
Proof.
  intros Hv Hy. destruct (valid_datetime_fields d Hv) as [Hf _].
  destruct (year_digits (year d)) as (a & b & g & e & (? & ? & ? & ? & _) & Ey);
    [lia|].
  destruct (pad2_digits (month d)) as (m1 & m2 & (? & ? & _) & Em); [lia|].
  destruct (pad2_digits (day d)) as (d1 & d2 & (? & ? & _) & Ed); [lia|].
  unfold strftime, fmt_iso_date. cbn [flat_map strftime_directive].
  rewrite Ey, Em, Ed. cbn [app].
  do 8 eexists. split; [reflexivity|].
  cbn [forallb].
  rewrite !(proj2 (is_ascii_digit_spec _)) by lia. reflexivity.
Qed.

Lemma valid_midnight (d : datetime) :
  valid_datetime d = true -> valid_datetime (midnight d) = true.
Proof.
  intros H. unfold valid_datetime in H.
  repeat (apply andb_true_iff in H as [H ?]).
  unfold valid_datetime, midnight.
  cbn [year month day hour minute second microsecond].
  repeat (apply andb_true_intro; split); try assumption; reflexivity.
Qed.

(** A date that the outline shows is read back as its midnight. *)
Lemma strptime_strftime_iso_date (d : datetime) :
  valid_datetime d = true -> (1000 <= year d)%Z ->
  strptime (strftime d fmt_iso_date) fmt_iso_date = Ok (midnight d).
Proof.
  intros Hv Hy. destruct (valid_datetime_fields d Hv) as [Hf _].
  apply strptime_head; [|by apply valid_midnight].
  unfold strftime, fmt_iso_date. cbn [flat_map strftime_directive].
  rewrite app_nil_r.
  eapply format_matches_head; [apply directive_matches_year; lia|].
  cbn [app]. eapply format_matches_head; [apply directive_matches_lit|].
  destruct (directive_matches_pad2 dm (month d) (45%N :: pad2 (day d)))
    as [? Hm]; [simpl; lia|].
  eapply format_matches_head; [exact Hm|]. cbn [app].
  eapply format_matches_head; [apply directive_matches_lit|].
  destruct (directive_matches_pad2 dd (day d) []) as [? Hd]; [simpl; lia|].
  rewrite app_nil_r in Hd.
  eapply format_matches_head; [exact Hd|].
  reflexivity.
Qed.

(** *** The three patterns on the parts that the encoder writes *)




Lemma match_pct_unfold c r :
  match_pct (c :: r) =
    if (c =? 40)%N then
      match takewhile isdecimal r with
      | [] => None
      | d :: ds =>
          match dropwhile isdecimal r with
          | c1 :: c2 :: _ =>
              if (c1 =? 37)%N && (c2 =? 41)%N
              then Some (d :: ds, (1 + length (d :: ds) + 2)%nat)
              else None
          | _ => None
          end
      end
    else None.
Proof.
  destruct (N.eqb_spec c 40) as [->|Hc].
  - unfold match_pct.
    destruct (takewhile isdecimal r) as [|d ds];
      destruct (dropwhile isdecimal r) as [|c1 [|c2 r']]; try reflexivity.
    all: N_bits c1. N_bits c2.
  - N_bits c.
Qed.





Lemma match_link_second x g (n : nat) :
  match_link x = Some (g, n) -> exists c0 r, x = c0 :: glyph_link :: r.
Proof.
  destruct x as [|c0 x]; [discriminate|].
  N_bits c0. destruct x as [|c1 x]; [discriminate|].
  destruct x as [|c2 x]; [discriminate|].
  N_bits c2. destruct x as [|c3 x]; [discriminate|].
  N_bits c3. unfold match_link.
  destruct (N.eqb_spec c1 glyph_link) as [->|]; [|discriminate].
  intros _. eauto.
Qed.

Lemma match_link_needs x g (n : nat) :
  match_link x = Some (g, n) -> glyph_link ∈ x.
Proof. intros (c0 & r & ->)%match_link_second. set_solver. Qed.



(** *** The parts of a line *)







(** *** The steps of [_parse_md_item] on the line of a topic *)















(** *** The line of a topic *)













End item_codec.


Section outline_lines.
Implicit Types (s x a b : str) (c : N) (ls : list str) (t : Topic)
  (h : heap).






(** *** The steps of the loop of [from_markdown] *)














(** *** Building the forest below a branch *)





End outline_lines.


Section outline_codec.
Implicit Types (s x a b : str) (c : N) (ls : list str) (t : Topic)
  (h : heap).












(** *** Branches *)



End outline_codec.


Section outline_roundtrip.
Implicit Types (s x a b : str) (c : N) (ls : list str) (t : Topic)
  (h : heap) (E : Env) (m : MindMap).













End outline_roundtrip.

(** ** The date and task readers *)

Section dates.
Implicit Types (s r : str) (d : directive) (fmt : list directive)
  (t : datetime) (v : Z).

Lemma two_width (p1 p2 : N -> option Z) s v r :
  (v, r) ∈ two p1 p2 s -> (length r + 2 <= length s)%nat.
Proof.
  unfold two. destruct s as [|c1 [|c2 s]]; try by intros ?%elem_of_nil.
  destruct (p1 c1), (p2 c2); try by intros ?%elem_of_nil.
  intros [= _ ->]%list_elem_of_singleton. cbn [length]. lia.
Qed.

Lemma one_width (p : N -> option Z) s v r :
  (v, r) ∈ one p s -> (length r + 1 <= length s)%nat.
Proof.
  unfold one. destruct s as [|c s]; [by intros ?%elem_of_nil|].
  destruct (p c); [|by intros ?%elem_of_nil].
  intros [= _ ->]%list_elem_of_singleton. cbn [length]. lia.
Qed.

Lemma directive_matches_width d s v r :
  (v, r) ∈ directive_matches d s ->
  (length r + directive_width d <= length s)%nat.
Proof.
  destruct d; cbn [directive_matches directive_width];
    rewrite ?elem_of_app; intros H;
    repeat match goal with
           | H : _ \/ _ |- _ => destruct H as [H|H]
           | H : (_, _) ∈ two _ _ _ |- _ => apply two_width in H
           | H : (_, _) ∈ one _ _ |- _ => apply one_width in H
           end; try lia.
  - destruct s as [|c1 [|c2 [|c3 [|c4 s]]]]; try by apply elem_of_nil in H.
    destruct (any_digit c1), (any_digit c2), (any_digit c3), (any_digit c4);
      try by apply elem_of_nil in H.
    apply list_elem_of_singleton in H as [= _ ->]. cbn [length]. lia.
  - destruct s as [|c s]; [by apply elem_of_nil in H|].
    destruct c as [|p]; [by apply elem_of_nil in H|].
    destruct (decide (p = 32%positive)) as [->|Hne].
    + apply one_width in H. cbn [length]. lia.
    + exfalso. revert H. clear -Hne.
      destruct p as [p|p|]; try by intros ?%elem_of_nil.
      do 5 (destruct p as [p|p|]; try by intros ?%elem_of_nil).
      done.
  - destruct s as [|c' s]; [by apply elem_of_nil in H|].
    destruct (lower_ascii c' =? lower_ascii c)%N; [|by apply elem_of_nil in H].
    apply list_elem_of_singleton in H as [= _ ->]. cbn [length]. lia.
Qed.

Lemma format_matches_width fmt s t t' r :
  (t', r) ∈ format_matches fmt s t ->
  (length r + format_width fmt <= length s)%nat.
Proof.
  revert s t. induction fmt as [|d fmt IH]; intros s t; cbn [format_matches].
  - intros [= _ ->]%list_elem_of_singleton.
    change (format_width []) with 0%nat. lia.
  - rewrite list_elem_of_In, in_flat_map. intros ([v r1] & Hd & Hr).
    apply list_elem_of_In in Hd, Hr.
    apply directive_matches_width in Hd. apply IH in Hr.
    change (format_width (d :: fmt))
      with (directive_width d + format_width fmt)%nat. lia.
Qed.

(** A string shorter than the format is not a date of this format. *)
Lemma strptime_short s fmt :
  (length s < format_width fmt)%nat -> strptime s fmt = Raise ValueError.
Proof.
  intros Hl. unfold strptime.
  destruct (format_matches fmt s _) as [|[t r] l] eqn:E; [reflexivity|].
  assert ((t, r) ∈ format_matches fmt s (mk_datetime 1900 1 1 0 0 0 0)) as Hin
    by (rewrite E; left).
  apply format_matches_width in Hin. lia.
Qed.

Lemma us_date_shape (dt : datetime) :
  valid_datetime dt = true -> (1000 <= year dt)%Z ->
  strftime dt fmt_us_date =
    pad2 (month dt) ++ 47%N :: pad2 (day dt) ++ 47%N
      :: str_of_N (Z.to_N (year dt)) /\
  length (strftime dt fmt_us_date) = 10%nat /\
  exists m1 m2 x, strftime dt fmt_us_date = m1 :: m2 :: 47%N :: x.
Proof.
  intros Hv Hy. destruct (valid_datetime_fields dt Hv) as [Hf _].
  destruct (year_digits (year dt)) as (a & b & g & e & _ & Ey); [lia|].
  destruct (pad2_digits (month dt)) as (m1 & m2 & _ & Em); [lia|].
  destruct (pad2_digits (day dt)) as (d1 & d2 & _ & Ed); [lia|].
  unfold strftime, fmt_us_date. cbn [flat_map strftime_directive].
  rewrite app_nil_r. split_and!.
  - reflexivity.
  - rewrite Ey, Em, Ed. reflexivity.
  - rewrite Em. cbn [app]. eauto.
Qed.

(** [_parse_date] reads the three formats: a date and time to the second,
    and a date alone, written year first or month first, as its midnight. *)
Theorem parse_date_formats (dt : datetime) :
  valid_datetime dt = true -> (1000 <= year dt)%Z ->
  _parse_date (strftime dt fmt_iso_datetime) = Some (trunc_us dt) /\
  _parse_date (strftime dt fmt_iso_date) = Some (midnight dt) /\
  _parse_date (strftime dt fmt_us_date) = Some (midnight dt).
Proof.
  intros Hv Hy. destruct (valid_datetime_fields dt Hv) as [Hf _].
  split_and!.
  - unfold _parse_date.
    by rewrite (strptime_strftime_iso_datetime dt Hv Hy).
  - unfold _parse_date. rewrite strptime_short.
    + by rewrite (strptime_strftime_iso_date dt Hv Hy).
    + destruct (iso_date_shape dt Hv Hy)
        as (y1 & y2 & y3 & y4 & m1 & m2 & d1 & d2 & -> & _).
      vm_compute. lia.
  - destruct (us_date_shape dt Hv Hy) as (E & Hl & m1 & m2 & x & Ex).
    unfold _parse_date. rewrite strptime_short.
    2:{ rewrite Hl. vm_compute. lia. }
    assert (strptime (strftime dt fmt_us_date) fmt_iso_date
            = Raise ValueError) as ->.
    { rewrite Ex. unfold strptime, fmt_iso_date. cbn [format_matches].
      assert (directive_matches dY (m1 :: m2 :: 47%N :: x) = []) as ->;
        [|reflexivity].
      cbn [directive_matches]. destruct x as [|c4 x]; [reflexivity|].
      replace (any_digit 47) with (@None Z) by (vm_compute; reflexivity).
      by destruct (any_digit m1), (any_digit m2). }
    assert (strptime (strftime dt fmt_us_date) fmt_us_date
            = Ok (midnight dt)) as ->; [|reflexivity].
    apply strptime_head; [|by apply valid_midnight].
    rewrite E. unfold fmt_us_date.
    destruct (directive_matches_pad2 dm (month dt)
      (47%N :: pad2 (day dt) ++ 47%N :: str_of_N (Z.to_N (year dt))))
      as [? Hm]; [simpl; lia|].
    eapply format_matches_head; [exact Hm|].
    eapply format_matches_head; [apply directive_matches_lit|].
    destruct (directive_matches_pad2 dd (day dt)
      (47%N :: str_of_N (Z.to_N (year dt)))) as [? Hd]; [simpl; lia|].
    eapply format_matches_head; [exact Hd|].
    eapply format_matches_head; [apply directive_matches_lit|].
    eapply format_matches_head.
    { rewrite <- (app_nil_r (str_of_N _)).
      apply directive_matches_year. lia. }
    reflexivity.
Qed.

Lemma parse_date_formats_witness :
  _parse_date (u "2024-02-29T23:59:58") =
    Some (mk_datetime 2024 2 29 23 59 58 0) /\
  _parse_date (u "2024-02-29") = Some (mk_datetime 2024 2 29 0 0 0 0) /\
  _parse_date (u "02/29/2024") = Some (mk_datetime 2024 2 29 0 0 0 0).
Proof.
  apply (parse_date_formats (mk_datetime 2024 2 29 23 59 58 250000));
    [reflexivity | cbn [year]; lia].
Defined.

(** A string of fewer than eight characters is no date of any of the three
    formats: [_parse_date] returns [None]. *)
Theorem parse_date_short (s : str) :
  (length s < 8)%nat -> _parse_date s = None.
Proof.
  intros Hl. unfold _parse_date.
  rewrite !strptime_short; [reflexivity | | |];
    (eapply Nat.lt_le_trans; [exact Hl|]); vm_compute; lia.
Qed.

Lemma parse_date_short_witness : _parse_date (u "2024-1") = None.
Proof. apply (parse_date_short (u "2024-1")). vm_compute. lia. Defined.

End dates.

Section task_reader.

(** [_parse_task] raises exactly when the percentage attribute is the text
    of an infinite [float]: the error is [OverflowError]. *)
Theorem parse_task_raises_iff (elem : Element) (e : exn) :
  _parse_task elem = Raise e <->
  e = OverflowError /\
  exists neg, float_of_str (get elem "TaskPercentage") = Ok (Inf neg).
Proof.
  pose proof (_parse_task_percentage elem) as H.
  destruct (get elem "TaskPercentage") as [|c pct] eqn:Hpct.
  - destruct H as (tk & -> & _). split; [discriminate|].
    intros [_ [neg Hf]]. vm_compute in Hf. discriminate.
  - destruct (float_of_str (c :: pct)) as [[neg m ex|neg|]|e'].
    + destruct H as (tk & -> & _). split; [discriminate|].
      intros [_ [? [=]]].
    + rewrite H. split.
      * intros [= <-]. eauto.
      * by intros [-> _].
    + destruct H as (tk & -> & _). split; [discriminate|].
      intros [_ [? [=]]].
    + destruct H as (tk & -> & _). split; [discriminate|].
      intros [_ [? [=]]].
Qed.

End task_reader.

(** ** The outline decoder: what it never raises on, and what it drops *)

Section lenient_decoder.
Implicit Types (s x pre post g : str) (c : N) (m : str -> option (str * nat))
  (tk : Task).

Lemma decimal_value_spec c (d : N) :
  decimal_value c = Some d ->
  exists z, z ∈ decimal_zeros /\ (z <= c < z + 10)%N /\ d = (c - z)%N.
Proof.
  unfold decimal_value.
  destruct (List.find _ decimal_zeros) as [z|] eqn:E; [|discriminate].
  intros [= <-]. apply find_some in E as [Hin Ht].
  apply andb_true_iff in Ht as [?%N.leb_le ?%N.ltb_lt].
  exists z. split_and!; [by apply list_elem_of_In | lia | lia | reflexivity].
Qed.

(** Every decimal digit that is not ASCII is beyond the ASCII range and is
    not a space. *)
Lemma decimal_zeros_table (z : N) (i : N) :
  z ∈ decimal_zeros -> (i < 10)%N ->
  (z = 48%N \/ (128 <= z)%N) /\ isspace (z + i) = false.
Proof.
  intros Hz Hi.
  assert (forallb (fun z =>
            ((z =? 48) || (128 <=? z))%N
            && forallb (fun i => negb (isspace (z + i)))
                 [0; 1; 2; 3; 4; 5; 6; 7; 8; 9]%N) decimal_zeros = true) as H
    by (vm_compute; reflexivity).
  rewrite forallb_forall in H. apply list_elem_of_In, H in Hz.
  apply andb_true_iff in Hz as [H1 H2]. split.
  - apply orb_true_iff in H1 as [?%N.eqb_eq|?%N.leb_le]; auto.
  - rewrite forallb_forall in H2. apply negb_true_iff, H2.
    assert (i = 0 \/ i = 1 \/ i = 2 \/ i = 3 \/ i = 4 \/ i = 5 \/ i = 6 \/
            i = 7 \/ i = 8 \/ i = 9)%N as Hcases by lia.
    cbn [In]. intuition (subst; auto).
Qed.

Lemma to_ascii_decimal c :
  isdecimal c = true -> is_ascii_digit (to_ascii_char c) = true.
Proof.
  unfold isdecimal. destruct (decimal_value c) as [d|] eqn:E; [|discriminate].
  intros _. destruct (decimal_value_spec c d E) as (z & Hz & Hc & ->).
  destruct (decimal_zeros_table z (c - z) Hz ltac:(lia)) as [Hz' Hsp].
  replace (z + (c - z))%N with c in Hsp by lia.
  unfold to_ascii_char. rewrite E, Hsp.
  destruct (N.ltb_spec c 128); apply is_ascii_digit_spec; lia.
Qed.

(** [int] reads every run of decimal digits of at most
    [int_max_str_digits] characters. *)
Lemma int_of_str_decimal g :
  g <> [] -> forallb isdecimal g = true ->
  (length g <= int_max_str_digits)%nat ->
  exists z, int_of_str g = Ok z.
Proof.
  intros Hne Hg Hl. unfold int_of_str.
  assert (forallb is_ascii_digit (map to_ascii_char g) = true) as Hd.
  { apply forallb_forall. intros c (c0 & <- & Hc0)%in_map_iff.
    apply to_ascii_decimal. rewrite forallb_forall in Hg. by apply Hg. }
  rewrite (strip_with_id _ _ (digit_not_Py_ISSPACE _ Hd)).
  rewrite (digits_head_not_sign _ Hd).
  rewrite (strip_underscores_digits 0 _ Hd) by done.
  destruct (map to_ascii_char g) as [|d ds] eqn:E.
  - destruct g; [done | discriminate].
  - rewrite Hd. rewrite (proj2 (Nat.ltb_ge _ _)); [eauto|].
    rewrite <- E, length_map. exact Hl.
Qed.

Lemma takewhile_spec (f : N -> bool) s :
  forallb f (takewhile f s) = true /\
  (length (takewhile f s) <= length s)%nat.
Proof.
  induction s as [|c s [IH1 IH2]]; [done|]. cbn [takewhile].
  destruct (f c) eqn:E; cbn [forallb length]; [|split; [done|lia]].
  rewrite E, IH1. split; [done|lia].
Qed.

Lemma match_pct_group x g (n : nat) :
  match_pct x = Some (g, n) ->
  g <> [] /\ forallb isdecimal g = true /\ (length g <= length x)%nat.
Proof.
  destruct x as [|c r]; [discriminate|]. rewrite match_pct_unfold.
  destruct (c =? 40)%N; [|discriminate].
  destruct (takewhile_spec isdecimal r) as [H1 H2].
  destruct (takewhile isdecimal r) as [|d ds]; [discriminate|].
  destruct (dropwhile isdecimal r) as [|c1 [|c2 r']]; try discriminate.
  destruct ((c1 =? 37)%N && (c2 =? 41)%N); [|discriminate].
  intros [= <- _]. split_and!; [done | done |]. cbn [length] in *. lia.
Qed.

Lemma search_found m s pre g post :
  search m s = Some (pre, g, post) ->
  (exists x (n : nat), m x = Some (g, n) /\ (length x <= length s)%nat) /\
  (length pre + length post <= length s)%nat.
Proof.
  revert pre. induction s as [|c s IH]; intros pre; cbn [search].
  - destruct (m []) as [[g' n]|] eqn:E; [|discriminate].
    intros [= <- <- <-]. split; [eauto|]. by rewrite drop_nil.
  - destruct (m (c :: s)) as [[g' n]|] eqn:E.
    + intros [= <- <- <-]. split; [eauto|]. rewrite length_drop.
      cbn [length]. lia.
    + destruct (search m s) as [[[pre' g'] post']|]; [|discriminate].
      intros [= <- <- <-].
      destruct (IH pre' eq_refl) as [(x & n & Hx & Hl) Hlen].
      split; [exists x, n; split; [done|cbn [length]; lia]|].
      cbn [length]. lia.
Qed.

Lemma dropwhile_length (f : N -> bool) s :
  (length (dropwhile f s) <= length s)%nat.
Proof.
  induction s as [|c s IH]; [done|]. cbn [dropwhile].
  destruct (f c); cbn [length]; lia.
Qed.

Lemma strip_length s : (length (strip s) <= length s)%nat.
Proof.
  unfold strip, strip_with, lstrip_with, rstrip_with.
  rewrite length_rev.
  etrans; [apply dropwhile_length|]. rewrite length_rev.
  apply dropwhile_length.
Qed.

Lemma replace_empty_length c s : (length (replace_empty c s) <= length s)%nat.
Proof.
  unfold replace_empty. induction s as [|d s IH]; [done|].
  cbn [List.filter]. destruct (negb (d =? c)%N); cbn [length]; lia.
Qed.

Lemma md_priority_length tk x :
  (length (md_priority tk x).2 <= length x)%nat.
Proof.
  unfold md_priority. repeat case_match; cbn [snd]; try done;
    (etrans; [apply strip_length | apply replace_empty_length]).
Qed.

Lemma md_due_length tk x : (length (md_due tk x).2 <= length x)%nat.
Proof.
  unfold md_due.
  destruct (search match_due x) as [[[pre g] post]|] eqn:E; [|done].
  apply search_found in E as [_ Hl]. cbn [snd]. rewrite length_app.
  pose proof (strip_length pre). pose proof (strip_length post). lia.
Qed.

Lemma md_percentage_short tk x :
  (length x <= int_max_str_digits)%nat ->
  exists r, md_percentage tk x = Ok r.
Proof.
  intros Hl. unfold md_percentage.
  destruct (search match_pct x) as [[[pre g] post]|] eqn:E; [|eauto].
  destruct (percentage tk <? 100)%Z; [|eauto].
  apply search_found in E as [(y & n & Hm & Hy) _].
  apply match_pct_group in Hm as (Hne & Hd & Hg).
  destruct (int_of_str_decimal g Hne Hd ltac:(lia)) as [z ->].
  cbn [mbind result_bind]. eauto.
Qed.

Lemma parse_md_item_short x :
  (length x <= int_max_str_digits)%nat -> exists o, _parse_md_item x = Ok o.
Proof.
  intros Hl. unfold _parse_md_item.
  assert (forall tk0 y, (length y <= length x)%nat ->
            exists tk' y',
              (let '(task, text) := md_priority tk0 y in
               let '(task, text) := md_due task text in
               '(task, text) ← md_percentage task text;
               Ok (Some task, text)) = Ok (Some tk', y')) as Hchain.
  { intros tk0 y Hy.
    pose proof (md_priority_length tk0 y) as H1.
    destruct (md_priority tk0 y) as [t1 y1]. cbn [snd] in H1.
    pose proof (md_due_length t1 y1) as H2.
    destruct (md_due t1 y1) as [t2 y2]. cbn [snd] in H2.
    destruct (md_percentage_short t2 y2 ltac:(lia)) as [[t3 y3] ->].
    cbn [mbind result_bind]. eauto. }
  destruct (startswith x (u "[x] ")).
  - destruct (Hchain (mk_Task 100 NONE None None) (drop 4 x))
      as (tk' & y' & ->); [rewrite length_drop; lia|].
    cbn [mbind result_bind]. destruct (scan match_link y' 0). eauto.
  - destruct (startswith x (u "[ ] ")).
    + destruct (Hchain Task_default (drop 4 x))
        as (tk' & y' & ->); [rewrite length_drop; lia|].
      cbn [mbind result_bind]. destruct (scan match_link y' 0). eauto.
    + cbn [mbind result_bind]. destruct (scan match_link x 0). eauto.
Qed.

Lemma md_step_short root (st : md_state) line :
  (length line <= int_max_str_digits)%nat ->
  exists st', md_step root st line = Ok st'.
Proof.
  intros Hl. unfold md_step.
  destruct (startswith (strip line) (u "## ")).
  - destruct (alloc _ _). eauto.
  - destruct (startswith (strip line) (u "- ")); [|eauto].
    destruct (st_branch st); [|eauto].
    destruct (parse_md_item_short (drop 2 (strip line))) as [o ->].
    { rewrite length_drop. pose proof (strip_length line). lia. }
    cbn [mbind result_bind]. destruct (alloc _ _). eauto.
Qed.

Lemma md_loop_short root (ls : list str) (st : md_state) :
  Forall (fun l => (length l <= int_max_str_digits)%nat) ls ->
  exists st', md_loop root ls st = Ok st'.
Proof.
  intros H. revert st. induction H as [|l ls Hl _ IH]; intros st; [by eexists|].
  cbn [md_loop]. destruct (md_step_short root st l Hl) as [st1 ->].
  cbn [mbind result_bind]. apply IH.
Qed.

Lemma drop_until_dashes_Forall (P : str -> Prop) (ls : list str) :
  Forall P ls -> Forall P (drop_until_dashes ls).
Proof.
  induction 1 as [|l ls Hl Hls IH]; [constructor|].
  cbn [drop_until_dashes]. by destruct (is_dashes l).
Qed.

Lemma skip_frontmatter_Forall (P : str -> Prop) (ls : list str) :
  Forall P ls -> Forall P (skip_frontmatter ls).
Proof.
  intros H. unfold skip_frontmatter. destruct H as [|l ls Hl Hls]; [done|].
  destruct (is_dashes l); [by apply drop_until_dashes_Forall | by constructor].
Qed.

Lemma find_h1_Forall (P : str -> Prop) (ls : list str) :
  Forall P ls -> Forall P (find_h1 ls).2.
Proof.
  induction 1 as [|l ls Hl Hls IH]; [constructor|].
  cbn [find_h1]. by destruct (is_h1 l).
Qed.

(** The decoder raises only on a long line: when no line of the text has
    more than [int_max_str_digits] characters, [from_markdown] returns a
    map. *)
Theorem from_markdown_short_lines (text : str) :
  forallb (fun l => (length l <=? int_max_str_digits)%nat) (split_lines text)
    = true ->
  exists h mr, from_markdown text = Ok (h, mr).
Proof.
  intros H. rewrite from_markdown_unfold.
  assert (Forall (fun l => (length l <= int_max_str_digits)%nat)
            (find_h1 (skip_frontmatter (split_lines text))).2) as Hls.
  { apply find_h1_Forall, skip_frontmatter_Forall.
    apply Forall_forall. intros l Hin. rewrite forallb_forall in H.
    by apply Nat.leb_le, H, list_elem_of_In. }
  destruct (find_h1 (skip_frontmatter (split_lines text))) as [rt ls].
  cbn [snd] in Hls. cbv zeta.
  destruct (md_loop_short 0%nat ls
              (mk_md_state
                 match rt with
                 | Some t => alter (set_text t) 0%nat [Topic_default]
                 | None => [Topic_default]
                 end None []) Hls) as [st ->].
  cbn [mbind result_bind]. eauto.
Qed.

Lemma from_markdown_short_lines_witness :
  exists h mr, from_markdown outline_early_items = Ok (h, mr).
Proof.
  apply (from_markdown_short_lines outline_early_items).
  vm_compute. reflexivity.
Defined.

End lenient_decoder.

Section decoder_edges.
Implicit Types (ls : list str) (text : str).

Lemma find_h1_none ls :
  forallb (fun l => negb (is_h1 l)) ls = true -> find_h1 ls = (None, []).
Proof.
  induction ls as [|l ls IH]; [reflexivity|]. cbn [forallb find_h1].
  intros [Hl Hls]%andb_true_iff. apply negb_true_iff in Hl. rewrite Hl.
  exact (IH Hls).
Qed.

Lemma from_markdown_no_heading text :
  forallb (fun l => negb (is_h1 l)) (skip_frontmatter (split_lines text))
    = true ->
  from_markdown text = Ok empty_outline.
Proof.
  intros H. rewrite from_markdown_unfold, (find_h1_none _ H). reflexivity.
Qed.

Lemma drop_until_dashes_none ls :
  forallb (fun l => negb (is_dashes l)) ls = true -> drop_until_dashes ls = [].
Proof.
  induction ls as [|l ls IH]; [reflexivity|]. cbn [forallb drop_until_dashes].
  intros [Hl Hls]%andb_true_iff. apply negb_true_iff in Hl. rewrite Hl.
  exact (IH Hls).
Qed.

(** Without a top-level heading after the frontmatter, the search for it
    runs to the end of the text: no line is read as a branch or as an item,
    and the map has an empty root only. *)
Theorem from_markdown_without_h1 text :
  forallb (fun l => negb (is_h1 l)) (skip_frontmatter (split_lines text))
    = true ->
  from_markdown text = Ok empty_outline.
Proof. apply from_markdown_no_heading. Qed.

Lemma from_markdown_without_h1_witness :
  from_markdown outline_without_h1 = Ok empty_outline.
Proof.
  apply (from_markdown_without_h1 outline_without_h1). vm_compute. reflexivity.
Defined.

(** A frontmatter that is opened and never closed takes the whole text: the
    map has an empty root only, whatever the lines after the opening
    [---] are. *)
Theorem from_markdown_unclosed_frontmatter text l ls :
  split_lines text = l :: ls -> is_dashes l = true ->
  forallb (fun l => negb (is_dashes l)) ls = true ->
  from_markdown text = Ok empty_outline.
Proof.
  intros E Hl Hls. apply from_markdown_no_heading. rewrite E.
  unfold skip_frontmatter. rewrite Hl, (drop_until_dashes_none ls Hls).
  reflexivity.
Qed.

Lemma from_markdown_unclosed_frontmatter_witness :
  from_markdown outline_unclosed_frontmatter = Ok empty_outline.
Proof.
  apply (from_markdown_unclosed_frontmatter outline_unclosed_frontmatter
           (u "---") [u "title: x"; u "# R"; u "## B"; u "- c"]);
    vm_compute; reflexivity.
Defined.

End decoder_edges.

(** ** Traversals and searches of the topic tree *)

Section traversals.
Implicit Types (t : Topic) (ts : list Topic) (m : MindMap).

Lemma walk_unfold t : walk t = t :: flat_map walk (children t).
Proof. by destruct t. Qed.

Lemma count_unfold t : count t = S (list_sum (List.map count (children t))).
Proof. by destruct t. Qed.

(** [count] is the number of topics that [walk] yields. *)
Theorem count_walk t : count t = length (walk t).
Proof.
  induction t as [t IH] using Topic_ind'.
  rewrite count_unfold, walk_unfold. cbn [length]. f_equal.
  induction IH as [|c cs Hc _ IHcs]; [reflexivity|].
  change (list_sum (List.map count (c :: cs)))
    with (count c + list_sum (List.map count cs))%nat.
  cbn [flat_map]. rewrite length_app, Hc, IHcs.
  reflexivity.
Qed.

Lemma Topic_find_all_unfold lower (x : str) t :
  Topic_find_all lower x t =
    (if text_matches lower x t then [t] else [])
    ++ flat_map (Topic_find_all lower x) (children t).
Proof. by destruct t. Qed.

Lemma Topic_find_unfold lower (x : str) t :
  Topic_find lower x t =
    if text_matches lower x t then Some t
    else
      (fix each (cs : list Topic) : option Topic :=
         match cs with
         | [] => None
         | child :: cs' =>
             match Topic_find lower x child with
             | Some result => Some result
             | None => each cs'
             end
         end) (children t).
Proof. by destruct t. Qed.

Lemma find_all_filter_walk lower (x : str) t :
  Topic_find_all lower x t = List.filter (text_matches lower x) (walk t).
Proof.
  induction t as [t IH] using Topic_ind'.
  rewrite Topic_find_all_unfold, walk_unfold. cbn [List.filter].
  assert (flat_map (Topic_find_all lower x) (children t) =
          List.filter (text_matches lower x) (flat_map walk (children t)))
    as ->; [|by destruct (text_matches lower x t)].
  induction IH as [|c cs Hc _ IHcs]; [reflexivity|].
  cbn [flat_map]. by rewrite List.filter_app, Hc, IHcs.
Qed.

(** [find_all] returns the topics of [walk] whose text matches, in the
    order of [walk]. *)
Theorem find_all_walk lower (x : str) t :
  Topic_find_all lower x t = List.filter (text_matches lower x) (walk t).
Proof. apply find_all_filter_walk. Qed.

Lemma find_head_find_all lower (x : str) t :
  Topic_find lower x t = head (Topic_find_all lower x t).
Proof.
  induction t as [t IH] using Topic_ind'.
  rewrite Topic_find_unfold, Topic_find_all_unfold.
  destruct (text_matches lower x t); [reflexivity|]. cbn [app].
  induction IH as [|c cs Hc _ IHcs]; [reflexivity|].
  cbn [flat_map]. rewrite Hc, IHcs.
  by destruct (Topic_find_all lower x c).
Qed.

(** [find] returns the first topic, in the order of [walk], whose text
    matches, and [None] when [walk] yields no such topic. *)
Theorem find_first_of_walk lower (x : str) t :
  Topic_find lower x t = head (List.filter (text_matches lower x) (walk t)).
Proof. by rewrite find_head_find_all, find_all_filter_walk. Qed.

Lemma TaskStatus_eqb_spec (a b : TaskStatus) :
  TaskStatus_eqb a b = true <-> a = b.
Proof. destruct a, b; cbn; split; congruence. Qed.

(** Every topic with a task is listed under exactly one status: the three
    filtered lists of [tasks] have together the length of the unfiltered
    one. *)
Theorem tasks_by_status m :
  length (MindMap_tasks None m) =
    (length (MindMap_tasks (Some NOT_STARTED) m)
     + length (MindMap_tasks (Some IN_PROGRESS) m)
     + length (MindMap_tasks (Some COMPLETE) m))%nat.
Proof.
  unfold MindMap_tasks. induction (walk (root m)) as [|t ts IH]; [reflexivity|].
  cbn [List.filter]. destruct (task t) as [tk|]; [|exact IH].
  destruct (status tk); cbn [TaskStatus_eqb length]; lia.
Qed.

End traversals.

(** ** Depth, path and new children *)

Section parent_loops.
Implicit Types (h : heap) (x y r : ref) (o : TopicObj) (fuel n d : nat).

Lemma depth_loop_chain h n x y :
  parent_chain h n x y ->
  forall fuel d,
    depth_loop fuel h (Some x) d =
      if (n <=? fuel)%nat then depth_loop (fuel - n) h (Some y) (d + n)
      else OutOfFuel.
Proof.
  induction 1 as [x|n x o p y Hx Hp _ IH]; intros fuel d.
  - by rewrite Nat.sub_0_r, Nat.add_0_r.
  - destruct fuel as [|fuel]; [reflexivity|].
    cbn [depth_loop]. rewrite Hx, Hp, IH.
    change (S n <=? S fuel)%nat with (n <=? fuel)%nat.
    change (S fuel - S n)%nat with (fuel - n)%nat.
    by rewrite Nat.add_succ_r.
Qed.

Lemma path_loop_chain h n x y :
  parent_chain h n x y ->
  exists ts, length ts = n /\ head ts = (if n is O then None else o_text <$> h !! x) /\
    forall fuel parts,
      path_loop fuel h (Some x) parts =
        if (n <=? fuel)%nat then path_loop (fuel - n) h (Some y) (parts ++ ts)
        else OutOfFuel.
Proof.
  induction 1 as [x|n x o p y Hx Hp _ (ts & Hlen & _ & IH)].
  - exists []. split_and!; [done..|]. intros fuel parts.
    by rewrite Nat.sub_0_r, app_nil_r.
  - exists (o_text o :: ts). split_and!.
    + cbn. by rewrite Hlen.
    + by rewrite Hx.
    + intros fuel parts. destruct fuel as [|fuel]; [reflexivity|].
      cbn [path_loop]. rewrite Hx, Hp, IH.
      change (S n <=? S fuel)%nat with (n <=? fuel)%nat.
      change (S fuel - S n)%nat with (fuel - n)%nat.
      by rewrite <- app_assoc.
Qed.

Lemma depth_loop_None fuel h d : depth_loop fuel h None d = Returned d.
Proof. by destruct fuel. Qed.

Lemma path_loop_None fuel h parts : path_loop fuel h None parts = Returned parts.
Proof. by destruct fuel. Qed.

Lemma depth_loop_cycle h x n :
  parent_chain h (S n) x x ->
  forall fuel d, depth_loop fuel h (Some x) d = OutOfFuel.
Proof.
  intros Hch fuel. induction fuel as [fuel IH] using lt_wf_ind. intros d.
  rewrite (depth_loop_chain h (S n) x x Hch).
  destruct (Nat.leb_spec (S n) fuel); [|reflexivity].
  apply IH. lia.
Qed.

Lemma path_loop_cycle h x n :
  parent_chain h (S n) x x ->
  forall fuel parts, path_loop fuel h (Some x) parts = OutOfFuel.
Proof.
  intros Hch fuel. induction fuel as [fuel IH] using lt_wf_ind. intros parts.
  destruct (path_loop_chain h (S n) x x Hch) as (ts & _ & _ & ->).
  destruct (Nat.leb_spec (S n) fuel); [|reflexivity].
  apply IH. lia.
Qed.

(** On a topic whose parent links form a cycle, as [move_to] leaves them
    when a topic is moved below itself, the loops of [depth] and of [path]
    never end: whatever the bound, they are still running. *)
Theorem depth_path_on_cycle h x :
  on_parent_cycle h x ->
  forall fuel, depth fuel h x = OutOfFuel /\ path fuel h x = OutOfFuel.
Proof.
  intros [n Hch] fuel. split.
  - inversion Hch as [|n' x' o p y Hx Hp Hch' En Ex Ey]; subst.
    unfold depth. rewrite Hx, Hp.
    rewrite (depth_loop_chain h n p x Hch').
    destruct (Nat.leb_spec n fuel); [|reflexivity].
    by apply (depth_loop_cycle h x n).
  - unfold path. by rewrite (path_loop_cycle h x n Hch).
Qed.

Lemma depth_path_on_cycle_witness :
  on_parent_cycle heap_cycle 1 /\
  depth 100 heap_cycle 1 = OutOfFuel /\ path 100 heap_cycle 1 = OutOfFuel.
Proof.
  assert (on_parent_cycle heap_cycle 1) as H.
  { exists 1. econstructor; [reflexivity | reflexivity |].
    econstructor; [reflexivity | reflexivity | constructor]. }
  split; [exact H|]. exact (depth_path_on_cycle heap_cycle 1 H 100).
Defined.

(** Below a topic without parent that is reached in [n] parent links,
    [depth] returns [n] as soon as the bound allows [n] iterations, and
    [path] returns [n + 1] texts, the first the text of that topic and the
    last the text of the topic itself. *)
Theorem depth_path_below_root h n x r o ox :
  parent_chain h n x r -> h !! r = Some o -> o_parent o = None ->
  h !! x = Some ox ->
  forall fuel, (n <= fuel)%nat ->
    depth fuel h x = Returned n /\
    exists ps, path (S fuel) h x = Returned ps /\ length ps = S n /\
      head ps = Some (o_text o) /\ last ps = Some (o_text ox).
Proof.
  intros Hch Hr Hroot Hx fuel Hfuel. split.
  - unfold depth. rewrite Hx.
    inversion Hch as [|n' x' o' p y Hx' Hp Hch' En Ex Ey]; subst.
    + assert (ox = o) as -> by congruence. rewrite Hroot.
      by destruct fuel.
    + assert (ox = o') as -> by congruence. rewrite Hp.
      rewrite (depth_loop_chain h n' p r Hch').
      destruct (Nat.leb_spec n' (fuel)); [|lia].
      destruct (fuel - n')%nat as [|k] eqn:Ek; [lia|].
      cbn [depth_loop]. by rewrite Hr, Hroot, depth_loop_None.
  - unfold path.
    destruct (path_loop_chain h n x r Hch) as (ts & Hlen & Hhd & ->).
    destruct (Nat.leb_spec n (S fuel)); [|lia].
    destruct (S fuel - n)%nat as [|k] eqn:Ek; [lia|].
    cbn [path_loop app]. rewrite Hr, Hroot, path_loop_None.
    eexists; split; [reflexivity|]. split_and!.
    + rewrite length_rev, length_app. cbn. lia.
    + by rewrite rev_app_distr.
    + rewrite rev_app_distr. cbn [rev app].
      destruct Hch as [x|n x o' p y Hx' Hp Hch].
      * destruct ts; [|done]. cbn. congruence.
      * rewrite Hx in Hhd. destruct ts as [|t ts]; [done|].
        cbn in Hhd. injection Hhd as ->.
        cbn [rev]. by rewrite app_comm_cons, last_snoc.
Qed.

Lemma depth_path_below_root_witness :
  depth 5 heap_RABC 2 = Returned 2 /\
  exists ps, path 6 heap_RABC 2 = Returned ps /\ length ps = 3 /\
    head ps = Some (u "Root") /\ last ps = Some (u "C").
Proof.
  refine (depth_path_below_root heap_RABC 2 2 0
            (topic_named "Root" [1; 3] None) (topic_named "C" [] (Some 1))
            _ eq_refl eq_refl eq_refl 5 _); [|lia].
  econstructor; [reflexivity | reflexivity |].
  econstructor; [reflexivity | reflexivity | constructor].
Defined.

End parent_loops.

Section add_child_props.
Implicit Types (h : heap) (x y r : ref) (o : TopicObj) (fuel n d : nat).

Lemma depth_loop_shift fuel h node d k :
  depth_loop fuel h node d = Returned k ->
  depth_loop fuel h node (S d) = Returned (S k).
Proof.
  revert node d. induction fuel as [|fuel IH]; intros [r|] d; cbn; try congruence.
  destruct (h !! r) as [o|]; [apply IH | congruence].
Qed.

Lemma path_loop_prefix fuel h node pre parts qs :
  path_loop fuel h node parts = Returned qs ->
  path_loop fuel h node (pre ++ parts) = Returned (pre ++ qs).
Proof.
  revert node parts.
  induction fuel as [|fuel IH]; intros [r|] parts; cbn; try congruence.
  destruct (h !! r) as [o|]; [|congruence].
  intros H. rewrite <- app_assoc. by apply IH.
Qed.

Lemma depth_loop_ext h h' :
  same_links h h' ->
  forall fuel node d k,
    depth_loop fuel h node d = Returned k ->
    depth_loop fuel h' node d = Returned k.
Proof.
  intros Hext. induction fuel as [|fuel IH]; intros [r|] d k; cbn; try congruence.
  destruct (h !! r) as [o|] eqn:Hr; [|congruence].
  destruct (Hext r o Hr) as (o' & -> & -> & _). apply IH.
Qed.

Lemma path_loop_ext h h' :
  same_links h h' ->
  forall fuel node parts qs,
    path_loop fuel h node parts = Returned qs ->
    path_loop fuel h' node parts = Returned qs.
Proof.
  intros Hext. induction fuel as [|fuel IH]; intros [r|] parts qs; cbn;
    try congruence.
  destruct (h !! r) as [o|] eqn:Hr; [|congruence].
  destruct (Hext r o Hr) as (o' & -> & -> & ->). apply IH.
Qed.

Lemma add_child_same_links h self text kwargs :
  same_links h (add_child self text kwargs h).2.
Proof.
  intros r o Hr. unfold add_child, alloc, append_child. cbn [snd].
  assert (r < length h)%nat as Hlt by (apply lookup_lt_is_Some; eauto).
  destruct (decide (self = r)) as [->|Hne].
  - rewrite list_lookup_alter_eq, lookup_app_l, Hr by done.
    eexists. split; [reflexivity|]. done.
  - rewrite list_lookup_alter_ne, lookup_app_l, Hr by done.
    eexists. split; [reflexivity|]. done.
Qed.

(** [add_child] makes the new topic the last child of [self], with [self]
    as its parent; the new topic is one level below [self], and its path is
    the path of [self] followed by its own text. *)
Theorem add_child_depth_path h self text kwargs o :
  h !! self = Some o ->
  exists child h',
    add_child self text kwargs h = (child, h') /\
    h' !! child = Some (set_parent (Some self) (set_text text kwargs)) /\
    h' !! self = Some (set_children (o_children o ++ [child]) o) /\
    (forall fuel d, depth fuel h self = Returned d ->
                    depth (S fuel) h' child = Returned (S d)) /\
    (forall fuel ps, path fuel h self = Returned ps ->
                     path (S fuel) h' child = Returned (ps ++ [text])).
Proof.
  intros Hself.
  assert (self < length h)%nat as Hlt by (apply lookup_lt_is_Some; eauto).
  pose proof (add_child_same_links h self text kwargs) as Hext.
  destruct (add_child self text kwargs h) as [child h'] eqn:Hadd.
  exists child, h'. split; [reflexivity|].
  unfold add_child, alloc, append_child in Hadd.
  injection Hadd as <- <-. cbn [snd] in Hext.
  set (h' := alter _ self _) in *.
  assert (h' !! length h =
          Some (set_parent (Some self) (set_text text kwargs))) as Hchild.
  { unfold h'. rewrite list_lookup_alter_ne by lia.
    rewrite lookup_app_r by lia. by rewrite Nat.sub_diag. }
  assert (h' !! self = Some (set_children (o_children o ++ [length h]) o))
    as Hself'.
  { unfold h'. by rewrite list_lookup_alter_eq, lookup_app_l, Hself. }
  split_and!; [exact Hchild | exact Hself' | |].
  - intros fuel d. unfold depth. rewrite Hself, Hchild.
    cbn [o_parent set_parent depth_loop]. rewrite Hself'.
    cbn [o_parent set_children]. intros H.
    by apply depth_loop_shift, (depth_loop_ext h h' Hext).
  - intros fuel ps. unfold path.
    destruct (path_loop fuel h (Some self) []) as [qs| |] eqn:Hqs; try done.
    intros [= <-].
    apply (path_loop_ext h h' Hext), (path_loop_prefix _ _ _ [text]) in Hqs.
    rewrite app_nil_r in Hqs.
    cbn [path_loop]. rewrite Hchild.
    cbn [o_parent o_text set_parent set_text app]. rewrite Hqs.
    by rewrite rev_app_distr.
Qed.

Lemma add_child_depth_path_witness :
  exists child h',
    add_child 2 (u "D") Topic_default heap_RABC = (child, h') /\
    h' !! child
      = Some (set_parent (Some 2) (set_text (u "D") Topic_default)) /\
    h' !! 2
      = Some (set_children (o_children (topic_named "C" [] (Some 1))
                            ++ [child])
                (topic_named "C" [] (Some 1))) /\
    (forall fuel d, depth fuel heap_RABC 2 = Returned d ->
                    depth (S fuel) h' child = Returned (S d)) /\
    (forall fuel ps, path fuel heap_RABC 2 = Returned ps ->
                     path (S fuel) h' child = Returned (ps ++ [u "D"])).
Proof.
  exact (add_child_depth_path heap_RABC 2 (u "D") Topic_default
           (topic_named "C" [] (Some 1)) eq_refl).
Defined.

End add_child_props.

(** ** Writing a file and reading it back *)

Section files.
Implicit Types (m : MindMap) (fs : filesystem) (path : str).







Lemma read_document E fs path out data root_elem one e :
  fs !! path = Some (Zip out) ->
  Document_xml ∈ namelist out ->
  zf_read out Document_xml = Ok data ->
  fromstring E data = Ok root_elem ->
  find_descendant root_elem (qn "OneTopic") = Some one ->
  find one (qn "Topic") = Some e ->
  read E fs path = (root ← _parse_topic E e; Ok (MindMap_of root path)).
Proof.
  intros Hfs Hin Hread Hparse Hone Htopic. unfold read, ZipFile_open.
  rewrite Hfs. cbn [mbind result_bind].
  rewrite bool_decide_eq_true_2 by exact Hin.
  rewrite Hread. cbn [mbind result_bind]. rewrite Hparse.
  cbn [mbind result_bind]. by rewrite Hone, Htopic.
Qed.

Lemma Element_ind' (P : Element -> Prop) :
  (forall e, Forall P (echildren e) -> P e) -> forall e, P e.
Proof.
  intros H. fix IH 1. intros [tg atr tx cs].
  apply H. cbn [echildren].
  induction cs as [|c cs IHcs]; constructor; [apply IH | apply IHcs].
Qed.

Lemma find_descendant_unfold (e : Element) t :
  find_descendant e t = find_in_children t (echildren e).
Proof. by destruct e. Qed.

Lemma update_descendant_unfold f (e : Element) t :
  update_descendant f e t =
    mk_Element (tag e) (attrib e) (etext e)
      (update_in_children f t (echildren e)).
Proof. by destruct e. Qed.

Lemma tag_update_descendant f (e : Element) t :
  tag (update_descendant f e t) = tag e.
Proof. by destruct e. Qed.

(** [update_descendant] changes the element that [find_descendant]
    returns, and [find_descendant] then returns the changed element. *)
Lemma find_update_descendant f t (e one : Element) :
  (forall c, tag (f c) = tag c) ->
  find_descendant e t = Some one ->
  find_descendant (update_descendant f e t) t = Some (f one).
Proof.
  intros Hf. revert one. induction e as [e IH] using Element_ind'.
  intros one. rewrite update_descendant_unfold, !find_descendant_unfold.
  cbn [echildren].
  induction IH as [|c cs Hc _ IHcs]; [done|].
  cbn [find_in_children update_in_children].
  destruct (bool_decide (tag c = t)) eqn:Htag.
  - intros [= <-]. cbn [find_in_children]. by rewrite Hf, Htag.
  - destruct (find_descendant c t) as [r|] eqn:Hr.
    + intros [= <-]. cbn [find_in_children].
      rewrite tag_update_descendant, Htag. by rewrite (Hc r eq_refl).
    + intros Hone. cbn [find_in_children]. rewrite Htag, Hr.
      by apply IHcs.
Qed.

Lemma find_remove_first (tg : string) (cs : list Element) :
  (length (List.filter (is_tag tg) cs) <= 1)%nat ->
  List.find (is_tag tg) (remove_first (qn tg) cs) = None.
Proof.
  induction cs as [|c cs IH]; [reflexivity|].
  cbn [List.filter remove_first]. unfold is_tag at 1.
  destruct (bool_decide (tag c = qn tg)) eqn:Htag.
  - cbn [length]. intros Hlen.
    destruct (List.filter (is_tag tg) cs) as [|x l] eqn:Hf; [|cbn in Hlen; lia].
    clear -Hf. induction cs as [|c cs IH]; [reflexivity|].
    cbn [List.filter List.find] in *.
    destruct (is_tag tg c); [discriminate | by apply IH].
  - intros Hlen. cbn [List.find]. unfold is_tag at 1. rewrite Htag.
    by apply IH.
Qed.

Lemma find_rebuild_one_topic (new_e one : Element) :
  tag new_e = qn "Topic" ->
  (length (children_tagged "Topic" one) <= 1)%nat ->
  find (rebuild_one_topic new_e one) (qn "Topic") = Some new_e.
Proof.
  intros Htag Hlen. rewrite find_is_tag. cbn [rebuild_one_topic echildren].
  rewrite find_app_tag, (find_remove_first "Topic" _ Hlen).
  by rewrite (find_singleton_tag "Topic" "Topic" new_e Htag).
Qed.

(** The backup step of [_update_existing]. *)
Lemma backup_step E dest (backup : bool) fs fs1 :
  (if backup && bool_decide (is_Some (fs !! dest))
   then copy2 dest (with_suffix E dest ".mmap.bak") fs else Ok fs) = Ok fs1 ->
  (backup = true /\ with_suffix E dest ".mmap.bak" <> dest /\
   exists f, fs !! dest = Some f /\
             fs1 = <[with_suffix E dest ".mmap.bak" := f]> fs)
  \/ ((backup = false \/ fs !! dest = None) /\ fs1 = fs).
Proof.
  destruct backup; cbn [andb]; [|intros [= <-]; right; auto].
  case_bool_decide as Hd.
  - destruct Hd as [f Hf]. unfold copy2. rewrite Hf.
    destruct (decide (dest = _)) as [He|Hne]; [discriminate|].
    intros [= <-]. left. split_and!; [done | done | eauto].
  - intros [= <-]. right. split; [right|reflexivity].
    by apply eq_None_not_Some.
Qed.

Lemma update_existing_inv E m source dest backup k fs fs' :
  _update_existing E m source dest backup k fs = Ok fs' ->
  exists fs1 out,
    (if backup && bool_decide (is_Some (fs !! dest))
     then copy2 dest (with_suffix E dest ".mmap.bak") fs else Ok fs) = Ok fs1 /\
    fs' = <[dest := Zip out]> fs1.
Proof.
  unfold _update_existing. intros H.
  destruct (if backup && _ then _ else _) as [fs1|]; [|discriminate].
  cbn [mbind result_bind] in H.
  destruct (ZipFile_open fs1 source) as [zf|]; [|discriminate].
  cbn [mbind result_bind] in H.
  destruct (foldl _ _ _) as [d|]; [|discriminate].
  cbn [mbind result_bind] in H.
  destruct (dict_get d Document_xml) as [doc|]; [|discriminate].
  cbn [mbind result_bind] in H.
  destruct (fromstring E doc) as [root_elem|]; [|discriminate].
  cbn [mbind result_bind] in H.
  destruct (find_descendant root_elem _) as [one|]; [|discriminate].
  destruct (_build_topic_elem E (root m) k) as [[new_e k']|]; [|discriminate].
  cbn [mbind result_bind] in H. injection H as <-. eauto.
Qed.

Lemma write_inv E m dest backup k fs fs' :
  write E m dest backup k fs = Ok fs' ->
  ((_source_path m = [] \/ fs !! _source_path m = None) /\
   exists out, fs' = <[dest := Zip out]> fs) \/
  (_source_path m <> [] /\ is_Some (fs !! _source_path m) /\
   _update_existing E m (_source_path m) dest backup k fs = Ok fs').
Proof.
  unfold write. destruct (_source_path m) as [|c source] eqn:Hs.
  - unfold _create_new.
    destruct (_build_topic_elem E (root m) k) as [[e k']|]; [|discriminate].
    cbn [mbind result_bind]. intros [= <-]. left. eauto.
  - case_bool_decide as Hex.
    + intros H. right. done.
    + unfold _create_new.
      destruct (_build_topic_elem E (root m) k) as [[e k']|]; [|discriminate].
      cbn [mbind result_bind]. intros [= <-]. left.
      split; [right; by apply eq_None_not_Some | eauto].
Qed.

(** What [write] does to the file system when it returns: [dest] holds an
    archive; when the source file exists, [backup] is set and [dest]
    existed, the path [dest.with_suffix(".mmap.bak")] is another path than
    [dest] and holds what [dest] held before; in every other case no path
    but [dest] changes, so that no backup is made for a map without source
    file.  No path other than these two ever changes. *)
Theorem write_changes_dest_and_backup E m dest (backup : bool) k fs fs' :
  write E m dest backup k fs = Ok fs' ->
  (exists out, fs' !! dest = Some (Zip out)) /\
  (forall p, p <> dest -> p <> with_suffix E dest ".mmap.bak" ->
             fs' !! p = fs !! p) /\
  (backup = true -> _source_path m <> [] ->
   is_Some (fs !! _source_path m) -> is_Some (fs !! dest) ->
   with_suffix E dest ".mmap.bak" <> dest /\
   fs' !! with_suffix E dest ".mmap.bak" = fs !! dest) /\
  (backup = false \/ _source_path m = [] \/ fs !! _source_path m = None
   \/ fs !! dest = None ->
   forall p, p <> dest -> fs' !! p = fs !! p).
Proof.
  intros [[Hnew [out ->]]|(Hs & Hex & Hup)]%write_inv.
  - split; [eexists; apply lookup_insert_eq|].
    split; [intros p Hp _; by rewrite lookup_insert_ne|].
    split.
    + intros _ Hs [f Hf]. destruct Hnew as [?|Hn]; [done|].
      by rewrite Hn in Hf.
    + intros _ p Hp. by rewrite lookup_insert_ne.
  - destruct (update_existing_inv _ _ _ _ _ _ _ _ Hup)
      as (fs1 & out & Hbak & ->).
    split; [eexists; apply lookup_insert_eq|].
    destruct (backup_step _ _ _ _ _ Hbak)
      as [(-> & Hne & f & Hf & ->)|(Hno & ->)].
    + split; [intros p Hp Hp'; by rewrite !lookup_insert_ne|].
      split.
      * intros _ _ _ _. split; [exact Hne|].
        by rewrite lookup_insert_ne, lookup_insert_eq.
      * intros [?|[?|[Hn|Hn]]]; try done.
        -- destruct Hex as [? Hex]. by rewrite Hn in Hex.
        -- by rewrite Hn in Hf.
    + split; [intros p Hp _; by rewrite lookup_insert_ne|].
      split.
      * intros -> _ _ [f Hf]. destruct Hno as [?|Hn]; [done|].
        by rewrite Hn in Hf.
      * intros _ p Hp. by rewrite lookup_insert_ne.
Qed.

Lemma write_changes_dest_and_backup_witness :
  exists fs',
    write example_Env (MindMap_of topic_with_bag (u "a.mmap")) (u "a.mmap")
          true 0 fs_backup = Ok fs' /\
    fs' !! u "a.mmap.bak" = fs_backup !! u "a.mmap".
Proof.
  destruct (write example_Env (MindMap_of topic_with_bag (u "a.mmap"))
              (u "a.mmap") true 0 fs_backup) as [fs'|e] eqn:Hw;
    [|vm_compute in Hw; discriminate].
  exists fs'. split; [reflexivity|].
  destruct (write_changes_dest_and_backup _ _ _ _ _ _ _ Hw)
    as (_ & _ & Hb & _).
  apply Hb; [reflexivity | discriminate | |];
    eexists; vm_compute; reflexivity.
Defined.

Lemma write_existing E m dest backup k fs f :
  _source_path m <> [] -> fs !! _source_path m = Some f ->
  write E m dest backup k fs
  = _update_existing E m (_source_path m) dest backup k fs.
Proof.
  unfold write. intros Hne Hf. destruct (_source_path m); [done|].
  rewrite bool_decide_eq_true_2; [reflexivity | eauto].
Qed.

Lemma update_existing_result
    E m source dest backup k fs src doc root_elem one_topic new_e k' :
  fs !! source = Some (Zip src) ->
  zf_read src Document_xml = Ok doc ->
  Document_xml ∈ namelist src ->
  fromstring E doc = Ok root_elem ->
  find_descendant root_elem (qn "OneTopic") = Some one_topic ->
  _build_topic_elem E (root m) k = Ok (new_e, k') ->
  backup = false \/ fs !! dest = None \/
    (with_suffix E dest ".mmap.bak" <> source /\
     with_suffix E dest ".mmap.bak" <> dest) ->
  exists fs1 d,
    _update_existing E m source dest backup k fs
    = Ok (<[dest := Zip (dict_set Document_xml
                           (tostring_document E
                              (update_descendant (rebuild_one_topic new_e)
                                 root_elem (qn "OneTopic"))) d)]> fs1) /\
    NoDup d.*1.
Proof.
  intros Hsrc Hdoc Hin Hparse Hone Hbuild Hbak.
  unfold _update_existing.
  set (bak := with_suffix E dest ".mmap.bak") in *.
  assert (exists fs1,
    (if backup && bool_decide (is_Some (fs !! dest))
     then copy2 dest bak fs else Ok fs) = Ok fs1 /\
    fs1 !! source = Some (Zip src)) as (fs1 & -> & Hsrc1).
  { destruct backup; cbn [andb]; [|eauto].
    case_bool_decide as Hd; [|eauto].
    destruct Hbak as [?|[Hn|[Hbs Hbd]]]; [done | |].
    - rewrite Hn in Hd. by destruct Hd.
    - destruct Hd as [f Hf]. unfold copy2. rewrite Hf.
      rewrite decide_False by done. eexists; split; [done|].
      by rewrite lookup_insert_ne. }
  cbn [mbind result_bind]. unfold ZipFile_open. rewrite Hsrc1.
  cbn [mbind result_bind].
  destruct (read_all_spec src (namelist src) [])
    as (d & Hd & Hnd & Hkeys & Hget).
  { auto. } { constructor. }
  unfold read_all in Hd. rewrite Hd. cbn [mbind result_bind].
  rewrite Hget, bool_decide_eq_true_2, Hdoc by done.
  cbn [mbind result_bind]. rewrite Hparse. cbn [mbind result_bind].
  rewrite Hone, Hbuild. cbn [mbind result_bind].
  exists fs1, d. split; [reflexivity | exact Hnd].
Qed.

(** A map whose source file exists is written by replacing the topic under
    [OneTopic] in the document of the source.  When that element holds at
    most one topic, the backup does not overwrite the source, and the parser
    reads the written document back, [read] of the written file gives the
    map back. *)
Theorem write_existing_then_read
    E m dest (backup : bool) k fs src doc root_elem one_topic :
  topic_ok (root m) = true ->
  _source_path m <> [] ->
  fs !! _source_path m = Some (Zip src) ->
  Document_xml ∈ namelist src ->
  zf_read src Document_xml = Ok doc ->
  fromstring E doc = Ok root_elem ->
  find_descendant root_elem (qn "OneTopic") = Some one_topic ->
  (length (children_tagged "Topic" one_topic) <= 1)%nat ->
  backup = false \/ fs !! dest = None \/
    (with_suffix E dest ".mmap.bak" <> _source_path m /\
     with_suffix E dest ".mmap.bak" <> dest) ->
  (forall new_e k', _build_topic_elem E (root m) k = Ok (new_e, k') ->
     let updated := update_descendant (rebuild_one_topic new_e) root_elem
                      (qn "OneTopic") in
     fromstring E (tostring_document E updated) = Ok updated) ->
  exists fs' m',
    write E m dest backup k fs = Ok fs' /\
    read E fs' dest = Ok m' /\
    preserved (root m) (root m') /\
    title m' = text (root m) /\ _source_path m' = dest.
Proof.
  intros Hok Hne Hsrc Hin Hdoc Hparse Hone Hlen Hbak Hparser.
  destruct (build_parse_topic E (root m) Hok k)
    as (e & k' & t' & Hbuild & Htag & Hpt & Hpres).
  destruct (update_existing_result E m _ dest backup k fs src doc root_elem
              one_topic e k' Hsrc Hdoc Hin Hparse Hone Hbuild Hbak)
    as (fs1 & d & Hup & Hnd).
  rewrite (write_existing E m dest backup k fs _ Hne Hsrc), Hup.
  eexists _, (MindMap_of t' dest). split; [reflexivity|].
  split.
  - erewrite (read_document E _ dest _ _ _
                (rebuild_one_topic e one_topic) e
                (lookup_insert_eq _ _ _)).
    + by rewrite Hpt.
    + unfold namelist. apply dict_set_keys. by left.
    + rewrite zf_read_dict by (by apply dict_set_NoDup).
      by rewrite dict_get_set, bool_decide_eq_true_2.
    + exact (Hparser e k' Hbuild).
    + by apply find_update_descendant.
    + by apply find_rebuild_one_topic.
  - split; [exact Hpres|]. split; [|reflexivity].
    cbn [title MindMap_of]. by destruct Hpres.
Qed.

Lemma write_existing_then_read_witness :
  exists fs' m',
    write updated_Env (MindMap_of example_map (u "a.mmap.bak")) (u "b.mmap")
          true 0 fs_backup = Ok fs' /\
    read updated_Env fs' (u "b.mmap") = Ok m' /\
    preserved (root (MindMap_of example_map (u "a.mmap.bak"))) (root m') /\
    title m' = text (root (MindMap_of example_map (u "a.mmap.bak"))) /\
    _source_path m' = u "b.mmap".
Proof.
  apply (write_existing_then_read updated_Env
           (MindMap_of example_map (u "a.mmap.bak")) (u "b.mmap") true 0
           fs_backup
           [(Document_xml, u "<Map/>"); (u "Preview.png", [137; 80; 78; 71]%N)]
           (u "<Map/>")
           (example_document [elem "Topic" {[ u "OId" := u "A1" ]} []])
           (elem "OneTopic" ∅ [elem "Topic" {[ u "OId" := u "A1" ]} []])).
  - reflexivity.
  - discriminate.
  - vm_compute. reflexivity.
  - apply list_elem_of_here.
  - vm_compute. reflexivity.
  - vm_compute. reflexivity.
  - vm_compute. reflexivity.
  - vm_compute. lia.
  - right. left. vm_compute. reflexivity.
  - intros e k' H. vm_compute in H. injection H as <- <-.
    vm_compute. reflexivity.
Defined.

Lemma update_existing_keeps_entries_witness :
  exists fs' out,
    _update_existing example_Env (MindMap_of topic_with_bag (u "a.mmap.bak"))
      (u "a.mmap.bak") (u "b.mmap") true 0 fs_backup = Ok fs' /\
    fs' !! u "b.mmap" = Some (Zip out) /\
    forall name,
      name ∈ namelist [(Document_xml, u "<Map/>");
                        (u "Preview.png", [137; 80; 78; 71]%N)] ->
      name <> Document_xml ->
      name ∈ namelist out /\
      zf_read out name
      = zf_read [(Document_xml, u "<Map/>");
                 (u "Preview.png", [137; 80; 78; 71]%N)] name.
Proof.
  eapply (update_existing_keeps_entries example_Env
            (MindMap_of topic_with_bag (u "a.mmap.bak")) (u "a.mmap.bak")
            (u "b.mmap") true 0 fs_backup).
  - vm_compute. reflexivity.
  - vm_compute. reflexivity.
  - apply list_elem_of_here.
  - vm_compute. reflexivity.
  - vm_compute. reflexivity.
  - vm_compute. reflexivity.
  - right. left. vm_compute. reflexivity.
Defined.

End files.

(** ** What the reader raises *)

Section reader_errors.
Implicit Types (E : Env) (e c : Element) (x : exn) (frames : nat).

Lemma finite_percentages_unfold e :
  finite_percentages e
  = finite_percentage e && forallb finite_percentages (echildren e).
Proof. by destruct e. Qed.

Lemma parse_task_outcome e :
  returns_or_overflows (finite_percentage e) (_parse_task e).
Proof.
  pose proof (_parse_task_percentage e) as H. unfold finite_percentage.
  destruct (get e "TaskPercentage") as [|c pct] eqn:Hpct.
  - destruct H as (tk & -> & _). split; [eauto | discriminate].
  - destruct (float_of_str (c :: pct)) as [[neg m ex|neg|]|e'].
    + destruct H as (tk & -> & _). split; [eauto | discriminate].
    + rewrite H. split; [discriminate | by intros x [= <-]].
    + destruct H as (tk & -> & _). split; [eauto | discriminate].
    + destruct H as (tk & -> & _). split; [eauto | discriminate].
Qed.

Lemma find_some_In (f : Element -> bool) (l : list Element) e :
  List.find f l = Some e -> In e l.
Proof. intros H. by apply List.find_some in H as [? _]. Qed.

Lemma parse_task_of_outcome e :
  returns_or_overflows (forallb finite_percentages (echildren e))
    (parse_task_of e).
Proof.
  unfold parse_task_of, find.
  destruct (List.find _ (echildren e)) as [te|] eqn:Hf.
  - apply find_some_In in Hf.
    destruct (parse_task_outcome te) as [Hok Hraise]. split.
    + intros Hall. rewrite forallb_forall in Hall. specialize (Hall te Hf).
      rewrite finite_percentages_unfold in Hall.
      apply andb_true_iff in Hall as [Hte _].
      destruct (Hok Hte) as [tk ->]. cbn. eauto.
    + intros x. destruct (_parse_task te) as [tk|x']; cbn; [discriminate|].
      intros [= <-]. by apply Hraise.
  - split; [eauto | discriminate].
Qed.

Lemma parse_each_outcome E (l : list Element) :
  Forall (fun c => returns_or_overflows (finite_percentages c)
                     (_parse_topic E c)) l ->
  returns_or_overflows (forallb finite_percentages l) (parse_each E l).
Proof.
  induction 1 as [|c l [Hok Hraise] _ [IHok IHraise]].
  - split; [eauto | discriminate].
  - cbn [parse_each forallb]. fold (parse_each E).
    destruct (bool_decide (tag c = qn "Topic")).
    + split.
      * intros [Hc Hl]%andb_true_iff.
        destruct (Hok Hc) as [t ->], (IHok Hl) as [ts ->]. cbn. eauto.
      * intros x. destruct (_parse_topic E c) as [t|x']; cbn.
        -- destruct (parse_each E l) as [ts|x']; cbn; [discriminate|].
           intros [= <-]. by apply IHraise.
        -- intros [= <-]. by apply Hraise.
    + split; [|exact IHraise].
      intros [_ Hl]%andb_true_iff. by apply IHok.
Qed.

Lemma parse_topic_outcome E e :
  returns_or_overflows (finite_percentages e) (_parse_topic E e) /\
  returns_or_overflows (forallb finite_percentages (echildren e))
    (parse_each E (echildren e)).
Proof.
  induction e as [e IH] using Element_ind'.
  assert (returns_or_overflows (forallb finite_percentages (echildren e))
            (parse_each E (echildren e))) as Heach.
  { apply parse_each_outcome. eapply Forall_impl; [exact IH|].
    by intros c [Hc _]. }
  split; [|exact Heach].
  assert (returns_or_overflows (forallb finite_percentages (echildren e))
            (parse_subtopics E (echildren e))) as [Hsok Hsraise].
  { clear Heach. induction IH as [|c l [_ Hc] _ IHl].
    - split; [eauto | discriminate].
    - cbn [parse_subtopics forallb]. fold (parse_subtopics E).
      destruct (bool_decide (tag c = qn "SubTopics")).
      + destruct Hc as [Hok Hraise]. split; [|exact Hraise].
        intros [Hc _]%andb_true_iff. apply Hok.
        rewrite finite_percentages_unfold in Hc.
        by apply andb_true_iff in Hc as [_ Hc].
      + destruct IHl as [Hok Hraise]. split; [|exact Hraise].
        intros [_ Hl]%andb_true_iff. by apply Hok. }
  destruct (parse_task_of_outcome e) as [Htok Htraise].
  rewrite _parse_topic_unfold, finite_percentages_unfold. split.
  - intros [_ Hall]%andb_true_iff.
    destruct (Htok Hall) as [tk ->], (Hsok Hall) as [cs ->]. cbn. eauto.
  - intros x. destruct (parse_task_of e) as [tk|x']; cbn.
    + destruct (parse_subtopics E (echildren e)) as [cs|x']; cbn;
        [discriminate|].
      intros [= <-]. by apply Hsraise.
    + intros [= <-]. by apply Htraise.
Qed.

Lemma _parse_topic_limited_unfold E frames e :
  _parse_topic_limited E (S frames) e =
    task ← parse_task_of e;
    children ← parse_subtopics_limited E frames (echildren e);
    Ok (mk_Topic (get e "OId") (parse_text e) children task
          (parse_icons e) (parse_hyperlinks e) (parse_note e)
          (parse_style E e) (attrib e)).
Proof. destruct e. reflexivity. Qed.

Lemma _parse_topic_limited_0 E e :
  _parse_topic_limited E 0 e = Raise RecursionError.
Proof. destruct e. reflexivity. Qed.

Lemma height_unfold e : height e = S (list_max (List.map height (echildren e))).
Proof. by destruct e. Qed.

Lemma height_child e c : c ∈ echildren e -> (height c < height e)%nat.
Proof.
  intros Hc. rewrite (height_unfold e).
  pose proof (proj1 (list_max_le (List.map height (echildren e)) _)
                (Nat.le_refl _)) as Hall.
  rewrite Forall_forall in Hall.
  assert (height c <= list_max (List.map height (echildren e)))%nat; [|lia].
  apply Hall, list_elem_of_In, in_map, list_elem_of_In, Hc.
Qed.

Lemma parse_task_of_raises e : overflow_or_recursion (parse_task_of e).
Proof.
  intros x Hx. left.
  by apply (proj2 (parse_task_of_outcome e)).
Qed.

Lemma parse_each_limited_raises E frames (l : list Element) :
  Forall (fun c => overflow_or_recursion (_parse_topic_limited E frames c)) l ->
  overflow_or_recursion (parse_each_limited E frames l).
Proof.
  induction 1 as [|c l Hc _ IH]; [discriminate|].
  cbn [parse_each_limited]. fold (parse_each_limited E frames).
  destruct (bool_decide (tag c = qn "Topic")); [|exact IH].
  intros x. destruct (_parse_topic_limited E frames c) as [t|x'] eqn:Hp; cbn.
  - destruct (parse_each_limited E frames l) as [ts|x']; cbn; [discriminate|].
    intros [= <-]. by apply IH.
  - intros [= <-]. by apply Hc.
Qed.

Lemma parse_topic_limited_raises E e :
  (forall frames, overflow_or_recursion (_parse_topic_limited E frames e)) /\
  (forall frames,
     overflow_or_recursion (parse_each_limited E frames (echildren e))).
Proof.
  induction e as [e IH] using Element_ind'.
  assert (forall frames,
    overflow_or_recursion (parse_each_limited E frames (echildren e)))
    as Heach.
  { intros frames. apply parse_each_limited_raises.
    eapply Forall_impl; [exact IH|]. by intros c [Hc _]. }
  split; [|exact Heach]. intros [|frames].
  - rewrite _parse_topic_limited_0. intros x [= <-]. by right.
  - assert (overflow_or_recursion
              (parse_subtopics_limited E frames (echildren e))) as Hsub.
    { clear Heach. induction IH as [|c l [_ Hc] _ IHl]; [discriminate|].
      cbn [parse_subtopics_limited]. fold (parse_subtopics_limited E frames).
      destruct (bool_decide (tag c = qn "SubTopics")); [apply Hc | exact IHl]. }
    rewrite _parse_topic_limited_unfold. intros x.
    destruct (parse_task_of e) as [tk|x'] eqn:Htk; cbn.
    + destruct (parse_subtopics_limited E frames (echildren e)) as [cs|x']
        eqn:Hcs; cbn; [discriminate|].
      intros [= <-]. by apply Hsub.
    + intros [= <-]. by apply (parse_task_of_raises e).
Qed.

Lemma parse_each_limited_agrees E frames (l : list Element) :
  Forall (fun c => (height c <= frames)%nat ->
                   _parse_topic_limited E frames c = _parse_topic E c) l ->
  Forall (fun c => (height c <= frames)%nat) l ->
  parse_each_limited E frames l = parse_each E l.
Proof.
  induction 1 as [|c l Hc _ IH]; [reflexivity|].
  intros [Hh Hl]%Forall_cons.
  cbn [parse_each_limited parse_each].
  fold (parse_each_limited E frames). fold (parse_each E).
  by rewrite (Hc Hh), (IH Hl).
Qed.

Lemma parse_topic_limited_agrees E e :
  (forall frames, (height e <= frames)%nat ->
     _parse_topic_limited E frames e = _parse_topic E e) /\
  (forall frames, (height e <= S frames)%nat ->
     parse_each_limited E frames (echildren e) = parse_each E (echildren e)).
Proof.
  induction e as [e IH] using Element_ind'.
  assert (forall frames, (height e <= S frames)%nat ->
    parse_each_limited E frames (echildren e) = parse_each E (echildren e))
    as Heach.
  { intros frames Hh. apply parse_each_limited_agrees.
    - eapply Forall_impl; [exact IH|]. intros c [Hc _]. apply Hc.
    - apply Forall_forall. intros c Hc.
      pose proof (height_child e c Hc). lia. }
  split; [|exact Heach]. intros [|frames] Hh.
  - rewrite height_unfold in Hh. lia.
  - rewrite _parse_topic_limited_unfold, _parse_topic_unfold.
    assert (parse_subtopics_limited E frames (echildren e)
            = parse_subtopics E (echildren e)) as ->; [|reflexivity].
    assert (Forall (fun c => (height c <= frames)%nat) (echildren e)) as Hcs.
    { apply Forall_forall. intros c Hc.
      pose proof (height_child e c Hc). lia. }
    clear Heach Hh. induction IH as [|c l [_ Hc] _ IHl]; [reflexivity|].
    apply Forall_cons in Hcs as [Hh Hl].
    cbn [parse_subtopics_limited parse_subtopics].
    fold (parse_subtopics_limited E frames). fold (parse_subtopics E).
    destruct (bool_decide (tag c = qn "SubTopics")).
    + apply Hc. lia.
    + by apply IHl.
Qed.

(** [_parse_topic] raises nothing but [OverflowError], from a task with an
    infinite percentage, and [RecursionError], from a nesting deeper than
    the interpreter allows: every other shape of the element, a missing
    attribute, an unknown priority, a date in no known format, a child of
    another tag, is read leniently. *)
Theorem parse_topic_limited_raises_only E frames e x :
  _parse_topic_limited E frames e = Raise x ->
  x = OverflowError \/ x = RecursionError.
Proof. destruct (parse_topic_limited_raises E e) as [H _]. apply H. Qed.

Lemma parse_topic_limited_raises_only_witness :
  exists x,
    _parse_topic_limited example_Env 1 elem_inf_task = Raise x /\
    (x = OverflowError \/ x = RecursionError).
Proof.
  exists RecursionError. split; [vm_compute; reflexivity|].
  apply (parse_topic_limited_raises_only example_Env 1 elem_inf_task).
  vm_compute. reflexivity.
Defined.

(** [_parse_topic] returns a topic for every element tree in which no
    [TaskPercentage] attribute is the text of an infinity and that has no
    more levels than the interpreter allows nested calls; the topic is the
    one that the decoder gives without a limit. *)
Theorem parse_topic_limited_returns E frames e :
  finite_percentages e = true -> (height e <= frames)%nat ->
  exists t, _parse_topic_limited E frames e = Ok t /\ _parse_topic E e = Ok t.
Proof.
  intros Hfin Hh. destruct (parse_topic_outcome E e) as [[Hok _] _].
  destruct (Hok Hfin) as [t Ht]. exists t. split; [|exact Ht].
  destruct (parse_topic_limited_agrees E e) as [H _]. by rewrite (H frames Hh).
Qed.

Lemma parse_topic_limited_returns_witness :
  exists t,
    _parse_topic_limited example_Env 2
      (elem "Topic" ∅
         [elem "Task" {[ u "TaskPercentage" := u "abc";
                         u "TaskPriority" := u "9";
                         u "TaskDueDate" := u "tomorrow" ]} [];
          elem "Other" ∅ []]) = Ok t /\
    _parse_topic example_Env
      (elem "Topic" ∅
         [elem "Task" {[ u "TaskPercentage" := u "abc";
                         u "TaskPriority" := u "9";
                         u "TaskDueDate" := u "tomorrow" ]} [];
          elem "Other" ∅ []]) = Ok t.
Proof.
  apply parse_topic_limited_returns; [vm_compute; reflexivity|].
  vm_compute. lia.
Defined.

End reader_errors.

(** ** The identifiers of the written elements *)

Section identifiers.
Implicit Types (E : Env) (t : Topic) (k : nat).

Lemma build_oid_spec E t k :
  build_oid E t k
  = if without_oid t then (uuid4 E k, S k) else (oid t, k).
Proof. unfold build_oid, without_oid. by destruct (oid t). Qed.

Lemma build_each_identifiers E (cs : list Topic) :
  Forall (fun c => forall k e k',
            _build_topic_elem E c k = Ok (e, k') ->
            k' = (k + length (List.filter without_oid (walk c)))%nat) cs ->
  forall k es k',
    build_each E cs k = Ok (es, k') ->
    k' = (k + length (List.filter without_oid (flat_map walk cs)))%nat.
Proof.
  induction 1 as [|c cs Hc _ IH]; intros k es k'.
  - intros [= <- <-]. cbn. lia.
  - cbn [build_each]. fold (build_each E).
    destruct (_build_topic_elem E c k) as [[e k1]|] eqn:Hb; [|discriminate].
    cbn [mbind result_bind].
    destruct (build_each E cs k1) as [[rest k2]|] eqn:Hbs; [|discriminate].
    cbn [mbind result_bind]. intros [= <- <-].
    cbn [flat_map]. rewrite List.filter_app, length_app.
    rewrite (IH _ _ _ Hbs), (Hc _ _ _ Hb). lia.
Qed.

(** Encoding draws a new identifier for the topics without stored
    identifier only, one for each: the counter advances by the number of
    such topics in the tree, and the element carries the stored identifier
    of its topic, or the identifier drawn first. *)
Theorem build_topic_elem_identifiers E t k e k' :
  _build_topic_elem E t k = Ok (e, k') ->
  k' = (k + length (List.filter without_oid (walk t)))%nat /\
  get e "OId" = (if without_oid t then uuid4 E k else oid t).
Proof.
  revert k e k'. induction t as [t IH] using Topic_ind'. intros k e k'.
  rewrite _build_topic_elem_unfold.
  destruct (match task t with Some _ => _ | None => _ end) as [te|];
    [|discriminate].
  cbn [mbind result_bind].
  destruct (build_each E (children t) (build_oid E t k).2)
    as [[ces k1]|] eqn:Hbs; [|discriminate].
  cbn [mbind result_bind]. intros [= <- <-].
  apply build_each_identifiers in Hbs.
  2:{ eapply Forall_impl; [exact IH|]. intros c Hc k0 e0 k0' Hb.
      by destruct (Hc k0 e0 k0' Hb). }
  rewrite build_oid_spec in *. rewrite walk_unfold. cbn [List.filter].
  unfold get. cbn [attrib elem]. rewrite build_attrs_insert, lookup_insert_eq.
  destruct (without_oid t); cbn [fst snd length default] in *; split;
    [lia | reflexivity | lia | reflexivity].
Qed.

Lemma build_topic_elem_identifiers_witness :
  exists e k',
    _build_topic_elem example_Env example_map 7 = Ok (e, k') /\
    k' = 10 /\ get e "OId" = u "R0".
Proof.
  destruct (_build_topic_elem example_Env example_map 7) as [[e k']|x] eqn:H;
    [|vm_compute in H; discriminate].
  exists e, k'. split; [reflexivity|].
  exact (build_topic_elem_identifiers example_Env example_map 7 e k' H).
Defined.

End identifiers.
